(** * Adaptive traffic-signal simulation: a shallow embedding

    The development follows the Python sources file by file:

    - [simulation/intersection.py]        -> [Module Intersection]
    - [main.py] (the fixed plan)          -> [Module FixedTimeController]
    - [simulation/multi_intersection.py]  -> [Module MultiIntersectionNetwork]
    - [models/rl_controller.py]           -> [Module QLearningController]
    - [models/neural_controller.py]       -> [Module NeuralController]

    Python integers are [Z].  Python numbers that take part in float
    arithmetic are elements of a type [F] carrying the operations of the
    interface [PyFloat].  The interface has two instances: the real numbers
    (exact arithmetic, used for the universally quantified theorems) and
    IEEE-754 binary64 (the arithmetic the interpreter performs, used to
    evaluate the code on concrete inputs).  Strings are [string]; a mutated
    object is a record threaded through the calls. *)

From Stdlib Require Import ZArith List String Ascii Bool Lia.
From Stdlib Require Import Reals Lra Psatz.
From Stdlib Require Import Floats DecimalString.
Import ListNotations.

Local Open Scope string_scope.
Local Open Scope Z_scope.

(** ** Numbers *)

(** The float operations the sources use.  [of_int] is the implicit
    conversion of an [int] operand, [to_int] is the builtin [int()], which
    truncates toward zero. *)
Class PyFloat (F : Type) : Type := {
  fadd : F -> F -> F;
  fsub : F -> F -> F;
  fmul : F -> F -> F;
  fdiv : F -> F -> F;
  fabs : F -> F;
  fltb : F -> F -> bool;
  feqb : F -> F -> bool;
  of_int : Z -> F;
  to_int : F -> Z
}.

Declare Scope num_scope.
Delimit Scope num_scope with num.
Infix "+" := fadd : num_scope.
Infix "-" := fsub : num_scope.
Infix "*" := fmul : num_scope.
Infix "/" := fdiv : num_scope.
Infix "<?" := fltb : num_scope.
Infix "=?" := feqb : num_scope.

(** A decimal literal [n/d] of the source ([0.3] is [lit 3 10]).  The
    quotient of two exactly represented integers is correctly rounded, so in
    binary64 this is the double the interpreter reads the literal as. *)
Definition lit {F} `{PyFloat F} (n d : Z) : F := (of_int n / of_int d)%num.

(** The builtin [max(a, b)] on two numbers: the first argument is kept
    unless the second is strictly greater. *)
Definition pymax {F} `{PyFloat F} (a b : F) : F := if (a <? b)%num then b else a.

(** *** Exact arithmetic *)

(** The real numbers: no operation rounds and none raises.  The interpreter
    computes in binary64, where the product [service_rate * duration] is
    rounded before [int()] truncates it; [product_rounding_b64] below shows
    an input where the two differ. *)

Definition Rltb (x y : R) : bool := if Rlt_dec x y then true else false.
Definition Reqb (x y : R) : bool := if Req_dec_T x y then true else false.

(** [int(x)]: the integer part, rounded toward zero. *)
Definition Rtrunc (x : R) : Z :=
  if Rle_dec 0 x then Int_part x else - Int_part (- x).

#[export] Instance R_PyFloat : PyFloat R := {
  fadd := Rplus;
  fsub := Rminus;
  fmul := Rmult;
  fdiv := Rdiv;
  fabs := Rabs;
  fltb := Rltb;
  feqb := Reqb;
  of_int := IZR;
  to_int := Rtrunc
}.

(** *** IEEE-754 binary64 *)

(** [float(n)]: the integer rounded to the nearest double. *)
Definition b64_of_int (z : Z) : float :=
  SF2Prim (binary_normalize prec emax z 0 false).

(** [int(x)] of a finite double.  On an infinity the interpreter raises
    [OverflowError] and on a NaN [ValueError]; this function has no error
    and gives 0 there.  What is proved below of the result of a step in
    binary64 is therefore about the calls that return. *)
Definition b64_to_int (x : float) : Z :=
  match Prim2SF x with
  | S754_finite s m e =>
      let mag := if 0 <=? e then Z.pos m * 2 ^ e else Z.pos m / 2 ^ (- e) in
      if s then - mag else mag
  | _ => 0
  end.

#[export] Instance b64_PyFloat : PyFloat float := {
  fadd := PrimFloat.add;
  fsub := PrimFloat.sub;
  fmul := PrimFloat.mul;
  fdiv := PrimFloat.div;
  fabs := PrimFloat.abs;
  fltb := PrimFloat.ltb;
  feqb := PrimFloat.eqb;
  of_int := b64_of_int;
  to_int := b64_to_int
}.

(** ** Strings *)

(** [needle in haystack] for strings, as a proposition. *)
Definition contains (haystack needle : string) : Prop :=
  exists pre post, haystack = (pre ++ needle ++ post)%string.

(** [str(n)] of an integer. *)
Definition str_of_int (n : Z) : string :=
  NilZero.string_of_int (Z.to_int n).

(** [str(b)] of a boolean. *)
Definition str_of_bool (b : bool) : string := if b then "True" else "False".

(** ** simulation/intersection.py *)

(** The payloads exchanged with the simulator.  The sources pass
    dictionaries; every key the code reads is a field here, and a key the
    code tests for or reads with [.get] is an [option]. *)

(** What [observe_state] returns and the controllers read. *)
Record State : Type := {
  st_intersection : Z;
  st_queue_ns : Z;
  st_queue_ew : Z;
  st_phase : string;
  st_time_of_day : string;
  st_emergency : bool
}.

(** One element of the arrival stream. *)
Record Arrivals : Type := {
  a_step : Z;
  a_time_of_day : string;
  arrivals_ns : Z;
  arrivals_ew : Z;
  a_emergency : bool
}.

(** A controller's decision. *)
Record Decision (F : Type) : Type := {
  duration : F;
  target_phase : option string;
  explanation : option string
}.
Arguments duration {F} _.
Arguments target_phase {F} _.
Arguments explanation {F} _.

(** A row of the simulation log. *)
Record LogRecord (F : Type) : Type := {
  log_step : Z;
  log_intersection : Z;
  log_time_of_day : string;
  phase_used : string;
  log_duration : F;
  log_queue_ns : Z;
  log_queue_ew : Z;
  served_ns : Z;
  served_ew : Z;
  throughput : Z;
  avg_wait_proxy : F;
  stops : Z;
  log_emergency : bool;
  log_explanation : string
}.
Arguments log_step {F} _.
Arguments log_intersection {F} _.
Arguments log_time_of_day {F} _.
Arguments phase_used {F} _.
Arguments log_duration {F} _.
Arguments log_queue_ns {F} _.
Arguments log_queue_ew {F} _.
Arguments served_ns {F} _.
Arguments served_ew {F} _.
Arguments throughput {F} _.
Arguments avg_wait_proxy {F} _.
Arguments stops {F} _.
Arguments log_emergency {F} _.
Arguments log_explanation {F} _.

Module Intersection.

(** The dataclass with the attributes [__post_init__] adds. *)
Record t : Type := {
  intersection_id : Z;
  service_rate : Z;
  queue_ns : Z;
  queue_ew : Z;
  phase : string
}.

(** [Intersection(intersection_id, service_rate)]. *)
Definition init (id rate : Z) : t :=
  {| intersection_id := id; service_rate := rate;
     queue_ns := 0; queue_ew := 0; phase := "NS" |}.

Definition set_queue_ns (v : Z) (self : t) : t :=
  {| intersection_id := intersection_id self; service_rate := service_rate self;
     queue_ns := v; queue_ew := queue_ew self; phase := phase self |}.

Definition set_queue_ew (v : Z) (self : t) : t :=
  {| intersection_id := intersection_id self; service_rate := service_rate self;
     queue_ns := queue_ns self; queue_ew := v; phase := phase self |}.

Definition set_phase (p : string) (self : t) : t :=
  {| intersection_id := intersection_id self; service_rate := service_rate self;
     queue_ns := queue_ns self; queue_ew := queue_ew self; phase := p |}.

Definition observe_state (self : t) (time_of_day : string) (emergency : bool) : State :=
  {| st_intersection := intersection_id self;
     st_queue_ns := queue_ns self;
     st_queue_ew := queue_ew self;
     st_phase := phase self;
     st_time_of_day := time_of_day;
     st_emergency := emergency |}.

Definition override_note : string :=
  "Emergency override: granted immediate green to priority approach.".

(** [_apply_emergency]: the pair it returns and the object after the call. *)
Definition apply_emergency (self : t) (emergency : bool) : (bool * string) * t :=
  if negb emergency then ((false, ""), self)
  else ((true, override_note),
        set_phase (if queue_ns self >=? queue_ew self then "NS" else "EW") self).

(** [step]: the log record, the reward and the object after the call. *)
Definition step {F} `{PyFloat F} (self : t) (arrivals : Arrivals) (decision : Decision F)
  : (LogRecord F * F) * t :=
  let self := set_queue_ns (queue_ns self + arrivals_ns arrivals) self in
  let self := set_queue_ew (queue_ew self + arrivals_ew arrivals) self in
  let emergency := a_emergency arrivals in
  let '((overridden, override_msg), self) := apply_emergency self emergency in
  let duration :=
    if negb overridden then duration decision
    else pymax (of_int 5) (duration decision) in
  let phase_used :=
    match target_phase decision with
    | Some p => if negb overridden then p else phase self
    | None => phase self
    end in
  let '(served_ns, served_ew, stops, self) :=
    if (phase_used =? "NS")%string then
      let served_ns := Z.min (queue_ns self) (to_int (of_int (service_rate self) * duration)%num) in
      let self := set_queue_ns (queue_ns self - served_ns) self in
      (served_ns, 0, 0 + queue_ew self, self)
    else
      let served_ew := Z.min (queue_ew self) (to_int (of_int (service_rate self) * duration)%num) in
      let self := set_queue_ew (queue_ew self - served_ew) self in
      (0, served_ew, 0 + queue_ns self, self) in
  let throughput := served_ns + served_ew in
  let avg_wait :=
    if (queue_ns self + queue_ew self =? 0)%Z then of_int 0
    else (of_int (queue_ns self + queue_ew self) / of_int 2)%num in
  let explanation :=
    match explanation decision with Some e => e | None => "" end in
  let explanation :=
    if (override_msg =? "")%string then explanation
    else (explanation ++ " | " ++ override_msg)%string in
  let self :=
    match target_phase decision with
    | Some _ => set_phase phase_used self
    | None =>
        if negb emergency
        then set_phase (if (phase self =? "NS")%string then "EW" else "NS") self
        else self
    end in
  let log :=
    {| log_step := a_step arrivals;
       log_intersection := intersection_id self;
       log_time_of_day := a_time_of_day arrivals;
       phase_used := phase_used;
       log_duration := duration;
       log_queue_ns := queue_ns self;
       log_queue_ew := queue_ew self;
       served_ns := served_ns;
       served_ew := served_ew;
       throughput := throughput;
       avg_wait_proxy := avg_wait;
       stops := stops;
       log_emergency := emergency;
       log_explanation := explanation |} in
  let reward := (of_int throughput - avg_wait - lit 3 10 * of_int stops)%num in
  ((log, reward), self).

(** The data-model invariant of an intersection. *)
Definition valid_phase (p : string) : Prop := p = "NS" \/ p = "EW".

Definition inv (self : t) : Prop :=
  0 <= queue_ns self /\ 0 <= queue_ew self /\ valid_phase (phase self).

(** The serviced approach's queue just before service, that is after the
    arrivals were added. *)
Definition pre_service_queue {F} (self : t) (arrivals : Arrivals) (log : LogRecord F) : Z :=
  if (phase_used log =? "NS")%string
  then queue_ns self + arrivals_ns arrivals
  else queue_ew self + arrivals_ew arrivals.


(** "A negative duration serves nothing": no vehicle is served and both
    queues are left as they were after the arrivals were added. *)
Definition serves_nothing (self : t) (arrivals : Arrivals) (decision : Decision R) : Prop :=
  let log := fst (fst (step self arrivals decision)) in
  let self' := snd (step self arrivals decision) in
  served_ns log = 0 /\ served_ew log = 0
  /\ queue_ns self' = queue_ns self + arrivals_ns arrivals
  /\ queue_ew self' = queue_ew self + arrivals_ew arrivals.

End Intersection.

(** ** Python containers *)

(** [l[i] = v] on a list.  The interpreter raises [IndexError] when [i] is
    out of range, where this function leaves the list as it is; its callers
    either look [i] up first or run under an invariant on the lengths. *)
Fixpoint list_set {A : Type} (i : nat) (v : A) (l : list A) : list A :=
  match l, i with
  | [], _ => []
  | _ :: r, O => v :: r
  | x :: r, S i' => x :: list_set i' v r
  end.

(** A [dict]: an association list in insertion order without repeated keys.
    [dict_set] is [d[k] = v]: an existing key keeps its place. *)
Section Dict.
Context {K V : Type} (eqb : K -> K -> bool).

Fixpoint dict_get (k : K) (d : list (K * V)) : option V :=
  match d with
  | [] => None
  | (k', v) :: r => if eqb k k' then Some v else dict_get k r
  end.

Fixpoint dict_set (k : K) (v : V) (d : list (K * V)) : list (K * V) :=
  match d with
  | [] => [(k, v)]
  | (k', v') :: r => if eqb k k' then (k', v) :: r else (k', v') :: dict_set k v r
  end.

Definition dict_mem (k : K) (d : list (K * V)) : bool :=
  match dict_get k d with Some _ => true | None => false end.

Definition dict_values (d : list (K * V)) : list V := map snd d.
End Dict.

(** An exception is [None]. *)
Definition bind {A B : Type} (o : option A) (f : A -> option B) : option B :=
  match o with Some a => f a | None => None end.

Notation "x <- e ;; k" := (bind e (fun x => k))
  (at level 61, e at next level, right associativity).
Notation "' p <- e ;; k" := (bind e (fun p => k))
  (at level 61, p pattern, e at next level, right associativity).

(** ** main.py: the fixed-plan controller *)

Module FixedTimeController.

(** [self.plans]. *)
Definition plans : list (string * Z) :=
  [("morning", 12); ("afternoon", 10); ("night", 6)].

Definition decide {F} `{PyFloat F} (state : State) : Decision F :=
  let duration :=
    match dict_get String.eqb (st_time_of_day state) plans with
    | Some d => d
    | None => 10
    end in
  {| duration := of_int duration; target_phase := None;
     explanation := Some "Fixed plan based on time-of-day profile." |}.

(** One pass of the driver's loop for a single intersection: observe,
    decide, step. *)
Definition drive {F} `{PyFloat F} (acc : list (LogRecord F) * Intersection.t)
    (arrivals : Arrivals) : list (LogRecord F) * Intersection.t :=
  let '(logs, inter) := acc in
  let state :=
    Intersection.observe_state inter (a_time_of_day arrivals) (a_emergency arrivals) in
  let '((log, _), inter') := Intersection.step inter arrivals (decide state) in
  ((logs ++ [log])%list, inter').

End FixedTimeController.

(** ** simulation/multi_intersection.py *)

Module MultiIntersectionNetwork.

Record t : Type := {
  intersections : list Intersection.t;
  controller_name : string
}.

(** [MultiIntersectionNetwork(intersections, controller_name, service_rate)]. *)
Definition init (n : nat) (name : string) (rate : Z) : t :=
  {| intersections := map (fun i => Intersection.init (Z.of_nat i) rate) (seq 0 n);
     controller_name := name |}.

Definition observe_state (self : t) (idx : nat) (time_of_day : string) (emergency : bool)
  : option State :=
  inter <- nth_error (intersections self) idx ;;
  Some (Intersection.observe_state inter time_of_day emergency).

(** [arrivals["arrivals_ns"] += k]. *)
Definition add_arrivals_ns (k : Z) (a : Arrivals) : Arrivals :=
  {| a_step := a_step a; a_time_of_day := a_time_of_day a;
     arrivals_ns := arrivals_ns a + k; arrivals_ew := arrivals_ew a;
     a_emergency := a_emergency a |}.

(** The first loop of [step]: [arrivals[i]["arrivals_ns"] += downstream_inflows[i]]
    for every index of the network. *)
Definition apply_inflows (n : nat) (downstream_inflows : list Z) (arrivals : list Arrivals)
  : option (list Arrivals) :=
  fold_left
    (fun acc i =>
       arrivals <- acc ;;
       a <- nth_error arrivals i ;;
       k <- nth_error downstream_inflows i ;;
       Some (list_set i (add_arrivals_ns k a) arrivals))
    (seq 0 n) (Some arrivals).

(** What the second loop of [step] carries from one intersection to the next. *)
Record loop_state (F : Type) : Type := {
  ls_intersections : list Intersection.t;
  ls_logs : list (LogRecord F);
  ls_rewards : list (nat * F);
  ls_inflows : list Z
}.
Arguments ls_intersections {F} _.
Arguments ls_logs {F} _.
Arguments ls_rewards {F} _.
Arguments ls_inflows {F} _.

(** One iteration of the second loop, at index [i]. *)
Definition service {F} `{PyFloat F} (arrivals : list Arrivals) (decisions : list (Decision F))
    (acc : option (loop_state F)) (i : nat) : option (loop_state F) :=
  st <- acc ;;
  inter <- nth_error (ls_intersections st) i ;;
  a <- nth_error arrivals i ;;
  d <- nth_error decisions i ;;
  let '((log, reward), inter') := Intersection.step inter a d in
  let n := List.length (ls_intersections st) in
  inflows <-
    (if (i + 1 <? n)%nat then
       k <- nth_error (ls_inflows st) (i + 1) ;;
       Some (list_set (i + 1)
               (k + to_int (lit 6 10 * of_int (throughput log))%num)
               (ls_inflows st))
     else Some (ls_inflows st)) ;;
  Some {| ls_intersections := list_set i inter' (ls_intersections st);
          ls_logs := ls_logs st ++ [log];
          ls_rewards := ls_rewards st ++ [(i, reward)];
          ls_inflows := inflows |}.

(** [step]: the logs and the rewards (the dictionary [{i: reward}], in
    insertion order), then the network and the caller's arrival records
    after the call.  [None] is an [IndexError]. *)
Definition step {F} `{PyFloat F} (self : t) (arrivals : list Arrivals)
    (decisions : list (Decision F))
  : option ((list (LogRecord F) * list (nat * F)) * (t * list Arrivals)) :=
  let n := List.length (intersections self) in
  let downstream_inflows := map (fun _ => 0) (intersections self) in
  arrivals <- apply_inflows n downstream_inflows arrivals ;;
  st <- fold_left (service arrivals decisions) (seq 0 n)
          (Some {| ls_intersections := intersections self; ls_logs := [];
                   ls_rewards := []; ls_inflows := downstream_inflows |}) ;;
  Some ((ls_logs st, ls_rewards st),
        ({| intersections := ls_intersections st;
            controller_name := controller_name self |}, arrivals)).

End MultiIntersectionNetwork.

(** ** models/rl_controller.py *)

Module QLearningController.

(** A state key: the tuple [_state_key] builds. *)
Definition Key : Type := (string * string * string * string * string * string * bool)%type.

Definition key_eqb (a b : Key) : bool :=
  let '(a1, a2, a3, a4, a5, a6, a7) := a in
  let '(b1, b2, b3, b4, b5, b6, b7) := b in
  ((a1 =? b1)%string && (a2 =? b2)%string && (a3 =? b3)%string && (a4 =? b4)%string
   && (a5 =? b5)%string && (a6 =? b6)%string && Bool.eqb a7 b7)%bool.

(** The controller's attributes.  [last] is the pair [last_key],
    [last_action], absent until the first [decide]; [last_queues] is the
    dictionary with the keys ["ns"] and ["ew"].  The random generator is not
    part of the record: [decide] takes what it draws as arguments. *)
Record t (F : Type) : Type := {
  actions : list Z;
  alpha : F;
  gamma : F;
  epsilon : F;
  epsilon_min : F;
  epsilon_decay : F;
  step_count : Z;
  q : list (Key * list (Z * F));
  last_queues : Z * Z;
  last : option (Key * Z)
}.
Arguments actions {F} _.
Arguments alpha {F} _.
Arguments gamma {F} _.
Arguments epsilon {F} _.
Arguments epsilon_min {F} _.
Arguments epsilon_decay {F} _.
Arguments step_count {F} _.
Arguments q {F} _.
Arguments last_queues {F} _.
Arguments last {F} _.

(** [QLearningController(actions, alpha, gamma, epsilon, epsilon_min,
    epsilon_decay)]; an empty [actions] stands for the default [None]. *)
Definition init {F} (actions : list Z) (alpha gamma epsilon epsilon_min epsilon_decay : F)
  : t F :=
  {| actions := match actions with [] => [10; 12; 14] | _ => actions end;
     alpha := alpha; gamma := gamma; epsilon := epsilon;
     epsilon_min := epsilon_min; epsilon_decay := epsilon_decay;
     step_count := 0; q := []; last_queues := (0, 0); last := None |}.

(** [QLearningController()]. *)
Definition default {F} `{PyFloat F} : t F :=
  init [] (lit 8 100) (lit 9 10) (lit 3 100) (lit 1 100) (lit 998 1000).

Definition set_q {F} (v : list (Key * list (Z * F))) (self : t F) : t F :=
  {| actions := actions self; alpha := alpha self; gamma := gamma self;
     epsilon := epsilon self; epsilon_min := epsilon_min self;
     epsilon_decay := epsilon_decay self; step_count := step_count self;
     q := v; last_queues := last_queues self; last := last self |}.

Definition bucket (x : Z) : string :=
  if x <? 4 then "low" else if x <? 10 then "med" else "high".

Definition state_key {F} (self : t F) (state : State) : Key :=
  let q_ns := st_queue_ns state in
  let q_ew := st_queue_ew state in
  let delta_ns := q_ns - fst (last_queues self) in
  let delta_ew := q_ew - snd (last_queues self) in
  (bucket q_ns, bucket q_ew,
   if delta_ns >? 0 then "ns_growing" else "ns_stable",
   if delta_ew >? 0 then "ew_growing" else "ew_stable",
   st_phase state, st_time_of_day state, st_emergency state).

(** The optimistic table of a new key: [{a: 5.0 if a == 12 else 2.0 for a in actions}]. *)
Definition fresh_row {F} `{PyFloat F} (actions : list Z) : list (Z * F) :=
  fold_left (fun d a => dict_set Z.eqb a (if a =? 12 then of_int 5 else of_int 2) d)
            actions [].

Definition ensure_state {F} `{PyFloat F} (self : t F) (key : Key) : t F :=
  if dict_mem key_eqb key (q self) then self
  else set_q (dict_set key_eqb key (fresh_row (actions self)) (q self)) self.

Definition decay_epsilon {F} `{PyFloat F} (self : t F) : t F :=
  {| actions := actions self; alpha := alpha self; gamma := gamma self;
     epsilon := pymax (epsilon_min self) (epsilon self * epsilon_decay self)%num;
     epsilon_min := epsilon_min self;
     epsilon_decay := epsilon_decay self; step_count := step_count self;
     q := q self; last_queues := last_queues self; last := last self |}.

(** [max(d, key=d.get)]: the first key, in insertion order, whose value is
    not exceeded. *)
Fixpoint argmax_from {F} `{PyFloat F} (best : Z * F) (rest : list (Z * F)) : Z * F :=
  match rest with
  | [] => best
  | item :: r =>
      if (snd best <? snd item)%num then argmax_from item r else argmax_from best r
  end.

Definition argmax {F} `{PyFloat F} (row : list (Z * F)) : option Z :=
  match row with
  | [] => None
  | item :: r => Some (fst (argmax_from item r))
  end.

(** [max(values)] of a sequence of numbers; [None] is the [ValueError] on an
    empty sequence. *)
Definition max_list {F} `{PyFloat F} (values : list F) : option F :=
  match values with
  | [] => None
  | v :: r => Some (fold_left pymax r v)
  end.

(** [decide].  [u] is what [rng.random()] returns and [pick] the index
    [rng.choice] draws (read only when exploring). *)
Definition decide {F} `{PyFloat F} (self : t F) (state : State) (u : F) (pick : nat)
  : option (Decision F * t F) :=
  let key := state_key self state in
  let self := ensure_state self key in
  let explore := (u <? epsilon self)%num in
  row <- dict_get key_eqb key (q self) ;;
  action <- (if explore then nth_error (actions self) pick else argmax row) ;;
  let explain :=
    ("RL: " ++ (if explore then "exploring" else "exploiting") ++ " → "
     ++ str_of_int action ++ "s green")%string in
  let self :=
    {| actions := actions self; alpha := alpha self; gamma := gamma self;
       epsilon := epsilon self; epsilon_min := epsilon_min self;
       epsilon_decay := epsilon_decay self; step_count := step_count self + 1;
       q := q self;
       last_queues := (st_queue_ns state, st_queue_ew state);
       last := Some (key, action) |} in
  let self := if step_count self mod 10 =? 0 then decay_epsilon self else self in
  Some ({| duration := of_int action; target_phase := None;
           explanation := Some explain |}, self).

(** The value [learn] writes: [old_value + alpha * (reward + gamma * next_best - old_value)]. *)
Definition updated_value {F} `{PyFloat F} (alpha gamma old_value reward next_best : F) : F :=
  (old_value + alpha * (reward + gamma * next_best - old_value))%num.

(** [learn].  [None] is a [KeyError] or the [ValueError] of [max]. *)
Definition learn {F} `{PyFloat F} (self : t F) (state : State) (reward : F)
    (next_state : State) : option (t F) :=
  match last self with
  | None => Some self
  | Some (key, action) =>
      let next_key := state_key self next_state in
      let self := ensure_state self next_key in
      row <- dict_get key_eqb key (q self) ;;
      old_value <- dict_get Z.eqb action row ;;
      next_row <- dict_get key_eqb next_key (q self) ;;
      next_best <- max_list (dict_values next_row) ;;
      let updated := updated_value (alpha self) (gamma self) old_value reward next_best in
      Some (set_q (dict_set key_eqb key (dict_set Z.eqb action updated row) (q self)) self)
  end.

(** [self.q[key][action]]. *)
Definition q_value {F} (self : t F) (key : Key) (action : Z) : option F :=
  row <- dict_get key_eqb key (q self) ;;
  dict_get Z.eqb action row.

(** The target of the update for [next_state]: [reward + gamma * next_best],
    with [next_best] read after the next state's key has been initialised. *)
Definition target {F} `{PyFloat F} (self : t F) (reward : F) (next_state : State) : option F :=
  let next_key := state_key self next_state in
  next_row <- dict_get key_eqb next_key (q (ensure_state self next_key)) ;;
  next_best <- max_list (dict_values next_row) ;;
  Some (reward + gamma self * next_best)%num.

(** "The value moved strictly toward the target, or stayed when it was
    there": the relation between the old value, the new one and the target. *)
Definition moved_toward {F} `{PyFloat F} (old new tgt : F) : Prop :=
  if (old =? tgt)%num then (new =? old)%num = true
  else (fabs (new - tgt) <? fabs (old - tgt))%num = true.

(** The property of one [learn] call after a recorded decision. *)
Definition learn_moves_toward_target {F} `{PyFloat F} (self : t F) (state : State)
    (reward : F) (next_state : State) : Prop :=
  exists key action old tgt self' new,
    last self = Some (key, action)
    /\ q_value self key action = Some old
    /\ target self reward next_state = Some tgt
    /\ learn self state reward next_state = Some self'
    /\ q_value self' key action = Some new
    /\ moved_toward old new tgt.

End QLearningController.

(** ** models/neural_controller.py *)

(** The network uses [math.exp]; it is modelled in exact arithmetic only. *)
Module NeuralController.

Local Open Scope R_scope.

(** A remembered forward pass: [{"features": feats, "pred_norm": pred_norm}]. *)
Record Transition : Type := {
  features : list R;
  pred_norm : R
}.

(** The dataclass with the attributes [__post_init__] adds. *)
Record t : Type := {
  input_size : nat;
  hidden_size : nat;
  lr : R;
  memory : list Transition;
  w1 : list (list R);
  b1 : list R;
  w2 : list R;
  b2 : R
}.

(** [NeuralController(input_size, hidden_size, lr, memory)].  [draw k] is
    the [k]-th number [rng.uniform(-0.5, 0.5)] returns. *)
Definition init (input_size hidden_size : nat) (lr : R) (memory : list Transition)
    (draw : nat -> R) : t :=
  {| input_size := input_size; hidden_size := hidden_size; lr := lr; memory := memory;
     w1 := map (fun i => map (fun j => draw (i * input_size + j)%nat) (seq 0 input_size))
               (seq 0 hidden_size);
     b1 := map (fun _ => 0) (seq 0 hidden_size);
     w2 := map (fun i => draw (hidden_size * input_size + i)%nat) (seq 0 hidden_size);
     b2 := 0 |}.

(** [NeuralController()]. *)
Definition default (draw : nat -> R) : t := init 5 6 (1 / 100) [] draw.

(** [_sigmoid], with [math.exp] as the real exponential: it is defined
    everywhere and stays strictly inside (0, 1), where the interpreter
    raises [OverflowError] for an argument below about -709.78 and rounds
    the quotient to exactly 1.0 for an argument above about 37. *)
Definition sigmoid (x : R) : R := 1 / (1 + exp (- x)).

(** The builtin [sum] of a sequence of numbers. *)
Definition pysum (l : list R) : R := fold_left Rplus l 0.

(** [l[i]] for an index in range; [well_shaped] below keeps the indices of
    [_forward] and [learn] in range, and 0 stands for the [IndexError]. *)
Definition get (l : list R) (i : nat) : R := nth i l 0.

(** [self.w1[i][j]]. *)
Definition get2 (m : list (list R)) (i j : nat) : R := get (nth i m []) j.

(** The hidden activations of [_forward]. *)
Definition hidden (self : t) (features : list R) : list R :=
  map (fun i =>
         sigmoid (pysum (map (fun j => get2 (w1 self) i j * get features j)
                             (seq 0 (input_size self)))
                  + get (b1 self) i))
      (seq 0 (hidden_size self)).

Definition forward (self : t) (features : list R) : R * list R :=
  let h := hidden self features in
  let raw := pysum (map (fun i => get (w2 self) i * get h i) (seq 0 (hidden_size self)))
             + b2 self in
  (sigmoid raw, h).

Definition encode (state : State) : list R :=
  let ns := Rmin 1 (IZR (st_queue_ns state) / 30) in
  let ew := Rmin 1 (IZR (st_queue_ew state) / 30) in
  let phase := if (st_phase state =? "NS")%string then 1 else 0 in
  let tod :=
    if (st_time_of_day state =? "morning")%string then 1
    else if (st_time_of_day state =? "afternoon")%string then 5 / 10
    else if (st_time_of_day state =? "night")%string then 2 / 10
    else 5 / 10 in
  let emergency := if st_emergency state then 1 else 0 in
  [ns; ew; phase; tod; emergency].

Definition decide (self : t) (state : State) : Decision R * t :=
  let feats := encode state in
  let '(pred_norm, _) := forward self feats in
  let duration := 4 + 12 * pred_norm in
  let self :=
    {| input_size := input_size self; hidden_size := hidden_size self; lr := lr self;
       memory := memory self ++ [{| features := feats; pred_norm := pred_norm |}];
       w1 := w1 self; b1 := b1 self; w2 := w2 self; b2 := b2 self |} in
  let explanation :=
    ("Neural policy: queues NS/EW=(" ++ str_of_int (st_queue_ns state) ++ ","
     ++ str_of_int (st_queue_ew state) ++ "), time=" ++ st_time_of_day state
     ++ ", emergency=" ++ str_of_bool (st_emergency state))%string in
  ({| duration := duration; target_phase := None; explanation := Some explanation |}, self).

(** The weights the loop of [learn] rewrites. *)
Definition Weights : Type := (list (list R) * list R * list R)%type.

(** One iteration of the inner loop: [self.w1[i][j] -= self.lr * grad_h * feats[j]]. *)
Definition learn_input (lr grad_h : R) (feats : list R) (row : list R) (j : nat) : list R :=
  list_set j (get row j - lr * grad_h * get feats j) row.

(** One iteration of the outer loop of [learn], at the hidden unit [i]. *)
Definition learn_unit (lr grad_out : R) (h feats : list R) (input_size : nat)
    (w : Weights) (i : nat) : Weights :=
  let '(w1, b1, w2) := w in
  let w2 := list_set i (get w2 i - lr * grad_out * get h i) w2 in
  let grad_h := grad_out * get w2 i * get h i * (1 - get h i) in
  let row := fold_left (learn_input lr grad_h feats) (seq 0 input_size) (nth i w1 []) in
  let w1 := list_set i row w1 in
  let b1 := list_set i (get b1 i - lr * grad_h) b1 in
  (w1, b1, w2).

(** The output gradient of [learn] for a prediction and a reward. *)
Definition grad_out_of (pred_norm reward : R) : R :=
  let reward_scaled := Rmax (-1) (Rmin 1 (reward / 20)) in
  let target := Rmax 0 (Rmin 1 (pred_norm + 3 / 10 * reward_scaled)) in
  let error := pred_norm - target in
  error * pred_norm * (1 - pred_norm).

Definition learn (self : t) (state : State) (reward : R) (next_state : State) : t :=
  match rev (memory self) with
  | [] => self
  | last :: _ =>
      let feats := features last in
      let '(pred_norm, h) := forward self feats in
      let grad_out := grad_out_of pred_norm reward in
      let '(w1, b1, w2) :=
        fold_left (learn_unit (lr self) grad_out h feats (input_size self))
                  (seq 0 (hidden_size self)) (w1 self, b1 self, w2 self) in
      {| input_size := input_size self; hidden_size := hidden_size self; lr := lr self;
         memory := memory self;
         w1 := w1; b1 := b1; w2 := w2;
         b2 := b2 self - lr self * grad_out |}
  end.

(** The shapes [__post_init__] gives the weights, with the five features
    [_encode] produces. *)
Definition well_shaped (self : t) : Prop :=
  (input_size self <= 5)%nat
  /\ List.length (w1 self) = hidden_size self
  /\ Forall (fun row => List.length row = input_size self) (w1 self)
  /\ List.length (b1 self) = hidden_size self
  /\ List.length (w2 self) = hidden_size self.

(** A call of the controller's interface. *)
Inductive call : Type :=
| Decide (state : State)
| Learn (state : State) (reward : R) (next_state : State).

Definition run_call (self : t) (c : call) : t :=
  match c with
  | Decide state => snd (decide self state)
  | Learn state reward next_state => learn self state reward next_state
  end.

(** A sequence of [decide] and [learn] calls on one controller. *)
Definition run (self : t) (calls : list call) : t := fold_left run_call calls self.



(** "After one learn with a positive reward a later decide on the same
    state does not return a smaller duration than before, and the reverse
    for a negative reward": the relation between the two decisions. *)
Definition nudged_by_reward (self : t) (s s' ns : State) (reward : R) : Prop :=
  let before := duration (fst (decide self s)) in
  let learned := learn (snd (decide self s)) s' reward ns in
  let after := duration (fst (decide learned s)) in
  (0 < reward -> before <= after) /\ (reward < 0 -> after <= before).

(** The controller with another memory, and the weights of a controller. *)
Definition with_memory (m : list Transition) (self : t) : t :=
  {| input_size := input_size self; hidden_size := hidden_size self; lr := lr self;
     memory := m; w1 := w1 self; b1 := b1 self; w2 := w2 self; b2 := b2 self |}.


(** The weighted input of hidden unit [i], before the sigmoid. *)
Definition pre_act (self : t) (features : list R) (i : nat) : R :=
  pysum (map (fun j => get2 (w1 self) i j * get features j) (seq 0 (input_size self)))
  + get (b1 self) i.

(** The weighted input of the output unit, before the sigmoid. *)
Definition raw_out (self : t) (features : list R) : R :=
  pysum (map (fun i => get (w2 self) i * get (hidden self features) i)
             (seq 0 (hidden_size self)))
  + b2 self.

(** The hidden gradient [learn] computes at unit [i], from the weights
    before the call. *)
Definition grad_h_at (lr grad_out : R) (h w2 : list R) (i : nat) : R :=
  grad_out * (get w2 i - lr * grad_out * get h i) * get h i * (1 - get h i).

(** The squared norm of the features [learn] multiplies the hidden gradient by. *)
Definition sq_norm (isz : nat) (feats : list R) : R :=
  pysum (map (fun j => get feats j * get feats j) (seq 0 isz)).

End NeuralController.

(** ** Sample inputs *)

(** The emergency example of the specification: queues 10 and 3 after the
    arrivals, a decision that asks for EW and three seconds. *)
Definition emergency_arrivals : Arrivals :=
  {| a_step := 0; a_time_of_day := "morning"; arrivals_ns := 10; arrivals_ew := 3;
     a_emergency := true |}.

Definition short_ew_decision : Decision R :=
  {| duration := 3%R; target_phase := Some "EW"; explanation := Some "Fixed plan" |}.

(** An ordinary step under the fixed afternoon plan. *)
Definition calm_arrivals : Arrivals :=
  {| a_step := 0; a_time_of_day := "afternoon"; arrivals_ns := 3; arrivals_ew := 2;
     a_emergency := false |}.

Definition fixed_decision : Decision float :=
  {| duration := of_int 10; target_phase := None;
     explanation := Some "Fixed plan based on time-of-day profile." |}.

(** A decision with a negative duration, and one with a fractional one. *)
Definition negative_decision : Decision R :=
  {| duration := (-3)%R; target_phase := None; explanation := None |}.

Definition fractional_decision : Decision R :=
  {| duration := (9 / 2)%R; target_phase := None; explanation := None |}.

Definition two_ns_arrivals : Arrivals :=
  {| a_step := 0; a_time_of_day := "afternoon"; arrivals_ns := 2; arrivals_ew := 0;
     a_emergency := false |}.

Definition three_ns_arrivals : Arrivals :=
  {| a_step := 0; a_time_of_day := "afternoon"; arrivals_ns := 3; arrivals_ew := 0;
     a_emergency := false |}.

(** A two-intersection network under the fixed afternoon plan: five
    vehicles arrive at intersection 0, none at intersection 1. *)
Definition upstream_arrivals : Arrivals :=
  {| a_step := 0; a_time_of_day := "afternoon"; arrivals_ns := 5; arrivals_ew := 0;
     a_emergency := false |}.

Definition no_arrivals : Arrivals :=
  {| a_step := 0; a_time_of_day := "afternoon"; arrivals_ns := 0; arrivals_ew := 0;
     a_emergency := false |}.

(** The counts of a log record the comparison below reads. *)
Definition counts {F} (log : LogRecord F) : Z * Z * Z :=
  (served_ns log, throughput log, log_queue_ns log).

(** A quiet intersection, as [observe_state] reports it. *)
Definition quiet_state : State :=
  {| st_intersection := 0; st_queue_ns := 0; st_queue_ew := 0; st_phase := "NS";
     st_time_of_day := "afternoon"; st_emergency := false |}.

Definition quiet_key : QLearningController.Key :=
  ("low", "low", "ns_stable", "ew_stable", "NS", "afternoon", false).

(** The controller after its first decision, [rng.random()] having
    returned 0.5: it exploits and records the action 12. *)
Definition decided {F} `{PyFloat F} : QLearningController.t F :=
  match QLearningController.decide QLearningController.default quiet_state (lit 1 2) 0 with
  | Some (_, c) => c
  | None => QLearningController.default
  end.

(** The reward 0.5 + 2^-50, which the interpreter prints as 0.5000000000000009. *)
Definition tiny_reward {F} `{PyFloat F} : F :=
  (lit 1 2 + of_int 1 / of_int (2 ^ 50))%num.

(** The double nearest to 13/3, which the interpreter prints as
    4.333333333333333, as a duration in binary64 and the same number as a
    real; three times it is 13 - 2^-50 exactly and 13.0 after rounding. *)
Definition thirds_decision : Decision float :=
  {| duration := lit 13 3; target_phase := None; explanation := None |}.

Definition negative_thirds_decision : Decision float :=
  {| duration := lit (-13) 3; target_phase := None; explanation := None |}.

Definition exact_thirds : R := (IZR 4878899596318037 / IZR 1125899906842624)%R.

Definition exact_thirds_decision : Decision R :=
  {| duration := exact_thirds; target_phase := None; explanation := None |}.

Definition exact_negative_thirds_decision : Decision R :=
  {| duration := (- exact_thirds)%R; target_phase := None; explanation := None |}.

(** Half a second of green, in binary64. *)
Definition half_decision : Decision float :=
  {| duration := lit 1 2; target_phase := None; explanation := None |}.

Definition twenty_ns_arrivals : Arrivals :=
  {| a_step := 0; a_time_of_day := "afternoon"; arrivals_ns := 20; arrivals_ew := 0;
     a_emergency := false |}.

(** The numbers [random.Random(42).uniform(-0.5, 0.5)] returns, in the order
    [__post_init__] draws them: the thirty input weights row by row, then
    the six output weights.  Each is a double, written as the quotient it
    is. *)
Definition seed_42_draws : list R :=
  [(IZR 1255844955160773 / IZR 9007199254740992);
   (- IZR 4278322771568381 / IZR 9007199254740992);
   (- IZR 1013177877962121 / IZR 4503599627370496);
   (- IZR 2493096033066233 / IZR 9007199254740992);
   (IZR 1064971671992895 / IZR 4503599627370496);
   (IZR 795783745714381 / IZR 4503599627370496);
   (IZR 220777469372233 / IZR 562949953421312);
   (- IZR 3720524238902767 / IZR 9007199254740992);
   (- IZR 703265727542365 / IZR 9007199254740992);
   (- IZR 4235210134654555 / IZR 9007199254740992);
   (- IZR 316785477957675 / IZR 1125899906842624);
   (IZR 48236147013529 / IZR 9007199254740992);
   (- IZR 2132292430505085 / IZR 4503599627370496);
   (- IZR 1356314644145633 / IZR 4503599627370496);
   (IZR 675019498132497 / IZR 4503599627370496);
   (IZR 202398435298125 / IZR 4503599627370496);
   (- IZR 629511755202723 / IZR 2251799813685248);
   (IZR 402016900640515 / IZR 4503599627370496);
   (IZR 2787101778782685 / IZR 9007199254740992);
   (- IZR 1111266001010381 / IZR 2251799813685248);
   (IZR 2754574937193915 / IZR 9007199254740992);
   (IZR 446170252718197 / IZR 2251799813685248);
   (- IZR 719447714282201 / IZR 4503599627370496);
   (- IZR 3103164792538315 / IZR 9007199254740992);
   (IZR 4118209243238759 / IZR 9007199254740992);
   (- IZR 1471825491482161 / IZR 9007199254740992);
   (- IZR 3668219335996503 / IZR 9007199254740992);
   (- IZR 1816227975017435 / IZR 4503599627370496);
   (IZR 3129950997591533 / IZR 9007199254740992);
   (IZR 467140516212551 / IZR 4503599627370496);
   (IZR 2766365554146885 / IZR 9007199254740992);
   (IZR 2069239977898873 / IZR 9007199254740992);
   (IZR 326313638351469 / IZR 9007199254740992);
   (IZR 2130723978360601 / IZR 4503599627370496);
   (- IZR 1094065067085569 / IZR 9007199254740992);
   (IZR 468740335220461 / IZR 9007199254740992)]%R.

Definition seed_42_draw (k : nat) : R := nth k seed_42_draws 0%R.

(** [NeuralController(lr=-1.0)]. *)
Definition reversed_controller : NeuralController.t :=
  NeuralController.init 5 6 (-1) [] seed_42_draw.

(** ** Invariants of the controllers *)

(** What every controller reached from the constructor satisfies: there is
    an action, every table row has a value for every action, and the
    recorded decision, if any, has a value in the table. *)
Definition q_wf {F} (c : QLearningController.t F) : Prop :=
  QLearningController.actions c <> []
  /\ (forall k row, dict_get QLearningController.key_eqb k (QLearningController.q c) = Some row ->
        forall a, In a (QLearningController.actions c) -> dict_get Z.eqb a row <> None)
  /\ (forall k a, QLearningController.last c = Some (k, a) ->
        QLearningController.q_value c k a <> None).

(** ** Definitions for the further properties *)

(** The approach that does not have right of way: what the auto-flip of
    [Intersection.step] writes, ["EW" if self.phase == "NS" else "NS"]. *)
Definition other_phase (p : string) : string :=
  if (p =? "NS")%string then "EW" else "NS".

(** [self.plans.get(time_of_day, 10)] of the fixed-plan controller. *)
Definition plan_duration (time_of_day : string) : Z :=
  match dict_get String.eqb time_of_day FixedTimeController.plans with
  | Some d => d
  | None => 10
  end.

(** A call of the Q-learning controller's interface; a [decide] comes with
    what the controller's random generator returns during it. *)
Inductive qcall (F : Type) : Type :=
| QDecide (state : State) (u : F) (pick : nat)
| QLearn (state : State) (reward : F) (next_state : State).
Arguments QDecide {F} _ _ _.
Arguments QLearn {F} _ _ _.

Definition qrun_call {F} `{PyFloat F} (c : QLearningController.t F) (call : qcall F)
  : option (QLearningController.t F) :=
  match call with
  | QDecide state u pick => option_map snd (QLearningController.decide c state u pick)
  | QLearn state reward next_state => QLearningController.learn c state reward next_state
  end.

(** A sequence of calls on one controller; [None] when one of them raises. *)
Definition qrun {F} `{PyFloat F} (c : QLearningController.t F) (calls : list (qcall F))
  : option (QLearningController.t F) :=
  fold_left (fun acc call => c <- acc ;; qrun_call c call) calls (Some c).

Definition is_qlearn {F} (call : qcall F) : bool :=
  match call with QLearn _ _ _ => true | QDecide _ _ _ => false end.

(** The index an exploring [decide] draws is an index of the action list. *)
Definition pick_in_range {F} (n : nat) (call : qcall F) : Prop :=
  match call with QDecide _ _ pick => (pick < n)%nat | QLearn _ _ _ => True end.

(** The table mentions no action outside the action list, and neither
    does the recorded decision. *)
Definition q_closed {F} (c : QLearningController.t F) : Prop :=
  (forall k row a v, dict_get QLearningController.key_eqb k (QLearningController.q c) = Some row ->
      In (a, v) row -> In a (QLearningController.actions c))
  /\ (forall k a, QLearningController.last c = Some (k, a) ->
        In a (QLearningController.actions c)).

(** The optimistic initial value of an action. *)
Definition initial_value {F} `{PyFloat F} (a : Z) : F :=
  if a =? 12 then of_int 5 else of_int 2.

(** ** data/traffic_generator.py *)

Module TrafficGenerator.

(** [TIME_PROFILES]: the ranges [ns_rate] and [ew_rate] of each profile. *)
Definition TIME_PROFILES : list (string * ((Z * Z) * (Z * Z))) :=
  [("morning", ((3, 6), (2, 4)));
   ("afternoon", ((2, 4), (2, 4)));
   ("night", ((1, 2), (0, 1)))].

Definition time_periods : list string := ["morning"; "afternoon"; "night"].

(** [TIME_PROFILES.get(current_profile, TIME_PROFILES["afternoon"])]. *)
Definition profile_cfg (current_profile : string) : (Z * Z) * (Z * Z) :=
  match dict_get String.eqb current_profile TIME_PROFILES with
  | Some cfg => cfg
  | None => ((2, 4), (2, 4))
  end.

(** The profile of a step; [None] is the [ZeroDivisionError] of
    [step // period_length]. *)
Definition current_profile_at (varied_time : bool) (period_length : Z) (profile : string)
    (step : Z) : option string :=
  if varied_time then
    if period_length =? 0 then None
    else nth_error time_periods (Z.to_nat ((step / period_length) mod 3))
  else Some profile.

(** The random generator is a state [Rng] with the two methods the module
    calls: [randint rng a b] is [rng.randint(a, b)] and [random rng] is
    [rng.random()], each returning the generator's next state. *)
Section Stream.
Context {F : Type} `{PyFloat F} {Rng : Type}.
Variable randint : Rng -> Z -> Z -> Z * Rng.
Variable random : Rng -> F * Rng.

Definition draw_rate (rng : Rng) (rate_range : Z * Z) : Z * Rng :=
  randint rng (fst rate_range) (snd rate_range).

(** The loop [for _ in range(intersections)] of one step. *)
Fixpoint step_arrivals (n : nat) (step : Z) (current_profile : string)
    (cfg : (Z * Z) * (Z * Z)) (emergency_rate : F) (rng : Rng) : list Arrivals * Rng :=
  match n with
  | O => ([], rng)
  | S n' =>
      let '(ns, rng) := draw_rate rng (fst cfg) in
      let '(ew, rng) := draw_rate rng (snd cfg) in
      let '(u, rng) := random rng in
      let emergency := (u <? emergency_rate)%num in
      let '(rest, rng) := step_arrivals n' step current_profile cfg emergency_rate rng in
      ({| a_step := step; a_time_of_day := current_profile; arrivals_ns := ns;
          arrivals_ew := ew; a_emergency := emergency |} :: rest, rng)
  end.

(** The loop [for step in range(steps)], from [step] on, [n] steps left. *)
Fixpoint stream_from (n : nat) (step : Z) (intersections : Z) (profile : string)
    (emergency_rate : F) (varied_time : bool) (period_length : Z) (rng : Rng)
  : option (list (list Arrivals)) :=
  match n with
  | O => Some []
  | S n' =>
      current_profile <- current_profile_at varied_time period_length profile step ;;
      let '(row, rng) :=
        step_arrivals (Z.to_nat intersections) step current_profile
          (profile_cfg current_profile) emergency_rate rng in
      rest <- stream_from n' (step + 1) intersections profile emergency_rate varied_time
                period_length rng ;;
      Some (row :: rest)
  end.

(** [generate_stream], all the lists it yields; [rng] is [random.Random(seed)].
    The only exception of the body is raised before the first list is
    yielded, so [None] is what the consumer of the generator sees. *)
Definition generate_stream (steps intersections : Z) (profile : string)
    (emergency_rate : F) (varied_time : bool) (rng : Rng) : option (list (list Arrivals)) :=
  let period_length := if varied_time then steps / 3 else steps in
  stream_from (Z.to_nat steps) 0 intersections profile emergency_rate varied_time
    period_length rng.
End Stream.

(** A generator for examples: a counter, [randint] walking through the
    range and [random] returning one half. *)
Definition counter_randint (rng : nat) (a b : Z) : Z * nat :=
  (a + Z.of_nat rng mod (b - a + 1), S rng).

Definition counter_random {F : Type} `{PyFloat F} (rng : nat) : F * nat :=
  (lit 1 2, S rng).

End TrafficGenerator.

(** ** main.py: [run_once] with the fixed-plan controller *)

Module Main.

(** [enumerate(l)]. *)
Definition enumerate {A : Type} (l : list A) : list (nat * A) :=
  combine (seq 0 (List.length l)) l.

Section RunOnce.
Context {F : Type} `{PyFloat F} {Rng : Type}.
Variable randint : Rng -> Z -> Z -> Z * Rng.
Variable random : Rng -> F * Rng.

(** One pass of [for inter_id, arrivals in enumerate(step_arrivals)]: the
    decisions so far and the dictionary [last_states]. *)
Definition decide_loop (network : MultiIntersectionNetwork.t) (time_of_day : string)
    (acc : option (list (Decision F) * list (nat * State))) (item : nat * Arrivals)
  : option (list (Decision F) * list (nat * State)) :=
  '(decisions, last_states) <- acc ;;
  state <- MultiIntersectionNetwork.observe_state network (fst item) time_of_day
             (a_emergency (snd item)) ;;
  let decision := FixedTimeController.decide state in
  Some ((decisions ++ [decision])%list, dict_set Nat.eqb (fst item) state last_states).

(** One pass of [for inter_id, reward in rewards.items()]: the arguments of
    [controller.learn] are evaluated; [FixedTimeController.learn] itself
    returns [None] and keeps nothing. *)
Definition learn_loop (network : MultiIntersectionNetwork.t) (time_of_day : string)
    (step_arrivals : list Arrivals) (last_states : list (nat * State))
    (acc : option unit) (item : nat * F) : option unit :=
  _ <- acc ;;
  _ <- dict_get Nat.eqb (fst item) last_states ;;
  a <- nth_error step_arrivals (fst item) ;;
  _ <- MultiIntersectionNetwork.observe_state network (fst item) time_of_day (a_emergency a) ;;
  Some tt.

(** The body of [for step_arrivals in generator]: the log rows, the network
    and [last_states] after it.  [None] is an [IndexError] or a [KeyError]. *)
Definition run_step
    (acc : option (list (LogRecord F) * MultiIntersectionNetwork.t * list (nat * State)))
    (step_arrivals : list Arrivals)
  : option (list (LogRecord F) * MultiIntersectionNetwork.t * list (nat * State)) :=
  '(log_rows, network, last_states) <- acc ;;
  first <- nth_error step_arrivals 0 ;;
  let time_of_day := a_time_of_day first in
  '(decisions, last_states) <-
    fold_left (decide_loop network time_of_day) (enumerate step_arrivals)
      (Some ([], last_states)) ;;
  '(step_logs, rewards, (network, step_arrivals)) <-
    MultiIntersectionNetwork.step network step_arrivals decisions ;;
  _ <- fold_left (learn_loop network time_of_day step_arrivals last_states) rewards
         (Some tt) ;;
  Some ((log_rows ++ step_logs)%list, network, last_states).

(** [run_once(args, "fixed")] up to the rows handed to [pd.DataFrame]. *)
Definition run_once (steps intersections service_rate : Z) (profile : string)
    (emergency_rate : F) (varied_time : bool) (rng : Rng)
  : option (list (LogRecord F) * MultiIntersectionNetwork.t * list (nat * State)) :=
  stream <- TrafficGenerator.generate_stream randint random steps intersections profile
              emergency_rate varied_time rng ;;
  let network := MultiIntersectionNetwork.init (Z.to_nat intersections) "fixed" service_rate in
  fold_left run_step stream (Some ([], network, [])).
End RunOnce.

(** What the fixed-plan controller makes of a log row: the plan of the
    row's time of day, raised to 5 seconds under an emergency override. *)
Definition fixed_plan_row {F : Type} `{PyFloat F} (log : LogRecord F) : Prop :=
  log_duration log
  = (if log_emergency log
     then pymax (of_int 5) (of_int (plan_duration (log_time_of_day log)))
     else of_int (plan_duration (log_time_of_day log))).

End Main.

(** ** Vehicle counts *)

Definition zsum (l : list Z) : Z := fold_right Z.add 0 l.

(** The vehicles waiting in a network, the vehicles a list of log rows
    reports as served, and the vehicles a list of arrival records brings. *)
Definition vehicles_waiting (self : MultiIntersectionNetwork.t) : Z :=
  zsum (map (fun it => Intersection.queue_ns it + Intersection.queue_ew it)
            (MultiIntersectionNetwork.intersections self)).

Definition vehicles_served {F : Type} (logs : list (LogRecord F)) : Z :=
  zsum (map (fun log => throughput log) logs).

Definition vehicles_arrived (arrivals : list Arrivals) : Z :=
  zsum (map (fun a => arrivals_ns a + arrivals_ew a) arrivals).

(** * Properties *)

(** ** Exact arithmetic: comparisons and truncation *)

Lemma Rltb_true (x y : R) : Rltb x y = true <-> (x < y)%R.
Proof.
  unfold Rltb. destruct (Rlt_dec x y); split; intros; auto; try discriminate; contradiction.
Qed.

Lemma Rltb_false (x y : R) : Rltb x y = false <-> (y <= x)%R.
Proof.
  unfold Rltb. destruct (Rlt_dec x y); split; intros; auto; try discriminate; lra.
Qed.

Lemma Reqb_true (x y : R) : Reqb x y = true <-> x = y.
Proof.
  unfold Reqb. destruct (Req_dec_T x y); split; intros; auto; try discriminate; contradiction.
Qed.

Lemma Reqb_false (x y : R) : Reqb x y = false <-> x <> y.
Proof.
  unfold Reqb. destruct (Req_dec_T x y); split; intros; auto; try discriminate; contradiction.
Qed.

Lemma pymax_Rmax (a b : R) : pymax a b = Rmax a b.
Proof.
  unfold pymax; simpl. unfold Rltb, Rmax.
  destruct (Rlt_dec a b), (Rle_dec a b); try reflexivity; lra.
Qed.

(** [int()] of a non-negative number is its floor. *)
Lemma Rtrunc_nonneg (x : R) :
  (0 <= x)%R -> 0 <= Rtrunc x /\ (IZR (Rtrunc x) <= x < IZR (Rtrunc x) + 1)%R.
Proof.
  intros Hx. unfold Rtrunc. destruct (Rle_dec 0 x) as [_|]; [|contradiction].
  destruct (base_Int_part x) as [Hlo Hhi]. split; [|lra].
  apply Z.lt_succ_r. apply lt_IZR. rewrite succ_IZR. lra.
Qed.

(** [int()] of a non-positive number is its ceiling. *)
Lemma Rtrunc_nonpos (x : R) :
  (x <= 0)%R -> Rtrunc x <= 0 /\ (IZR (Rtrunc x) - 1 < x <= IZR (Rtrunc x))%R.
Proof.
  intros Hx. unfold Rtrunc. destruct (Rle_dec 0 x) as [H0|H0].
  - assert (x = 0%R) by lra. subst x.
    assert (Int_part 0 = 0) as ->.
    { symmetry. apply Int_part_spec. simpl. lra. }
    simpl. split; [lia | lra].
  - destruct (base_Int_part (- x)) as [Hlo Hhi].
    rewrite opp_IZR. split; [|lra].
    assert (0 <= Int_part (- x)); [|lia].
    apply Z.lt_succ_r. apply lt_IZR. rewrite succ_IZR. simpl. lra.
Qed.

(** The integer [z] with [z - 1 < x <= z] is [int(x)] when [x <= 0]. *)
Lemma Rtrunc_nonpos_unique (x : R) (z : Z) :
  (x <= 0)%R -> (IZR z - 1 < x <= IZR z)%R -> Rtrunc x = z.
Proof.
  intros Hx Hz. destruct (Rtrunc_nonpos x Hx) as [_ Ht].
  assert (Rtrunc x < z + 1) by (apply lt_IZR; rewrite plus_IZR; simpl; lra).
  assert (z < Rtrunc x + 1) by (apply lt_IZR; rewrite plus_IZR; simpl; lra).
  lia.
Qed.

(** The integer [z] with [z <= x < z + 1] is [int(x)] when [0 <= x]. *)
Lemma Rtrunc_nonneg_unique (x : R) (z : Z) :
  (0 <= x)%R -> (IZR z <= x < IZR z + 1)%R -> Rtrunc x = z.
Proof.
  intros Hx Hz. destruct (Rtrunc_nonneg x Hx) as [_ Ht].
  assert (Rtrunc x < z + 1) by (apply lt_IZR; rewrite plus_IZR; simpl; lra).
  assert (z < Rtrunc x + 1) by (apply lt_IZR; rewrite plus_IZR; simpl; lra).
  lia.
Qed.

(** [int()] of an integer-valued number is that integer. *)
Lemma Rtrunc_IZR (z : Z) : Rtrunc (IZR z) = z.
Proof.
  destruct (Z_le_gt_dec 0 z) as [H|H].
  - apply Rtrunc_nonneg_unique; [apply IZR_le; exact H | lra].
  - apply Rtrunc_nonpos_unique; [apply IZR_le; lia | lra].
Qed.

(** A number at most -1 truncates to an integer at most -1. *)
Lemma Rtrunc_le_m1 (x : R) : (x <= -1)%R -> Rtrunc x <= -1.
Proof.
  intros Hx. destruct (Rtrunc_nonpos x ltac:(lra)) as [_ [Hlo _]].
  assert (Rtrunc x < 0); [|lia].
  apply lt_IZR. simpl. lra.
Qed.

(** ** Lists updated by index *)

Lemma list_set_length {A : Type} (i : nat) (v : A) (l : list A) :
  List.length (list_set i v l) = List.length l.
Proof.
  revert i. induction l as [|x l IH]; intros [|i]; simpl; try reflexivity.
  now rewrite IH.
Qed.

Lemma list_set_nth_same {A : Type} (i : nat) (v d : A) (l : list A) :
  (i < List.length l)%nat -> nth i (list_set i v l) d = v.
Proof.
  revert i. induction l as [|x l IH]; intros [|i] Hi; simpl in *; try lia; try reflexivity.
  apply IH. lia.
Qed.

Lemma list_set_nth_other {A : Type} (i j : nat) (v d : A) (l : list A) :
  i <> j -> nth j (list_set i v l) d = nth j l d.
Proof.
  revert i j. induction l as [|x l IH]; intros [|i] [|j] Hne; simpl; try reflexivity; try lia.
  apply IH. lia.
Qed.


Lemma nth_map_seq {A : Type} (f : nat -> A) (n i : nat) (d : A) :
  (i < n)%nat -> nth i (map f (seq 0 n)) d = f i.
Proof.
  intros Hi. rewrite (nth_indep _ d (f 0%nat)) by (rewrite length_map, length_seq; exact Hi).
  rewrite map_nth. rewrite seq_nth by exact Hi. reflexivity.
Qed.

Lemma list_set_nth_error_same {A : Type} (i : nat) (v : A) (l : list A) :
  (i < List.length l)%nat -> nth_error (list_set i v l) i = Some v.
Proof.
  revert i. induction l as [|x l IH]; intros [|i] Hi; simpl in *; try lia; try reflexivity.
  apply IH. lia.
Qed.

Lemma list_set_nth_error_other {A : Type} (i j : nat) (v : A) (l : list A) :
  i <> j -> nth_error (list_set i v l) j = nth_error l j.
Proof.
  revert i j. induction l as [|x l IH]; intros [|i] [|j] Hne; simpl; try reflexivity; try lia.
  apply IH. lia.
Qed.

Lemma list_set_nth_error_id {A : Type} (i : nat) (v : A) (l : list A) :
  nth_error l i = Some v -> list_set i v l = l.
Proof.
  revert i. induction l as [|x l IH]; intros [|i] Hi; simpl in *; try discriminate.
  - injection Hi as ->. reflexivity.
  - rewrite (IH i Hi). reflexivity.
Qed.

(** ** Intersection.step *)

Lemma contains_suffix (pre s : string) : contains (pre ++ s)%string s.
Proof.
  exists pre, ""%string. f_equal.
  induction s as [|c s IH]; simpl; [reflexivity | now rewrite <- IH].
Qed.

Lemma contains_append (pre t s : string) : contains t s -> contains (pre ++ t)%string s.
Proof.
  intros (p & q & ->). exists (pre ++ p)%string, q.
  induction pre as [|c pre IH]; simpl; [reflexivity | now rewrite IH].
Qed.

(** Case analysis along the branches of [step]: emergency or not, target
    phase or not, which queue is longer, which phase is used. *)
Ltac step_cases a d :=
  unfold Intersection.step, Intersection.apply_emergency;
  destruct (a_emergency a); simpl;
  destruct (target_phase d); simpl;
  repeat match goal with
         | |- context [if (?c >=? ?e) then _ else _] =>
             destruct (c >=? e) eqn:?; simpl
         | |- context [if (?c =? "NS")%string then _ else _] =>
             destruct (c =? "NS")%string eqn:?; simpl
         end.

(** The steps of [step] up to the service: queues after the arrivals, the
    phase used and the duration used. *)
Lemma step_phase_used {F} `{PyFloat F} (self : Intersection.t) (a : Arrivals)
    (d : Decision F) :
  phase_used (fst (fst (Intersection.step self a d))) =
  if a_emergency a then
    if Intersection.queue_ns self + arrivals_ns a >=? Intersection.queue_ew self + arrivals_ew a
    then "NS" else "EW"
  else match target_phase d with
       | Some p => p
       | None => Intersection.phase self
       end.
Proof.
  step_cases a d; reflexivity.
Qed.

Lemma step_log_duration {F} `{PyFloat F} (self : Intersection.t) (a : Arrivals)
    (d : Decision F) :
  log_duration (fst (fst (Intersection.step self a d))) =
  if a_emergency a then pymax (of_int 5) (duration d) else duration d.
Proof.
  step_cases a d; reflexivity.
Qed.

(** The service: what is served and what is left, in terms of the phase
    used, the duration used and the queues after the arrivals. *)
Lemma step_service {F} `{PyFloat F} (self : Intersection.t) (a : Arrivals)
    (d : Decision F) :
  let log := fst (fst (Intersection.step self a d)) in
  let self' := snd (Intersection.step self a d) in
  let k := to_int (of_int (Intersection.service_rate self) * log_duration log)%num in
  let qns := Intersection.queue_ns self + arrivals_ns a in
  let qew := Intersection.queue_ew self + arrivals_ew a in
  Intersection.service_rate self' = Intersection.service_rate self
  /\ log_queue_ns log = Intersection.queue_ns self'
  /\ log_queue_ew log = Intersection.queue_ew self'
  /\ throughput log = served_ns log + served_ew log
  /\ if (phase_used log =? "NS")%string
     then served_ns log = Z.min qns k /\ served_ew log = 0
          /\ Intersection.queue_ns self' = qns - Z.min qns k
          /\ Intersection.queue_ew self' = qew
          /\ stops log = qew
     else served_ew log = Z.min qew k /\ served_ns log = 0
          /\ Intersection.queue_ew self' = qew - Z.min qew k
          /\ Intersection.queue_ns self' = qns
          /\ stops log = qns.
Proof.
  step_cases a d; repeat split; try reflexivity; try congruence.
Qed.

(** The phase the object keeps for the next step. *)
Lemma step_next_phase {F} `{PyFloat F} (self : Intersection.t) (a : Arrivals)
    (d : Decision F) :
  Intersection.phase (snd (Intersection.step self a d)) =
  match target_phase d with
  | Some _ => phase_used (fst (fst (Intersection.step self a d)))
  | None =>
      if a_emergency a then phase_used (fst (fst (Intersection.step self a d)))
      else if (Intersection.phase self =? "NS")%string then "EW" else "NS"
  end.
Proof.
  step_cases a d; try reflexivity; try congruence.
Qed.

Lemma step_explanation {F} `{PyFloat F} (self : Intersection.t) (a : Arrivals)
    (d : Decision F) :
  log_explanation (fst (fst (Intersection.step self a d))) =
  let e := match explanation d with Some e => e | None => ""%string end in
  if a_emergency a then (e ++ " | " ++ Intersection.override_note)%string else e.
Proof.
  step_cases a d; reflexivity.
Qed.

(** C4.  With the emergency flag set, the phase used is the approach with the
    longer queue after the arrivals (a tie gives NS) whatever target phase the
    decision carries, the duration used is [max(5, duration)], and the
    explanation is the decision's text followed by the override note. *)
Theorem step_emergency_override (self : Intersection.t) (a : Arrivals) (d : Decision R) :
  a_emergency a = true ->
  let log := fst (fst (Intersection.step self a d)) in
  let qns := Intersection.queue_ns self + arrivals_ns a in
  let qew := Intersection.queue_ew self + arrivals_ew a in
  (qew <= qns -> phase_used log = "NS")
  /\ (qns < qew -> phase_used log = "EW")
  /\ log_duration log = Rmax 5 (duration d)
  /\ log_explanation log =
       ((match explanation d with Some e => e | None => "" end)
        ++ " | " ++ Intersection.override_note)%string
  /\ contains (log_explanation log) Intersection.override_note.
Proof.
  intros Hem log qns qew. subst log qns qew.
  rewrite step_phase_used, step_log_duration, step_explanation, Hem.
  cbv zeta. repeat split.
  - intros Hle. destruct (_ >=? _) eqn:E; [reflexivity|].
    rewrite Z.geb_leb in E. apply Z.leb_gt in E. lia.
  - intros Hlt. destruct (_ >=? _) eqn:E; [|reflexivity].
    apply Z.geb_le in E. lia.
  - rewrite pymax_Rmax. reflexivity.
  - apply contains_append, contains_suffix.
Qed.

Lemma step_emergency_override_witness :
  phase_used (fst (fst (Intersection.step (Intersection.init 0 1) emergency_arrivals
                                          short_ew_decision))) = "NS"
  /\ log_duration (fst (fst (Intersection.step (Intersection.init 0 1) emergency_arrivals
                                               short_ew_decision))) = Rmax 5 3.
Proof.
  pose proof (step_emergency_override (Intersection.init 0 1) emergency_arrivals
                short_ew_decision eq_refl) as Hw.
  cbv zeta in Hw. destruct Hw as (Hns & _ & Hd & _).
  split; [apply Hns; simpl; lia | exact Hd].
Defined.

(** C5.  From a state with non-negative queues and a phase in {NS, EW}, a
    step with non-negative arrivals and a target phase (when the decision
    has one) in {NS, EW} ends in such a state again, and the queues it logs
    are those of that state.  No assumption on the duration is needed. *)
Theorem step_preserves_invariant {F} `{PyFloat F}
    (self : Intersection.t) (a : Arrivals) (d : Decision F) :
  Intersection.inv self ->
  0 <= arrivals_ns a -> 0 <= arrivals_ew a ->
  (forall p, target_phase d = Some p -> Intersection.valid_phase p) ->
  let log := fst (fst (Intersection.step self a d)) in
  let self' := snd (Intersection.step self a d) in
  Intersection.inv self'
  /\ 0 <= log_queue_ns log /\ 0 <= log_queue_ew log
  /\ Intersection.valid_phase (phase_used log).
Proof.
  intros (Hns & Hew & Hph) Hans Haew Htp log self'.
  assert (Hused : Intersection.valid_phase (phase_used log)).
  { subst log. rewrite step_phase_used.
    destruct (a_emergency a).
    - destruct (_ >=? _); [left | right]; reflexivity.
    - destruct (target_phase d) as [p|]; [apply Htp; reflexivity | exact Hph]. }
  assert (Hnext : Intersection.valid_phase (Intersection.phase self')).
  { subst self'. rewrite step_next_phase. fold log.
    destruct (target_phase d) as [p|]; [exact Hused|].
    destruct (a_emergency a); [exact Hused|].
    destruct (_ =? _)%string; [right | left]; reflexivity. }
  destruct (step_service self a d) as (_ & Hlns & Hlew & _ & Hsrv).
  fold log in Hlns, Hlew, Hsrv. fold self' in Hlns, Hlew, Hsrv.
  assert (Hq : 0 <= Intersection.queue_ns self' /\ 0 <= Intersection.queue_ew self').
  { destruct (phase_used log =? "NS")%string;
      destruct Hsrv as (_ & _ & H1 & H2 & _); rewrite H1, H2; lia. }
  destruct Hq as [Hq1 Hq2].
  unfold Intersection.inv. rewrite Hlns, Hlew. repeat split; assumption.
Qed.

Lemma step_preserves_invariant_witness :
  Intersection.inv (snd (Intersection.step (Intersection.init 0 1) calm_arrivals
                                           fixed_decision)).
Proof.
  refine (proj1 (step_preserves_invariant (Intersection.init 0 1) calm_arrivals
                   fixed_decision _ _ _ _)).
  - repeat split; simpl; try lia. left; reflexivity.
  - simpl; lia.
  - simpl; lia.
  - intros p Hp. discriminate Hp.
Defined.

(** The invariant holds at construction and along every run of steps. *)
Lemma init_invariant (id rate : Z) : Intersection.inv (Intersection.init id rate).
Proof. repeat split; simpl; try lia. left; reflexivity. Qed.

(** C2, as the specification states it, fails: with duration -3 and service
    rate 1 the approach with right of way is "served" -3 vehicles and its
    queue grows from 2 to 5. *)
Lemma negative_duration_served_counterexample :
  (duration negative_decision < 0)%R
  /\ a_emergency two_ns_arrivals = false
  /\ served_ns (fst (fst (Intersection.step (Intersection.init 0 1) two_ns_arrivals
                                            negative_decision))) = -3
  /\ Intersection.queue_ns (snd (Intersection.step (Intersection.init 0 1) two_ns_arrivals
                                                   negative_decision)) = 5
  /\ ~ Intersection.serves_nothing (Intersection.init 0 1) two_ns_arrivals negative_decision.
Proof.
  pose proof (step_service (Intersection.init 0 1) two_ns_arrivals negative_decision) as Hsrv.
  pose proof (step_phase_used (Intersection.init 0 1) two_ns_arrivals negative_decision) as Hp.
  pose proof (step_log_duration (Intersection.init 0 1) two_ns_arrivals negative_decision) as Hd.
  unfold Intersection.serves_nothing. cbv zeta in Hsrv |- *.
  remember (Intersection.step (Intersection.init 0 1) two_ns_arrivals negative_decision) as r.
  simpl in Hp, Hd. rewrite Hp, Hd in Hsrv. simpl in Hsrv.
  replace (1 * -3)%R with (IZR (-3)) in Hsrv by (simpl; lra).
  rewrite Rtrunc_IZR in Hsrv. destruct Hsrv as (_ & _ & _ & _ & Hs & _ & Hq & _).
  simpl in Hs, Hq.
  repeat split.
  - simpl; lra.
  - exact Hs.
  - exact Hq.
  - intros (H0 & _). rewrite Hs in H0. discriminate H0.
Qed.

(** C2, amended.  Without an emergency override the count served on the
    approach with right of way is [min(queue, int(service_rate * duration))]
    in whatever arithmetic the product is computed, [int] truncating toward
    zero: nothing clamps it at 0.  The other approach is served nothing and
    keeps its queue.  When the truncated product is negative and the queues
    after the arrivals are not, the throughput is that negative number and
    the queues end longer by it.  In exact arithmetic a negative duration
    gives a truncated product of at most 0 for a non-negative service rate,
    and of at most -1 for a service rate of at least 1 and a duration of at
    most -1. *)
Theorem step_negative_duration (self : Intersection.t) (a : Arrivals) :
  a_emergency a = false ->
  (forall (F : Type) (HF : PyFloat F) (d : Decision F),
     let log := fst (fst (Intersection.step self a d)) in
     let self' := snd (Intersection.step self a d) in
     let k := to_int (of_int (Intersection.service_rate self) * duration d)%num in
     let qns := Intersection.queue_ns self + arrivals_ns a in
     let qew := Intersection.queue_ew self + arrivals_ew a in
     (if (phase_used log =? "NS")%string
      then served_ns log = Z.min qns k /\ served_ew log = 0
           /\ Intersection.queue_ns self' = qns - Z.min qns k
           /\ Intersection.queue_ew self' = qew
      else served_ew log = Z.min qew k /\ served_ns log = 0
           /\ Intersection.queue_ew self' = qew - Z.min qew k
           /\ Intersection.queue_ns self' = qns)
     /\ (k < 0 -> 0 <= qns -> 0 <= qew ->
         throughput log = k
         /\ Intersection.queue_ns self' + Intersection.queue_ew self' = qns + qew - k))
  /\ (forall d : Decision R,
        (duration d < 0)%R ->
        let k := to_int (of_int (Intersection.service_rate self) * duration d)%num in
        (0 <= Intersection.service_rate self -> k <= 0)
        /\ (1 <= Intersection.service_rate self -> (duration d <= -1)%R -> k <= -1)).
Proof.
  intros Hem. split.
  - intros F HF d log self' k qns qew.
    destruct (step_service self a d) as (_ & _ & _ & Hthr & Hsrv).
    fold log in Hthr, Hsrv. fold self' in Hsrv.
    assert (Hdur : log_duration log = duration d).
    { subst log. rewrite step_log_duration, Hem. reflexivity. }
    rewrite Hdur in Hsrv. cbv zeta in Hsrv. fold k qns qew in Hsrv.
    split.
    + destruct (phase_used log =? "NS")%string;
        destruct Hsrv as (H1 & H2 & H3 & H4 & _); repeat split; assumption.
    + intros Hk Hqns Hqew. rewrite Hthr.
      destruct (phase_used log =? "NS")%string;
        destruct Hsrv as (H1 & H2 & H3 & H4 & _); rewrite H1, H2, H3, H4; lia.
  - intros d Hneg k. subst k. simpl. split.
    + intros Hrate. apply Rtrunc_nonpos.
      apply IZR_le in Hrate. simpl in Hrate. nra.
    + intros Hrate Hd. apply Rtrunc_le_m1.
      apply IZR_le in Hrate. simpl in Hrate. nra.
Qed.

Lemma step_negative_duration_witness :
  throughput (fst (fst (Intersection.step (Intersection.init 0 1) two_ns_arrivals
                                          negative_decision)))
  = Rtrunc (IZR 1 * -3)
  /\ throughput (fst (fst (Intersection.step (Intersection.init 0 3) two_ns_arrivals
                                             negative_thirds_decision)))
     = -13.
Proof.
  split.
  - destruct (step_negative_duration (Intersection.init 0 1) two_ns_arrivals eq_refl)
      as [Hany Hexact].
    destruct (Hany R _ negative_decision) as [_ Hk]. cbv zeta in Hk.
    destruct (Hexact negative_decision ltac:(simpl; lra)) as [_ Hm1]. cbv zeta in Hm1.
    apply Hk; [|simpl; lia|simpl; lia].
    specialize (Hm1 ltac:(simpl; lia) ltac:(simpl; lra)). simpl in Hm1 |- *. lia.
  - destruct (step_negative_duration (Intersection.init 0 3) two_ns_arrivals eq_refl)
      as [Hany _].
    destruct (Hany float _ negative_thirds_decision) as [_ Hk]. cbv zeta in Hk.
    apply Hk; vm_compute; congruence.
Defined.




(** *** The step evaluated in binary64 *)

(** Three morning steps under the fixed plan: the duration is 12 in every
    row and the phase alternates NS, EW, NS. *)
Example fixed_plan_three_steps :
  let morning k ns ew :=
    {| a_step := k; a_time_of_day := "morning"; arrivals_ns := ns; arrivals_ew := ew;
       a_emergency := false |} in
  map (fun log => (phase_used log, to_int (log_duration log), served_ns log, served_ew log))
      (fst (fold_left (FixedTimeController.drive (F := float))
                      [morning 0 4 3; morning 1 5 2; morning 2 3 4]
                      ([], Intersection.init 0 1)))
  = [("NS", 12, 4, 0); ("EW", 12, 0, 5); ("NS", 12, 8, 0)].
Proof. vm_compute. reflexivity. Qed.

(** The emergency example of the specification: queues 10 and 3. *)
Example emergency_override_b64 :
  let log := fst (fst (Intersection.step (F := float) (Intersection.init 0 1)
                         emergency_arrivals
                         {| duration := of_int 3; target_phase := Some "EW";
                            explanation := Some "Fixed plan" |})) in
  (phase_used log, to_int (log_duration log), served_ns log, log_explanation log)
  = ("NS", 5, 5,
     "Fixed plan | Emergency override: granted immediate green to priority approach.").
Proof. vm_compute. reflexivity. Qed.

(** The two counterexamples above, in the interpreter's arithmetic. *)
Example negative_duration_b64 :
  let r := Intersection.step (F := float) (Intersection.init 0 1) two_ns_arrivals
             {| duration := of_int (-3); target_phase := None; explanation := None |} in
  (served_ns (fst (fst r)), Intersection.queue_ns (snd r)) = (-3, 5).
Proof. vm_compute. reflexivity. Qed.

Example negative_rate_b64 :
  let r := Intersection.step (F := float) (Intersection.init 0 (-1)) three_ns_arrivals
             {| duration := lit 9 2; target_phase := None; explanation := None |} in
  (throughput (fst (fst r)), Intersection.queue_ns (snd r)) = (-4, 7).
Proof. vm_compute. reflexivity. Qed.

(** *** The product is rounded before [int()] *)

Lemma exact_thirds_step (rate : Z) (a : Arrivals) (d : Decision R) :
  a_emergency a = false -> target_phase d = None ->
  let log := fst (fst (Intersection.step (Intersection.init 0 rate) a d)) in
  served_ns log = Z.min (arrivals_ns a) (Rtrunc (IZR rate * duration d))
  /\ throughput log = Z.min (arrivals_ns a) (Rtrunc (IZR rate * duration d)).
Proof.
  intros Hem Htp log.
  destruct (step_service (Intersection.init 0 rate) a d) as (_ & _ & _ & Hthr & Hsrv).
  fold log in Hthr, Hsrv. cbv zeta in Hsrv.
  assert (Hp : phase_used log = "NS"%string).
  { subst log. rewrite step_phase_used, Hem, Htp. reflexivity. }
  assert (Hd : log_duration log = duration d).
  { subst log. rewrite step_log_duration, Hem. reflexivity. }
  rewrite Hp, Hd in Hsrv. simpl in Hsrv. destruct Hsrv as (H1 & H2 & _).
  rewrite Hthr, H1, H2. split; [reflexivity | lia].
Qed.

(** With service rate 3 and the duration 4.333333333333333 the interpreter
    rounds the product to 13.0 and serves 13 vehicles; the exact product of
    the same two numbers is below 13 and its integer part is 12.  With the
    opposite duration the counts are -13 and -12. *)
Example product_rounding_b64 :
  Prim2SF (duration thirds_decision) = S754_finite false 4878899596318037 (-50)
  /\ throughput (fst (fst (Intersection.step (Intersection.init 0 3) twenty_ns_arrivals
                                             thirds_decision))) = 13
  /\ throughput (fst (fst (Intersection.step (Intersection.init 0 3) twenty_ns_arrivals
                                             exact_thirds_decision))) = 12
  /\ (IZR 3 * duration exact_thirds_decision < 13)%R.
Proof.
  split; [vm_compute; reflexivity|]. split; [vm_compute; reflexivity|].
  assert (Hk : Rtrunc (IZR 3 * exact_thirds) = 12).
  { apply Rtrunc_nonneg_unique; unfold exact_thirds; lra. }
  split.
  - destruct (exact_thirds_step 3 twenty_ns_arrivals exact_thirds_decision eq_refl eq_refl)
      as [_ Hthr].
    cbv zeta in Hthr. rewrite Hthr. simpl duration. rewrite Hk. reflexivity.
  - simpl. unfold exact_thirds. lra.
Qed.

Example negative_product_rounding_b64 :
  Prim2SF (duration negative_thirds_decision) = S754_finite true 4878899596318037 (-50)
  /\ served_ns (fst (fst (Intersection.step (Intersection.init 0 3) two_ns_arrivals
                                            negative_thirds_decision))) = -13
  /\ served_ns (fst (fst (Intersection.step (Intersection.init 0 3) two_ns_arrivals
                                            exact_negative_thirds_decision))) = -12.
Proof.
  split; [vm_compute; reflexivity|]. split; [vm_compute; reflexivity|].
  assert (Hk : Rtrunc (IZR 3 * - exact_thirds) = -12).
  { apply Rtrunc_nonpos_unique; unfold exact_thirds; simpl; lra. }
  destruct (exact_thirds_step 3 two_ns_arrivals exact_negative_thirds_decision eq_refl
              eq_refl) as [Hs _].
  cbv zeta in Hs. rewrite Hs. simpl duration. rewrite Hk. reflexivity.
Qed.

(** ** MultiIntersectionNetwork.step *)

(** C1 does not hold of the code.  Intersection 0 serves five vehicles, and
    [int(0.6 * 5)] is 3; had intersection 1 received these three vehicles
    before its own step it would have served them, but the step it takes is
    the one on its raw arrivals: it serves nothing.  The inflow is added to
    [downstream_inflows] after the only loop that reads it. *)
Theorem network_step_inflow_not_applied :
  let net := MultiIntersectionNetwork.init 2 "fixed" 1 in
  let arrivals := [upstream_arrivals; no_arrivals] in
  let decisions := [fixed_decision; fixed_decision] in
  option_map (fun r => map counts (fst (fst r)))
             (MultiIntersectionNetwork.step net arrivals decisions)
    = Some [(5, 5, 0); (0, 0, 0)]
  /\ option_map (fun r => snd (snd r))
                (MultiIntersectionNetwork.step net arrivals decisions)
    = Some arrivals
  /\ to_int (F := float) (lit 6 10 * of_int 5)%num = 3
  /\ counts (fst (fst (Intersection.step (Intersection.init 1 1)
                         (MultiIntersectionNetwork.add_arrivals_ns 3 no_arrivals)
                         fixed_decision)))
     = (3, 3, 0).
Proof. repeat split; vm_compute; reflexivity. Qed.

(** The first loop of [step] adds zeros: it returns the arrivals it was given. *)
Lemma apply_inflows_zero {A : Type} (zeros : list A) (n : nat) (arrivals arrivals' : list Arrivals) :
  MultiIntersectionNetwork.apply_inflows n (map (fun _ => 0) zeros) arrivals = Some arrivals' ->
  arrivals' = arrivals.
Proof.
  unfold MultiIntersectionNetwork.apply_inflows. revert arrivals'.
  induction n as [|n IH]; intros arrivals' Hres.
  - simpl in Hres. injection Hres as <-. reflexivity.
  - rewrite seq_S, fold_left_app in Hres. simpl in Hres.
    destruct (fold_left _ (seq 0 n) (Some arrivals)) as [arr|] eqn:Efold; [|discriminate Hres].
    specialize (IH arr eq_refl). subst arr. unfold bind in Hres.
    destruct (nth_error arrivals n) as [a|] eqn:Ea; [|discriminate Hres].
    destruct (nth_error (map (fun _ => 0) zeros) n) as [k|] eqn:Ek; [|discriminate Hres].
    injection Hres as <-.
    apply nth_error_In, in_map_iff in Ek. destruct Ek as (_ & <- & _).
    apply list_set_nth_error_id. rewrite Ea. f_equal.
    destruct a. unfold MultiIntersectionNetwork.add_arrivals_ns. simpl. f_equal. lia.
Qed.

(** The second loop of [step], after its first [k] iterations: each
    intersection below [k] has taken its own step on the arrival record and
    the decision of its index, the others are untouched. *)
Lemma service_loop_spec {F} `{PyFloat F} (inters : list Intersection.t)
    (arrivals : list Arrivals) (decisions : list (Decision F)) (inflows : list Z) (k : nat)
    (st : MultiIntersectionNetwork.loop_state F) :
  List.length inflows = List.length inters ->
  fold_left (MultiIntersectionNetwork.service arrivals decisions) (seq 0 k)
    (Some {| MultiIntersectionNetwork.ls_intersections := inters;
             MultiIntersectionNetwork.ls_logs := [];
             MultiIntersectionNetwork.ls_rewards := [];
             MultiIntersectionNetwork.ls_inflows := inflows |}) = Some st ->
  List.length (MultiIntersectionNetwork.ls_intersections st) = List.length inters
  /\ List.length (MultiIntersectionNetwork.ls_inflows st) = List.length inters
  /\ List.length (MultiIntersectionNetwork.ls_logs st) = k
  /\ List.length (MultiIntersectionNetwork.ls_rewards st) = k
  /\ (forall i, (k <= i)%nat ->
        nth_error (MultiIntersectionNetwork.ls_intersections st) i = nth_error inters i)
  /\ (forall i, (i < k)%nat ->
        exists it a d,
          nth_error inters i = Some it /\ nth_error arrivals i = Some a
          /\ nth_error decisions i = Some d
          /\ nth_error (MultiIntersectionNetwork.ls_logs st) i
             = Some (fst (fst (Intersection.step it a d)))
          /\ nth_error (MultiIntersectionNetwork.ls_rewards st) i
             = Some (i, snd (fst (Intersection.step it a d)))
          /\ nth_error (MultiIntersectionNetwork.ls_intersections st) i
             = Some (snd (Intersection.step it a d))).
Proof.
  intros Hinfl. revert st. induction k as [|k IH]; intros st Hres.
  - simpl in Hres. injection Hres as <-. simpl.
    repeat split; try assumption; try reflexivity. intros i Hi. lia.
  - rewrite seq_S, fold_left_app in Hres. simpl in Hres.
    destruct (fold_left _ (seq 0 k) _) as [stk|] eqn:Efold; [|discriminate Hres].
    destruct (IH stk eq_refl) as (Li & Lf & Ll & Lr & Hrest & Hdone).
    unfold MultiIntersectionNetwork.service, bind in Hres.
    destruct (nth_error (MultiIntersectionNetwork.ls_intersections stk) k) as [it|] eqn:Eit;
      [|discriminate Hres].
    destruct (nth_error arrivals k) as [a|] eqn:Ea; [|discriminate Hres].
    destruct (nth_error decisions k) as [d|] eqn:Ed; [|discriminate Hres].
    destruct (Intersection.step it a d) as [[log reward] it'] eqn:Estep.
    assert (Hk : (k < List.length inters)%nat).
    { rewrite <- Li. apply nth_error_Some. rewrite Eit. discriminate. }
    match type of Hres with
    | match ?x with Some _ => _ | None => None end = _ =>
        destruct x as [inflows'|] eqn:Einf; [|discriminate Hres]
    end.
    assert (Linf : List.length inflows' = List.length inters).
    { destruct (k + 1 <? _)%nat.
      - destruct (nth_error _ (k + 1)); [|discriminate Einf].
        injection Einf as <-. rewrite list_set_length. exact Lf.
      - injection Einf as <-. exact Lf. }
    injection Hres as <-. simpl.
    rewrite list_set_length, !length_app. simpl.
    repeat split; try assumption; try lia.
    + intros i Hi. rewrite list_set_nth_error_other by lia. apply Hrest. lia.
    + intros i Hi. destruct (Nat.eq_dec i k) as [-> | Hne].
      * exists it, a, d. rewrite Hrest in Eit by lia.
        rewrite Estep. simpl.
        repeat split; try assumption.
        -- rewrite nth_error_app2 by lia. rewrite Ll, Nat.sub_diag. reflexivity.
        -- rewrite nth_error_app2 by lia. rewrite Lr, Nat.sub_diag. reflexivity.
        -- apply list_set_nth_error_same. lia.
      * destruct (Hdone i ltac:(lia)) as (it0 & a0 & d0 & H1 & H2 & H3 & H4 & H5 & H6).
        exists it0, a0, d0. repeat split; try assumption.
        -- rewrite nth_error_app1 by lia. exact H4.
        -- rewrite nth_error_app1 by lia. exact H5.
        -- rewrite list_set_nth_error_other by lia. exact H6.
Qed.

(** When [step] returns, every intersection has taken its own step on the
    arrival record the caller passed for its index: no log depends on another
    intersection's throughput, and the caller's arrival records are as they
    were. *)
Lemma network_step_uncoupled {F} `{PyFloat F} (self : MultiIntersectionNetwork.t)
    (arrivals arrivals' : list Arrivals) (decisions : list (Decision F))
    (logs : list (LogRecord F)) (rewards : list (nat * F))
    (self' : MultiIntersectionNetwork.t) :
  MultiIntersectionNetwork.step self arrivals decisions
  = Some ((logs, rewards), (self', arrivals')) ->
  arrivals' = arrivals
  /\ List.length logs = List.length (MultiIntersectionNetwork.intersections self)
  /\ forall i it, nth_error (MultiIntersectionNetwork.intersections self) i = Some it ->
       exists a d,
         nth_error arrivals i = Some a /\ nth_error decisions i = Some d
         /\ nth_error logs i = Some (fst (fst (Intersection.step it a d)))
         /\ nth_error rewards i = Some (i, snd (fst (Intersection.step it a d)))
         /\ nth_error (MultiIntersectionNetwork.intersections self') i
            = Some (snd (Intersection.step it a d)).
Proof.
  unfold MultiIntersectionNetwork.step, bind. intros Hstep.
  destruct (MultiIntersectionNetwork.apply_inflows _ _ arrivals) as [arr|] eqn:Earr;
    [|discriminate Hstep].
  apply apply_inflows_zero in Earr. subst arr.
  destruct (fold_left _ _ _) as [st|] eqn:Efold; [|discriminate Hstep].
  injection Hstep as <- <- <- <-.
  destruct (service_loop_spec _ arrivals decisions _ _ st
              ltac:(apply length_map) Efold) as (_ & _ & Ll & _ & _ & Hdone).
  split; [reflexivity|]. split; [exact Ll|].
  intros i it Hit.
  assert (Hi : (i < List.length (MultiIntersectionNetwork.intersections self))%nat).
  { apply nth_error_Some. rewrite Hit. discriminate. }
  destruct (Hdone i Hi) as (it0 & a & d & H1 & H2 & H3 & H4 & H5 & H6).
  rewrite Hit in H1. injection H1 as <-.
  exists a, d. simpl. repeat split; assumption.
Qed.

(** ** Dictionaries *)

Section DictFacts.
Context {K V : Type} (eqb : K -> K -> bool).
Hypothesis eqb_eq : forall a b, eqb a b = true <-> a = b.

Lemma eqb_refl' (a : K) : eqb a a = true.
Proof. apply eqb_eq. reflexivity. Qed.

Lemma dict_get_set_same (k : K) (v : V) (d : list (K * V)) :
  dict_get eqb k (dict_set eqb k v d) = Some v.
Proof.
  induction d as [|[k' v'] d IH]; simpl.
  - rewrite eqb_refl'. reflexivity.
  - destruct (eqb k k') eqn:E; simpl; rewrite E; [reflexivity | exact IH].
Qed.

Lemma dict_get_set_other (k k' : K) (v : V) (d : list (K * V)) :
  k <> k' -> dict_get eqb k (dict_set eqb k' v d) = dict_get eqb k d.
Proof.
  intros Hne. induction d as [|[k0 v0] d IH]; simpl.
  - destruct (eqb k k') eqn:E; [apply eqb_eq in E; contradiction | reflexivity].
  - destruct (eqb k' k0) eqn:E'; simpl.
    + apply eqb_eq in E'. subst k0.
      destruct (eqb k k') eqn:E; [apply eqb_eq in E; contradiction | reflexivity].
    + destruct (eqb k k0); [reflexivity | exact IH].
Qed.

(** Writing a key leaves the set of keys with a value as it was, but for
    the key written. *)
Lemma dict_get_set_defined (k k' : K) (v : V) (d : list (K * V)) :
  dict_get eqb k d <> None -> dict_get eqb k (dict_set eqb k' v d) <> None.
Proof.
  intros Hk. destruct (eqb k k') eqn:E.
  - apply eqb_eq in E. subst k'. rewrite dict_get_set_same. discriminate.
  - rewrite dict_get_set_other; [exact Hk|].
    intros ->. rewrite eqb_refl' in E. discriminate.
Qed.

Lemma dict_get_In (k : K) (v : V) (d : list (K * V)) :
  In (k, v) d -> dict_get eqb k d <> None.
Proof.
  induction d as [|[k' v'] d IH]; simpl; [tauto|].
  intros [Heq | Hin].
  - inversion Heq; subst. rewrite eqb_refl'. discriminate.
  - destruct (eqb k k'); [discriminate | exact (IH Hin)].
Qed.

Lemma dict_get_not_nil (k : K) (d : list (K * V)) : dict_get eqb k d <> None -> d <> [].
Proof. destruct d; simpl; [tauto | discriminate]. Qed.
End DictFacts.

Lemma key_eqb_eq (a b : QLearningController.Key) :
  QLearningController.key_eqb a b = true <-> a = b.
Proof.
  destruct a as [[[[[[a1 a2] a3] a4] a5] a6] a7], b as [[[[[[b1 b2] b3] b4] b5] b6] b7].
  unfold QLearningController.key_eqb.
  rewrite !andb_true_iff, !String.eqb_eq, Bool.eqb_true_iff.
  split.
  - intros [[[[[[-> ->] ->] ->] ->] ->] ->]. reflexivity.
  - intros Heq. inversion Heq. repeat split.
Qed.

(** ** QLearningController *)

Lemma fresh_row_defined {F} `{PyFloat F} (actions : list Z) (a : Z) :
  In a actions -> dict_get Z.eqb a (QLearningController.fresh_row (F := F) actions) <> None.
Proof.
  unfold QLearningController.fresh_row.
  assert (Hgen : forall d : list (Z * F),
             In a actions \/ dict_get Z.eqb a d <> None ->
             dict_get Z.eqb a
               (fold_left (fun d a => dict_set Z.eqb a (if a =? 12 then of_int 5 else of_int 2) d)
                          actions d) <> None).
  { induction actions as [|x l IH]; simpl; intros d [Hin | Hd]; try tauto.
    - destruct Hin as [-> | Hin].
      + apply IH. right. rewrite (dict_get_set_same Z.eqb Z.eqb_eq). discriminate.
      + apply IH. left. exact Hin.
    - apply IH. right. apply (dict_get_set_defined Z.eqb Z.eqb_eq). exact Hd. }
  intros Hin. apply Hgen. left. exact Hin.
Qed.

(** [_ensure_state] keeps the rows there are and gives the key a row. *)
Lemma ensure_state_get {F} `{PyFloat F} (c : QLearningController.t F)
    (k k' : QLearningController.Key) (row : list (Z * F)) :
  dict_get QLearningController.key_eqb k (QLearningController.q c) = Some row ->
  dict_get QLearningController.key_eqb k
    (QLearningController.q (QLearningController.ensure_state c k')) = Some row.
Proof.
  intros Hrow. unfold QLearningController.ensure_state, dict_mem.
  destruct (dict_get QLearningController.key_eqb k' (QLearningController.q c)) eqn:E;
    [exact Hrow|].
  simpl. rewrite (dict_get_set_other _ key_eqb_eq); [exact Hrow|].
  intros ->. congruence.
Qed.

Lemma ensure_state_fields {F} `{PyFloat F} (c : QLearningController.t F)
    (k : QLearningController.Key) :
  let c' := QLearningController.ensure_state c k in
  QLearningController.actions c' = QLearningController.actions c
  /\ QLearningController.alpha c' = QLearningController.alpha c
  /\ QLearningController.gamma c' = QLearningController.gamma c
  /\ QLearningController.last c' = QLearningController.last c
  /\ QLearningController.last_queues c' = QLearningController.last_queues c.
Proof.
  unfold QLearningController.ensure_state.
  destruct (dict_mem _ _ _); simpl; repeat split.
Qed.

Lemma ensure_state_wf {F} `{PyFloat F} (c : QLearningController.t F)
    (k : QLearningController.Key) :
  q_wf c -> q_wf (QLearningController.ensure_state c k).
Proof.
  intros (Hact & Hrows & Hlast).
  destruct (ensure_state_fields c k) as (Ea & _ & _ & El & _).
  unfold q_wf. rewrite Ea, El. split; [exact Hact|]. split.
  - intros k0 row Hget a Hin.
    unfold QLearningController.ensure_state, dict_mem in Hget.
    destruct (dict_get QLearningController.key_eqb k (QLearningController.q c)) eqn:E.
    + exact (Hrows k0 row Hget a Hin).
    + simpl in Hget.
      destruct (QLearningController.key_eqb k0 k) eqn:Ek.
      * apply key_eqb_eq in Ek. subst k0.
        rewrite (dict_get_set_same _ key_eqb_eq) in Hget. inversion Hget; subst.
        apply fresh_row_defined. exact Hin.
      * rewrite (dict_get_set_other _ key_eqb_eq) in Hget.
        -- exact (Hrows k0 row Hget a Hin).
        -- intros ->. rewrite (eqb_refl' _ key_eqb_eq) in Ek. discriminate.
  - intros k0 a Hl. specialize (Hlast k0 a Hl).
    unfold QLearningController.q_value, bind in *.
    destruct (dict_get QLearningController.key_eqb k0 (QLearningController.q c)) eqn:E;
      [|contradiction].
    rewrite (ensure_state_get c k0 k l E). exact Hlast.
Qed.

(** After [_ensure_state] the key has a row. *)
Lemma ensure_state_row {F} `{PyFloat F} (c : QLearningController.t F)
    (k : QLearningController.Key) :
  exists row, dict_get QLearningController.key_eqb k
                (QLearningController.q (QLearningController.ensure_state c k)) = Some row.
Proof.
  unfold QLearningController.ensure_state, dict_mem.
  destruct (dict_get QLearningController.key_eqb k (QLearningController.q c)) eqn:E.
  - exists l. exact E.
  - simpl. rewrite (dict_get_set_same _ key_eqb_eq). eexists. reflexivity.
Qed.

Lemma max_list_defined {F} `{PyFloat F} (l : list F) :
  l <> [] -> exists m, QLearningController.max_list l = Some m.
Proof. destruct l; [tauto | intros _; eexists; reflexivity]. Qed.

Lemma wf_row_values {F} (c : QLearningController.t F) (k : QLearningController.Key)
    (row : list (Z * F)) :
  q_wf c -> dict_get QLearningController.key_eqb k (QLearningController.q c) = Some row ->
  dict_values row <> [].
Proof.
  intros (Hact & Hrows & _) Hget.
  destruct (QLearningController.actions c) as [|a l] eqn:Ea; [contradiction|].
  assert (Ha : dict_get Z.eqb a row <> None).
  { apply (Hrows k row Hget). left. reflexivity. }
  apply dict_get_not_nil in Ha. destruct row; [contradiction | discriminate].
Qed.

Lemma init_wf {F} (actions : list Z) (al ga ep em ed : F) :
  q_wf (QLearningController.init actions al ga ep em ed).
Proof.
  unfold q_wf; simpl. repeat split.
  - destruct actions; discriminate.
  - intros k row Hget. discriminate Hget.
  - intros k a Hl. discriminate Hl.
Qed.

Lemma default_wf {F} `{PyFloat F} : q_wf (F := F) QLearningController.default.
Proof. apply init_wf. Qed.

(** What [learn] does after a recorded decision, step by step. *)
Lemma learn_recorded {F} `{PyFloat F} (c : QLearningController.t F) (s : State) (r : F)
    (ns : State) (key : QLearningController.Key) (action : Z) :
  q_wf c -> QLearningController.last c = Some (key, action) ->
  exists row old next_best,
    let c1 := QLearningController.ensure_state c (QLearningController.state_key c ns) in
    let updated :=
      QLearningController.updated_value (QLearningController.alpha c)
        (QLearningController.gamma c) old r next_best in
    dict_get QLearningController.key_eqb key (QLearningController.q c1) = Some row
    /\ QLearningController.q_value c key action = Some old
    /\ QLearningController.target c r ns
       = Some (r + QLearningController.gamma c * next_best)%num
    /\ QLearningController.learn c s r ns
       = Some (QLearningController.set_q
                 (dict_set QLearningController.key_eqb key
                    (dict_set Z.eqb action updated row) (QLearningController.q c1)) c1).
Proof.
  intros Hwf Hlast.
  pose proof Hwf as (_ & _ & Hrec). specialize (Hrec key action Hlast).
  unfold QLearningController.q_value, bind in Hrec.
  destruct (dict_get QLearningController.key_eqb key (QLearningController.q c))
    as [row|] eqn:Erow; [|contradiction].
  destruct (dict_get Z.eqb action row) as [old|] eqn:Eold; [|contradiction].
  set (nk := QLearningController.state_key c ns).
  destruct (ensure_state_row c nk) as [nrow Enrow].
  pose proof (ensure_state_wf c nk Hwf) as Hwf1.
  destruct (max_list_defined (dict_values nrow) (wf_row_values _ nk nrow Hwf1 Enrow))
    as [nb Enb].
  destruct (ensure_state_fields c nk) as (_ & Eal & Ega & _ & _).
  exists row, old, nb. cbv zeta. fold nk.
  pose proof (ensure_state_get c key nk row Erow) as Erow1.
  repeat split.
  - exact Erow1.
  - unfold QLearningController.q_value, bind. rewrite Erow. exact Eold.
  - unfold QLearningController.target, bind. fold nk. rewrite Enrow, Enb. reflexivity.
  - unfold QLearningController.learn, bind. rewrite Hlast. fold nk.
    rewrite Erow1, Eold, Enrow, Enb, Eal, Ega. reflexivity.
Qed.

(** The value [learn] leaves at the recorded pair is the updated one. *)
Lemma q_value_after_write {F} (c : QLearningController.t F) (key : QLearningController.Key)
    (action : Z) (v : F) (row : list (Z * F)) (tbl : list (QLearningController.Key * list (Z * F))) :
  QLearningController.q_value
    (QLearningController.set_q
       (dict_set QLearningController.key_eqb key (dict_set Z.eqb action v row) tbl) c)
    key action = Some v.
Proof.
  unfold QLearningController.q_value, bind. simpl.
  rewrite (dict_get_set_same _ key_eqb_eq), (dict_get_set_same _ Z.eqb_eq). reflexivity.
Qed.

(** [learn] keeps the invariant and never raises after the constructor. *)
Lemma learn_wf {F} `{PyFloat F} (c : QLearningController.t F) (s : State) (r : F) (ns : State) :
  q_wf c -> exists c', QLearningController.learn c s r ns = Some c' /\ q_wf c'
                       /\ QLearningController.last c' = QLearningController.last c.
Proof.
  intros Hwf. destruct (QLearningController.last c) as [[key action]|] eqn:Hlast.
  - destruct (learn_recorded c s r ns key action Hwf Hlast)
      as (row & old & nb & Hrow & Hold & _ & Hlearn).
    cbv zeta in Hrow, Hlearn. eexists. split; [exact Hlearn|].
    set (nk := QLearningController.state_key c ns) in *.
    pose proof (ensure_state_wf c nk Hwf) as (Hact & Hrows & Hrec).
    destruct (ensure_state_fields c nk) as (Ea & _ & _ & El & _).
    split; [|simpl; rewrite El; exact Hlast].
    unfold q_wf. simpl. split; [exact Hact|]. split.
    + intros k row' Hget a Hin.
      destruct (QLearningController.key_eqb k key) eqn:Ek.
      * apply key_eqb_eq in Ek. subst k.
        rewrite (dict_get_set_same _ key_eqb_eq) in Hget. inversion Hget; subst.
        apply (dict_get_set_defined _ Z.eqb_eq). exact (Hrows key row Hrow a Hin).
      * rewrite (dict_get_set_other _ key_eqb_eq) in Hget.
        -- exact (Hrows k row' Hget a Hin).
        -- intros ->. rewrite (eqb_refl' _ key_eqb_eq) in Ek. discriminate.
    + intros k a Hl. rewrite El, Hlast in Hl. inversion Hl; subst.
      rewrite q_value_after_write. discriminate.
  - exists c. unfold QLearningController.learn. rewrite Hlast. repeat split; apply Hwf.
Qed.

Lemma argmax_from_In {F} `{PyFloat F} (best : Z * F) (rest : list (Z * F)) :
  In (QLearningController.argmax_from best rest) (best :: rest).
Proof.
  revert best. induction rest as [|item r IH]; intros best; simpl; [left; reflexivity|].
  destruct (snd best <? snd item)%num.
  - destruct (IH item) as [E | Hin]; [right; left; exact E | right; right; exact Hin].
  - destruct (IH best) as [E | Hin]; [left; exact E | right; right; exact Hin].
Qed.

(** [decide] keeps the invariant and records a decision; it returns when
    the index drawn for an exploring step is one of the action list. *)
Lemma decide_wf {F} `{PyFloat F} (c : QLearningController.t F) (s : State) (u : F)
    (pick : nat) (d : Decision F) (c' : QLearningController.t F) :
  q_wf c -> QLearningController.decide c s u pick = Some (d, c') ->
  q_wf c' /\ QLearningController.last c' <> None.
Proof.
  intros Hwf Hdec. unfold QLearningController.decide in Hdec.
  set (key := QLearningController.state_key c s) in *.
  pose proof (ensure_state_wf c key Hwf) as (Hact & Hrows & Hrec).
  set (c1 := QLearningController.ensure_state c key) in *.
  unfold bind in Hdec.
  destruct (dict_get QLearningController.key_eqb key (QLearningController.q c1))
    as [row|] eqn:Erow; [|discriminate].
  destruct (if (u <? QLearningController.epsilon c1)%num
            then nth_error (QLearningController.actions c1) pick
            else QLearningController.argmax row) as [action|] eqn:Eact; [|discriminate].
  assert (Hdef : dict_get Z.eqb action row <> None).
  { destruct (u <? QLearningController.epsilon c1)%num.
    - apply (Hrows key row Erow). eapply nth_error_In. exact Eact.
    - unfold QLearningController.argmax in Eact. destruct row as [|item r]; [discriminate|].
      injection Eact as Eact. rewrite <- Eact.
      apply (dict_get_In _ Z.eqb_eq _ (snd (QLearningController.argmax_from item r))).
      rewrite <- surjective_pairing. apply argmax_from_In. }
  assert (Hgoal : forall c2,
             QLearningController.actions c2 = QLearningController.actions c1 ->
             QLearningController.q c2 = QLearningController.q c1 ->
             QLearningController.last c2 = Some (key, action) ->
             q_wf c2 /\ QLearningController.last c2 <> None).
  { intros c2 Ea Eq El. split; [|rewrite El; discriminate].
    unfold q_wf. rewrite Ea, Eq, El. split; [exact Hact|]. split; [exact Hrows|].
    intros k a Hl. inversion Hl; subst.
    unfold QLearningController.q_value, bind. rewrite Eq, Erow. exact Hdef. }
  match type of Hdec with
  | Some (_, (if ?b then _ else _)) = _ => destruct b
  end; inversion Hdec; subst; apply Hgoal; reflexivity.
Qed.

Lemma decide_total {F} `{PyFloat F} (c : QLearningController.t F) (s : State) (u : F)
    (pick : nat) :
  q_wf c -> (pick < List.length (QLearningController.actions c))%nat ->
  exists d c', QLearningController.decide c s u pick = Some (d, c').
Proof.
  intros Hwf Hpick. unfold QLearningController.decide.
  set (key := QLearningController.state_key c s).
  destruct (ensure_state_row c key) as [row Erow].
  pose proof (ensure_state_wf c key Hwf) as Hwf1.
  destruct (ensure_state_fields c key) as (Ea & _).
  set (c1 := QLearningController.ensure_state c key) in *.
  unfold bind. rewrite Erow.
  assert (Hact : exists action,
             (if (u <? QLearningController.epsilon c1)%num
              then nth_error (QLearningController.actions c1) pick
              else QLearningController.argmax row) = Some action).
  { destruct (u <? QLearningController.epsilon c1)%num.
    - rewrite Ea. destruct (nth_error (QLearningController.actions c) pick) eqn:E.
      + eexists; reflexivity.
      + apply nth_error_None in E. lia.
    - pose proof (wf_row_values c1 key row Hwf1 Erow) as Hne.
      destruct row; [contradiction | eexists; reflexivity]. }
  destruct Hact as [action ->]. eexists. eexists. reflexivity.
Qed.

(** [decide] leaves the learning constants as they are. *)
Lemma decide_constants {F} `{PyFloat F} (c : QLearningController.t F) (s : State) (u : F)
    (pick : nat) (d : Decision F) (c' : QLearningController.t F) :
  QLearningController.decide c s u pick = Some (d, c') ->
  QLearningController.alpha c' = QLearningController.alpha c
  /\ QLearningController.gamma c' = QLearningController.gamma c.
Proof.
  unfold QLearningController.decide, bind. intros Hdec.
  destruct (ensure_state_fields c (QLearningController.state_key c s)) as (_ & Eal & Ega & _).
  destruct (dict_get _ _ _); [|discriminate].
  destruct (if (u <? _)%num then _ else _); [|discriminate].
  match type of Hdec with
  | Some (_, (if ?b then _ else _)) = _ => destruct b
  end; inversion Hdec; subst; simpl; split; assumption.
Qed.

(** The update in exact arithmetic: the distance to the target shrinks by
    the factor [1 - alpha]. *)
Lemma updated_value_contracts (old r nb : R) :
  let tgt := (r + 9 / 10 * nb)%R in
  let new := QLearningController.updated_value (8 / 100)%R (9 / 10)%R old r nb in
  QLearningController.moved_toward old new tgt.
Proof.
  intros tgt new. unfold QLearningController.moved_toward. simpl.
  assert (Hnew : (new - tgt = 92 / 100 * (old - tgt))%R).
  { subst new tgt. unfold QLearningController.updated_value. simpl. lra. }
  destruct (Reqb old tgt) eqn:E.
  - apply Reqb_true in E. apply Reqb_true. lra.
  - apply Reqb_false in E. apply Rltb_true. rewrite Hnew, Rabs_mult.
    rewrite (Rabs_pos_eq (92 / 100)) by lra.
    assert (0 < Rabs (old - tgt))%R by (apply Rabs_pos_lt; lra).
    lra.
Qed.

(** C7, amended: in exact arithmetic.  After a recorded decision, for the
    controller with [alpha = 0.08] and [gamma = 0.9], [learn] returns, and
    the value it leaves at the recorded (key, action) pair is strictly
    nearer to [reward + 0.9 * max(values of the next state's row)] than the
    value before, the row being initialised first if the key is new; when
    the old value is the target it stays. *)
Theorem learn_moves_toward_target_exact (c : QLearningController.t R) (s : State) (r : R)
    (ns : State) :
  q_wf c -> QLearningController.last c <> None ->
  QLearningController.alpha c = lit 8 100 -> QLearningController.gamma c = lit 9 10 ->
  QLearningController.learn_moves_toward_target c s r ns.
Proof.
  intros Hwf Hlast Hal Hga.
  destruct (QLearningController.last c) as [[key action]|] eqn:El; [|contradiction].
  destruct (learn_recorded c s r ns key action Hwf El)
    as (row & old & nb & _ & Hold & Htgt & Hlearn).
  cbv zeta in Hlearn.
  exists key, action, old. eexists. eexists. eexists.
  split; [exact El|]. split; [exact Hold|]. split; [exact Htgt|].
  split; [exact Hlearn|]. split; [apply q_value_after_write|].
  rewrite Hal, Hga. unfold lit. simpl. apply updated_value_contracts.
Qed.

Lemma learn_moves_toward_target_exact_witness :
  exists d c,
    QLearningController.decide (F := R) QLearningController.default quiet_state (lit 1 2) 0
    = Some (d, c)
    /\ QLearningController.learn_moves_toward_target c quiet_state 1%R quiet_state.
Proof.
  destruct (decide_total (F := R) QLearningController.default quiet_state (lit 1 2) 0
              default_wf ltac:(simpl; lia)) as (d & c & Hdec).
  exists d, c. split; [exact Hdec|].
  destruct (decide_wf _ _ _ _ _ _ default_wf Hdec) as [Hwf Hlast].
  destruct (decide_constants _ _ _ _ _ _ Hdec) as [Hal Hga].
  exact (learn_moves_toward_target_exact c quiet_state 1%R quiet_state Hwf Hlast Hal Hga).
Defined.

(** The first decision of a new controller, in binary64, when the draw
    does not fall below epsilon. *)
Example first_decision_exploits :
  option_map (fun r => (to_int (duration (fst r)), explanation (fst r)))
             (QLearningController.decide (F := float) QLearningController.default
                quiet_state (lit 1 2) 0)
  = Some (12, Some "RL: exploiting → 12s green").
Proof. vm_compute. reflexivity. Qed.

(** C7, as the specification states it, fails in the arithmetic the
    interpreter performs.  The recorded value is 5.0 and the target is
    5.0 + 2^-50; the increment [0.08 * 2^-50] is below half a unit in the
    last place of 5.0 and the sum rounds back to 5.0: the value is not at the
    target and does not move. *)
Lemma learn_rounding_counterexample :
  QLearningController.last (F := float) decided = Some (quiet_key, 12)
  /\ QLearningController.q_value (F := float) decided quiet_key 12 = Some (of_int 5)
  /\ QLearningController.target (F := float) decided tiny_reward quiet_state
     = Some (of_int 5 + of_int 1 / of_int (2 ^ 50))%num
  /\ option_map (fun c => QLearningController.q_value c quiet_key 12)
       (QLearningController.learn (F := float) decided quiet_state tiny_reward quiet_state)
     = Some (Some (of_int 5))
  /\ ~ QLearningController.learn_moves_toward_target (F := float) decided quiet_state
         tiny_reward quiet_state.
Proof.
  repeat split; try (vm_compute; reflexivity).
  intros (key & action & old & tgt & c' & new & Hlast & Hold & Htgt & Hlearn & Hnew & Hmv).
  vm_compute in Hlast. injection Hlast as <- <-.
  vm_compute in Hold. injection Hold as <-.
  vm_compute in Htgt. injection Htgt as <-.
  vm_compute in Hlearn. injection Hlearn as <-.
  vm_compute in Hnew. injection Hnew as <-.
  vm_compute in Hmv. discriminate Hmv.
Qed.

(** C9.  [learn] does not read its [state] argument: with the same
    controller, reward and next state, any two states give the same result.
    What it returns differs from the controller it was called on in the
    table only. *)
Theorem learn_ignores_state {F} `{PyFloat F} (c : QLearningController.t F)
    (s1 s2 : State) (r : F) (ns : State) :
  QLearningController.learn c s1 r ns = QLearningController.learn c s2 r ns
  /\ forall c', QLearningController.learn c s1 r ns = Some c' ->
       c' = QLearningController.set_q (QLearningController.q c') c.
Proof.
  split; [reflexivity|].
  intros c' Hl. unfold QLearningController.learn in Hl.
  destruct (QLearningController.last c) as [[key action]|] eqn:El.
  - unfold bind in Hl.
    repeat match type of Hl with
           | match ?x with Some _ => _ | None => None end = _ =>
               destruct x; [|discriminate Hl]
           end.
    injection Hl as <-. unfold QLearningController.ensure_state.
    destruct (dict_mem _ _ _); unfold QLearningController.set_q; simpl; reflexivity.
  - injection Hl as <-. destruct c. unfold QLearningController.set_q. simpl. reflexivity.
Qed.

(** ** The sigmoid and the builtin sum, in exact arithmetic *)

Section NeuralFacts.
Import NeuralController.
Local Open Scope R_scope.

Lemma sigmoid_range (x : R) : 0 < sigmoid x < 1.
Proof.
  assert (He : 0 < exp (- x)) by apply exp_pos.
  assert (Hy : sigmoid x * (1 + exp (- x)) = 1) by (unfold sigmoid; field; lra).
  split; nra.
Qed.

Lemma sigmoid_mono (x y : R) : x <= y -> sigmoid x <= sigmoid y.
Proof.
  intros Hxy. unfold sigmoid.
  assert (Hx : 0 < exp (- x)) by apply exp_pos.
  assert (Hy : 0 < exp (- y)) by apply exp_pos.
  assert (Hle : exp (- y) <= exp (- x)).
  { destruct (Req_dec x y) as [-> | Hne]; [lra|].
    left. apply exp_increasing. lra. }
  unfold Rdiv. rewrite !Rmult_1_l. apply Rinv_le_contravar; lra.
Qed.

Lemma pysum_acc (l : list R) (a : R) : fold_left Rplus l a = a + pysum l.
Proof.
  unfold pysum. revert a. induction l as [|x l IH]; intros a; simpl; [lra|].
  rewrite (IH (a + x)), (IH (0 + x)). lra.
Qed.

Lemma pysum_cons (x : R) (l : list R) : pysum (x :: l) = x + pysum l.
Proof. unfold pysum at 1. simpl. rewrite pysum_acc. lra. Qed.

Lemma pysum_nil : pysum [] = 0.
Proof. reflexivity. Qed.

Lemma pysum_map_le {A : Type} (f g : A -> R) (l : list A) :
  (forall i, In i l -> f i <= g i) -> pysum (map f l) <= pysum (map g l).
Proof.
  induction l as [|x l IH]; intros Hfg; simpl; [lra|].
  rewrite !pysum_cons.
  assert (f x <= g x) by (apply Hfg; left; reflexivity).
  assert (pysum (map f l) <= pysum (map g l)) by (apply IH; intros i Hi; apply Hfg; right; exact Hi).
  lra.
Qed.

Lemma pysum_map_ext {A : Type} (f g : A -> R) (l : list A) :
  (forall i, In i l -> f i = g i) -> pysum (map f l) = pysum (map g l).
Proof.
  intros Hfg. f_equal. apply map_ext_in. exact Hfg.
Qed.

Lemma pysum_map_sub_scal {A : Type} (a b : A -> R) (c : R) (l : list A) :
  pysum (map (fun j => a j - c * b j) l) = pysum (map a l) - c * pysum (map b l).
Proof.
  induction l as [|x l IH]; simpl; [rewrite !pysum_nil; lra|].
  rewrite !pysum_cons, IH. lra.
Qed.

Lemma pysum_map_sqr_nonneg {A : Type} (f : A -> R) (l : list A) :
  0 <= pysum (map (fun j => f j * f j) l).
Proof.
  induction l as [|x l IH]; simpl; [rewrite pysum_nil; lra|].
  rewrite pysum_cons. nra.
Qed.

(** The inner loop of [learn] on one row of [w1]. *)
Lemma learn_row_spec (lr gh : R) (feats : list R) (n : nat) (row : list R) :
  (n <= List.length row)%nat ->
  let row' := fold_left (learn_input lr gh feats) (seq 0 n) row in
  List.length row' = List.length row
  /\ forall j, get row' j
               = if (j <? n)%nat then get row j - lr * gh * get feats j else get row j.
Proof.
  induction n as [|n IH]; intros Hn; cbv zeta.
  - simpl. split; [reflexivity | intros j; reflexivity].
  - rewrite seq_S, fold_left_app. simpl.
    destruct IH as [Hlen Hget]; [lia|].
    set (r := fold_left (learn_input lr gh feats) (seq 0 n) row) in *.
    unfold learn_input. split; [rewrite list_set_length; exact Hlen|].
    intros j. unfold get at 1. destruct (Nat.eq_dec n j) as [<- | Hne].
    + rewrite list_set_nth_same by lia. rewrite Hget, Nat.ltb_irrefl.
      replace (n <? S n)%nat with true by (symmetry; apply Nat.ltb_lt; lia).
      reflexivity.
    + rewrite list_set_nth_other by exact Hne. fold (get r j). rewrite Hget.
      destruct (j <? n)%nat eqn:E1, (j <? S n)%nat eqn:E2; try reflexivity;
        apply Nat.ltb_lt in E1 || apply Nat.ltb_ge in E1;
        apply Nat.ltb_lt in E2 || apply Nat.ltb_ge in E2; lia.
Qed.

(** The outer loop of [learn]: the first [n] units are rewritten, each from
    its own weights before the call, and the others are left alone. *)
Lemma learn_loop_spec (lr g : R) (h feats : list R) (isz n : nat)
    (w1 : list (list R)) (b1 w2 : list R) :
  (n <= List.length w1)%nat -> (n <= List.length b1)%nat -> (n <= List.length w2)%nat ->
  let r := fold_left (learn_unit lr g h feats isz) (seq 0 n) (w1, b1, w2) in
  List.length (fst (fst r)) = List.length w1
  /\ List.length (snd (fst r)) = List.length b1
  /\ List.length (snd r) = List.length w2
  /\ forall i,
       get (snd r) i = (if (i <? n)%nat then get w2 i - lr * g * get h i else get w2 i)
       /\ get (snd (fst r)) i
          = (if (i <? n)%nat then get b1 i - lr * grad_h_at lr g h w2 i else get b1 i)
       /\ nth i (fst (fst r)) []
          = (if (i <? n)%nat
             then fold_left (learn_input lr (grad_h_at lr g h w2 i) feats) (seq 0 isz)
                            (nth i w1 [])
             else nth i w1 []).
Proof.
  induction n as [|n IH]; intros H1 Hb H2; cbv zeta.
  - simpl. repeat split; reflexivity.
  - rewrite seq_S, fold_left_app. simpl.
    destruct IH as (L1 & Lb & L2 & Hget); [lia | lia | lia |].
    destruct (fold_left (learn_unit lr g h feats isz) (seq 0 n) (w1, b1, w2))
      as [[w1n b1n] w2n]. simpl in *.
    destruct (Hget n) as (Gw2 & Gb1 & Gw1). rewrite Nat.ltb_irrefl in Gw2, Gb1, Gw1.
    assert (Hnew : get (list_set n (get w2n n - lr * g * get h n) w2n) n
                   = get w2 n - lr * g * get h n).
    { unfold get at 1. rewrite list_set_nth_same by lia. rewrite Gw2. reflexivity. }
    rewrite Hnew. fold (grad_h_at lr g h w2 n).
    rewrite !list_set_length. repeat split; try assumption.
    + unfold get at 1. destruct (Nat.eq_dec n i) as [<- | Hne].
      * rewrite list_set_nth_same by lia.
        replace (n <? S n)%nat with true by (symmetry; apply Nat.ltb_lt; lia).
        rewrite Gw2. reflexivity.
      * rewrite list_set_nth_other by exact Hne. fold (get w2n i).
        destruct (Hget i) as (-> & _ & _).
        destruct (i <? n)%nat eqn:E1, (i <? S n)%nat eqn:E2; try reflexivity;
          apply Nat.ltb_lt in E1 || apply Nat.ltb_ge in E1;
          apply Nat.ltb_lt in E2 || apply Nat.ltb_ge in E2; lia.
    + unfold get at 1. destruct (Nat.eq_dec n i) as [<- | Hne].
      * rewrite list_set_nth_same by lia.
        replace (n <? S n)%nat with true by (symmetry; apply Nat.ltb_lt; lia).
        rewrite Gb1. reflexivity.
      * rewrite list_set_nth_other by exact Hne. fold (get b1n i).
        destruct (Hget i) as (_ & -> & _).
        destruct (i <? n)%nat eqn:E1, (i <? S n)%nat eqn:E2; try reflexivity;
          apply Nat.ltb_lt in E1 || apply Nat.ltb_ge in E1;
          apply Nat.ltb_lt in E2 || apply Nat.ltb_ge in E2; lia.
    + destruct (Nat.eq_dec n i) as [<- | Hne].
      * rewrite list_set_nth_same by lia.
        replace (n <? S n)%nat with true by (symmetry; apply Nat.ltb_lt; lia).
        rewrite Gw1. reflexivity.
      * rewrite list_set_nth_other by exact Hne.
        destruct (Hget i) as (_ & _ & ->).
        destruct (i <? n)%nat eqn:E1, (i <? S n)%nat eqn:E2; try reflexivity;
          apply Nat.ltb_lt in E1 || apply Nat.ltb_ge in E1;
          apply Nat.ltb_lt in E2 || apply Nat.ltb_ge in E2; lia.
Qed.

Lemma forward_eq (nc : t) (feats : list R) :
  forward nc feats = (sigmoid (raw_out nc feats), hidden nc feats).
Proof. reflexivity. Qed.

Lemma hidden_get (nc : t) (feats : list R) (i : nat) :
  (i < hidden_size nc)%nat -> get (hidden nc feats) i = sigmoid (pre_act nc feats i).
Proof.
  intros Hi. unfold get at 1, hidden. rewrite nth_map_seq by exact Hi. reflexivity.
Qed.

(** [learn] with a remembered transition, as one record. *)
Lemma learn_unfold (nc : t) (s : State) (r : R) (ns : State) (last : Transition)
    (rest : list Transition) :
  rev (memory nc) = last :: rest ->
  let feats := features last in
  let g := grad_out_of (sigmoid (raw_out nc feats)) r in
  let loop := fold_left (learn_unit (lr nc) g (hidden nc feats) feats (input_size nc))
                        (seq 0 (hidden_size nc)) (w1 nc, b1 nc, w2 nc) in
  learn nc s r ns
  = {| input_size := input_size nc; hidden_size := hidden_size nc; lr := lr nc;
       memory := memory nc;
       w1 := fst (fst loop); b1 := snd (fst loop); w2 := snd loop;
       b2 := b2 nc - lr nc * g |}.
Proof.
  intros Hrev. unfold learn. rewrite Hrev, forward_eq. cbv zeta.
  destruct (fold_left _ _ _) as [[w1' b1'] w2']. reflexivity.
Qed.

(** The output gradient has the sign opposite to the reward's. *)
Lemma grad_out_sign (p r : R) :
  0 < p < 1 ->
  (0 < r -> grad_out_of p r <= 0)
  /\ (r < 0 -> 0 <= grad_out_of p r)
  /\ (r = 0 -> grad_out_of p r = 0).
Proof.
  intros [Hp0 Hp1]. unfold grad_out_of. cbv zeta.
  set (target := Rmax 0 (Rmin 1 (p + 3 / 10 * Rmax (-1) (Rmin 1 (r / 20))))).
  assert (Hpp : 0 < p * (1 - p)) by nra.
  assert (Ht : (0 < r -> p <= target) /\ (r < 0 -> target <= p) /\ (r = 0 -> target = p)).
  { subst target. unfold Rmax, Rmin.
    repeat split; intros Hr;
      repeat match goal with
             | |- context [Rle_dec ?a ?b] => destruct (Rle_dec a b)
             | _ : context [Rle_dec ?a ?b] |- _ => destruct (Rle_dec a b)
             end; lra. }
  destruct Ht as (Hup & Hdown & Hsame).
  rewrite Rmult_assoc.
  repeat split; intros Hr.
  - specialize (Hup Hr). nra.
  - specialize (Hdown Hr). nra.
  - rewrite (Hsame Hr). ring.
Qed.










(** One hidden unit's share of the output, before and after an update with
    output gradient [g]: it moves against the sign of [lr * g]. *)
Lemma unit_term_moves (lr g w s S : R) :
  0 <= S ->
  let h := sigmoid s in
  let w' := w - lr * g * h in
  let gh := g * w' * h * (1 - h) in
  let s' := s - lr * gh * (S + 1) in
  (lr * g <= 0 -> w * h <= w' * sigmoid s')
  /\ (0 <= lr * g -> w' * sigmoid s' <= w * h).
Proof.
  intros HS h w' gh s'.
  destruct (sigmoid_range s) as [Hh0 Hh1]. fold h in Hh0, Hh1.
  set (K := h * (1 - h) * (S + 1)).
  assert (HK : 0 <= K).
  { subst K. apply Rmult_le_pos; [|lra]. apply Rmult_le_pos; lra. }
  assert (Hs' : s' = s - (lr * g) * K * w') by (subst s' gh K; ring).
  assert (Hw' : w' * h = w * h - (lr * g) * (h * h)) by (subst w'; ring).
  assert (Hhh : 0 <= h * h) by nra.
  split; intros Hc.
  - assert (HcK : 0 <= - (lr * g) * K) by nra.
    destruct (Rle_dec 0 w') as [Hpos | Hneg].
    + assert (Hss : s <= s') by nra.
      pose proof (sigmoid_mono s s' Hss) as Hm. fold h in Hm. nra.
    + assert (Hss : s' <= s) by nra.
      pose proof (sigmoid_mono s' s Hss) as Hm. fold h in Hm. nra.
  - assert (HcK : 0 <= (lr * g) * K) by nra.
    destruct (Rle_dec 0 w') as [Hpos | Hneg].
    + assert (Hss : s' <= s) by nra.
      pose proof (sigmoid_mono s' s Hss) as Hm. fold h in Hm. nra.
    + assert (Hss : s <= s') by nra.
      pose proof (sigmoid_mono s s' Hss) as Hm. fold h in Hm. nra.
Qed.

(** What [learn] does to the network, read on the remembered features:
    every output weight moves by [- lr * g * h_i], every hidden unit's
    weighted input by [- lr * grad_h_i * (|feats|^2 + 1)], the output bias
    by [- lr * g]. *)
Lemma learn_effect (nc : t) (s : State) (r : R) (ns : State) (last : Transition)
    (rest : list Transition) :
  well_shaped nc -> rev (memory nc) = last :: rest ->
  let feats := features last in
  let h := hidden nc feats in
  let g := grad_out_of (sigmoid (raw_out nc feats)) r in
  let nc' := learn nc s r ns in
  hidden_size nc' = hidden_size nc
  /\ b2 nc' = b2 nc - lr nc * g
  /\ forall i, (i < hidden_size nc)%nat ->
       get (w2 nc') i = get (w2 nc) i - lr nc * g * get h i
       /\ pre_act nc' feats i
          = pre_act nc feats i
            - lr nc * grad_h_at (lr nc) g h (w2 nc) i * (sq_norm (input_size nc) feats + 1).
Proof.
  intros (Hin & Hw1 & Hrows & Hb1 & Hw2) Hrev feats h g nc'.
  subst nc'. rewrite (learn_unfold nc s r ns last rest Hrev). cbv zeta.
  fold feats. fold h. fold g.
  destruct (learn_loop_spec (lr nc) g h feats (input_size nc) (hidden_size nc)
              (w1 nc) (b1 nc) (w2 nc)) as (_ & _ & _ & Hget); [lia | lia | lia |].
  cbv zeta in Hget.
  set (loop := fold_left (learn_unit (lr nc) g h feats (input_size nc))
                         (seq 0 (hidden_size nc)) (w1 nc, b1 nc, w2 nc)) in *.
  simpl. split; [reflexivity|]. split; [reflexivity|].
  intros i Hi. destruct (Hget i) as (Gw2 & Gb1 & Gw1).
  replace (i <? hidden_size nc)%nat with true in Gw2, Gb1, Gw1
    by (symmetry; apply Nat.ltb_lt; exact Hi).
  split; [exact Gw2|].
  unfold pre_act. simpl. rewrite Gb1.
  assert (Hrow : List.length (nth i (w1 nc) []) = input_size nc).
  { rewrite Forall_forall in Hrows. apply Hrows. apply nth_In. lia. }
  destruct (learn_row_spec (lr nc) (grad_h_at (lr nc) g h (w2 nc) i) feats (input_size nc)
              (nth i (w1 nc) [])) as [_ Hrowget]; [lia|].
  cbv zeta in Hrowget.
  rewrite (pysum_map_ext
             (fun j => get2 (fst (fst loop)) i j * get feats j)
             (fun j => get2 (w1 nc) i j * get feats j
                       - lr nc * grad_h_at (lr nc) g h (w2 nc) i * (get feats j * get feats j))).
  - rewrite pysum_map_sub_scal. unfold sq_norm. ring.
  - intros j Hj. apply in_seq in Hj. unfold get2. rewrite Gw1, Hrowget.
    replace (j <? input_size nc)%nat with true by (symmetry; apply Nat.ltb_lt; lia).
    ring.
Qed.

(** The output unit's weighted input moves against the sign of
    [lr * grad_out]. *)
Lemma learn_raw_out (nc : t) (s : State) (r : R) (ns : State) (last : Transition)
    (rest : list Transition) :
  well_shaped nc -> rev (memory nc) = last :: rest ->
  let feats := features last in
  let g := grad_out_of (sigmoid (raw_out nc feats)) r in
  (lr nc * g <= 0 -> raw_out nc feats <= raw_out (learn nc s r ns) feats)
  /\ (0 <= lr nc * g -> raw_out (learn nc s r ns) feats <= raw_out nc feats).
Proof.
  intros Hwf Hrev feats g.
  destruct (learn_effect nc s r ns last rest Hwf Hrev) as (Hhs & Hb2 & Hunits).
  cbv zeta in Hhs, Hb2, Hunits. fold feats in Hhs, Hb2, Hunits. fold g in Hb2, Hunits.
  set (nc' := learn nc s r ns) in *.
  assert (Hterm : forall i, In i (seq 0 (hidden_size nc)) ->
            (lr nc * g <= 0 ->
             get (w2 nc) i * get (hidden nc feats) i
             <= get (w2 nc') i * get (hidden nc' feats) i)
            /\ (0 <= lr nc * g ->
                get (w2 nc') i * get (hidden nc' feats) i
                <= get (w2 nc) i * get (hidden nc feats) i)).
  { intros i Hi. apply in_seq in Hi.
    destruct (Hunits i ltac:(lia)) as [Gw2 Gpre].
    rewrite (hidden_get nc' feats i) by (rewrite Hhs; lia).
    rewrite Gw2, Gpre. unfold grad_h_at.
    rewrite (hidden_get nc feats i) by lia.
    apply (unit_term_moves (lr nc) g (get (w2 nc) i) (pre_act nc feats i)
             (sq_norm (input_size nc) feats)).
    apply pysum_map_sqr_nonneg. }
  unfold raw_out. rewrite Hhs, Hb2. split; intros Hc.
  - assert (pysum (map (fun i => get (w2 nc) i * get (hidden nc feats) i)
                       (seq 0 (hidden_size nc)))
            <= pysum (map (fun i => get (w2 nc') i * get (hidden nc' feats) i)
                          (seq 0 (hidden_size nc)))).
    { apply pysum_map_le. intros i Hi. apply (Hterm i Hi). exact Hc. }
    lra.
  - assert (pysum (map (fun i => get (w2 nc') i * get (hidden nc' feats) i)
                       (seq 0 (hidden_size nc)))
            <= pysum (map (fun i => get (w2 nc) i * get (hidden nc feats) i)
                          (seq 0 (hidden_size nc)))).
    { apply pysum_map_le. intros i Hi. apply (Hterm i Hi). exact Hc. }
    lra.
Qed.

Lemma decide_duration (nc : t) (s : State) :
  duration (fst (decide nc s)) = 4 + 12 * sigmoid (raw_out nc (encode s)).
Proof. reflexivity. Qed.

Lemma decide_keeps_weights (nc : t) (s : State) :
  snd (decide nc s)
  = with_memory (memory nc ++ [{| features := encode s;
                                  pred_norm := fst (forward nc (encode s)) |}]) nc.
Proof. reflexivity. Qed.

Lemma with_memory_well_shaped (m : list Transition) (nc : t) :
  well_shaped nc -> well_shaped (with_memory m nc).
Proof. intros Hwf. exact Hwf. Qed.

(** C8, amended.  For a controller with the shapes the constructor gives
    and a non-negative learning rate (the default is 0.01), in exact
    arithmetic: after [decide] on a state and one [learn], [decide] on the
    same state returns a duration that is not smaller when the reward is
    positive and not larger when it is negative. *)
Theorem learn_nudges_duration (nc : t) (s s' ns : State) (reward : R) :
  well_shaped nc -> 0 <= lr nc ->
  let before := duration (fst (decide nc s)) in
  let learned := learn (snd (decide nc s)) s' reward ns in
  let after := duration (fst (decide learned s)) in
  (0 < reward -> before <= after) /\ (reward < 0 -> after <= before).
Proof.
  intros Hwf Hlr before learned after. subst before after.
  rewrite !decide_duration. subst learned. rewrite decide_keeps_weights.
  set (rec := {| features := encode s; pred_norm := fst (forward nc (encode s)) |}).
  set (nc1 := with_memory (memory nc ++ [rec]) nc).
  assert (Hrev : rev (memory nc1) = rec :: rev (memory nc)) by (simpl; apply rev_unit).
  destruct (learn_raw_out nc1 s' reward ns rec (rev (memory nc))
              (with_memory_well_shaped _ nc Hwf) Hrev) as [Hup Hdown].
  cbv zeta in Hup, Hdown. simpl features in Hup, Hdown.
  change (lr nc1) with (lr nc) in Hup, Hdown.
  change (raw_out nc1 (encode s)) with (raw_out nc (encode s)) in Hup, Hdown.
  destruct (grad_out_sign (sigmoid (raw_out nc (encode s))) reward (sigmoid_range _))
    as (Hpos & Hneg & _).
  split; intros Hr.
  - specialize (Hpos Hr).
    assert (Hm := sigmoid_mono _ _ (Hup ltac:(nra))). lra.
  - specialize (Hneg Hr).
    assert (Hm := sigmoid_mono _ _ (Hdown ltac:(nra))). lra.
Qed.

Lemma learn_nudges_duration_witness :
  duration (fst (decide (default (fun _ => 0)) quiet_state))
  <= duration (fst (decide (learn (snd (decide (default (fun _ => 0)) quiet_state))
                                  quiet_state 1 quiet_state) quiet_state)).
Proof.
  refine (proj1 (learn_nudges_duration (default (fun _ => 0)) quiet_state quiet_state
                   quiet_state 1 _ _) _).
  - unfold well_shaped. simpl. repeat split; try lia. repeat constructor.
  - simpl. lra.
  - lra.
Defined.

(** The constructor gives the shapes, and [decide] and [learn] keep them. *)
Lemma init_well_shaped (isz hsz : nat) (rate : R) (m : list Transition) (draw : nat -> R) :
  (isz <= 5)%nat -> well_shaped (init isz hsz rate m draw).
Proof.
  intros Hi. unfold well_shaped. simpl. rewrite !length_map, !length_seq.
  repeat split; try assumption.
  apply Forall_forall. intros row Hrow. apply in_map_iff in Hrow.
  destruct Hrow as (i & <- & _). rewrite length_map, length_seq. reflexivity.
Qed.

Lemma decide_well_shaped (nc : t) (s : State) :
  well_shaped nc -> well_shaped (snd (decide nc s)).
Proof. intros Hwf. exact Hwf. Qed.

Lemma learn_well_shaped (nc : t) (s : State) (r : R) (ns : State) :
  well_shaped nc -> well_shaped (learn nc s r ns).
Proof.
  intros Hwf. destruct (rev (memory nc)) as [|last rest] eqn:Hrev.
  - unfold learn. rewrite Hrev. exact Hwf.
  - rewrite (learn_unfold nc s r ns last rest Hrev). cbv zeta.
    destruct Hwf as (Hin & Hw1 & Hrows & Hb1 & Hw2).
    set (g := grad_out_of _ r).
    destruct (learn_loop_spec (lr nc) g (hidden nc (features last)) (features last)
                (input_size nc) (hidden_size nc) (w1 nc) (b1 nc) (w2 nc))
      as (L1 & Lb & L2 & Hget); [lia | lia | lia |].
    cbv zeta in L1, Lb, L2, Hget.
    set (loop := fold_left _ _ _) in *.
    unfold well_shaped. simpl. rewrite L1, Lb, L2.
    repeat split; try assumption.
    apply Forall_forall. intros row Hrow.
    destruct (In_nth _ _ [] Hrow) as (i & Hi & <-).
    destruct (Hget i) as (_ & _ & ->).
    rewrite L1, Hw1 in Hi.
    replace (i <? hidden_size nc)%nat with true by (symmetry; apply Nat.ltb_lt; exact Hi).
    assert (Hlen : List.length (nth i (w1 nc) []) = input_size nc).
    { rewrite Forall_forall in Hrows. apply Hrows. apply nth_In. lia. }
    destruct (learn_row_spec (lr nc) (grad_h_at (lr nc) g (hidden nc (features last)) (w2 nc) i)
                (features last) (input_size nc) (nth i (w1 nc) [])) as [Hl _]; [lia|].
    cbv zeta in Hl. rewrite Hl. exact Hlen.
Qed.


(** *** A negative learning rate *)

Lemma sigmoid_strict (x y : R) : x < y -> sigmoid x < sigmoid y.
Proof.
  intros Hxy. unfold sigmoid.
  assert (Hx : 0 < exp (- x)) by apply exp_pos.
  assert (Hy : 0 < exp (- y)) by apply exp_pos.
  assert (Hlt : exp (- y) < exp (- x)) by (apply exp_increasing; lra).
  unfold Rdiv. rewrite !Rmult_1_l.
  apply Rinv_lt_contravar; [|lra].
  apply Rmult_lt_0_compat; lra.
Qed.

(** The output gradient is not zero under a positive reward. *)
Lemma grad_out_negative (p r : R) : 0 < p < 1 -> 0 < r -> grad_out_of p r < 0.
Proof.
  intros [Hp0 Hp1] Hr. unfold grad_out_of. cbv zeta.
  set (target := Rmax 0 (Rmin 1 (p + 3 / 10 * Rmax (-1) (Rmin 1 (r / 20))))).
  assert (Hpp : 0 < p * (1 - p)) by nra.
  assert (Ht : p < target).
  { subst target. unfold Rmax, Rmin.
    repeat match goal with
           | |- context [Rle_dec ?a ?b] => destruct (Rle_dec a b)
           | _ : context [Rle_dec ?a ?b] |- _ => destruct (Rle_dec a b)
           end; lra. }
  rewrite Rmult_assoc. nra.
Qed.

(** The output unit's weighted input moves by at least the step of the
    output bias. *)
Lemma learn_raw_out_gap (nc : t) (s : State) (r : R) (ns : State) (last : Transition)
    (rest : list Transition) :
  well_shaped nc -> rev (memory nc) = last :: rest ->
  let feats := features last in
  let g := grad_out_of (sigmoid (raw_out nc feats)) r in
  0 <= lr nc * g -> raw_out (learn nc s r ns) feats <= raw_out nc feats - lr nc * g.
Proof.
  intros Hwf Hrev feats g Hc.
  destruct (learn_effect nc s r ns last rest Hwf Hrev) as (Hhs & Hb2 & Hunits).
  cbv zeta in Hhs, Hb2, Hunits. fold feats in Hhs, Hb2, Hunits. fold g in Hb2, Hunits.
  set (nc' := learn nc s r ns) in *.
  assert (Hsum : pysum (map (fun i => get (w2 nc') i * get (hidden nc' feats) i)
                            (seq 0 (hidden_size nc)))
                 <= pysum (map (fun i => get (w2 nc) i * get (hidden nc feats) i)
                               (seq 0 (hidden_size nc)))).
  { apply pysum_map_le. intros i Hi. apply in_seq in Hi.
    destruct (Hunits i ltac:(lia)) as [Gw2 Gpre].
    rewrite (hidden_get nc' feats i) by (rewrite Hhs; lia).
    rewrite Gw2, Gpre. unfold grad_h_at.
    rewrite (hidden_get nc feats i) by lia.
    apply (unit_term_moves (lr nc) g (get (w2 nc) i) (pre_act nc feats i)
             (sq_norm (input_size nc) feats)); [apply pysum_map_sqr_nonneg | exact Hc]. }
  unfold raw_out. rewrite Hhs, Hb2. lra.
Qed.

(** With a negative learning rate a positive reward makes the next
    duration for the same state strictly smaller, whatever the weights. *)
Lemma negative_rate_reverses (nc : t) (s s' ns : State) (reward : R) :
  well_shaped nc -> lr nc < 0 -> 0 < reward ->
  duration (fst (decide (learn (snd (decide nc s)) s' reward ns) s))
  < duration (fst (decide nc s)).
Proof.
  intros Hwf Hlr Hr. rewrite !decide_duration, decide_keeps_weights.
  set (rec := {| features := encode s; pred_norm := fst (forward nc (encode s)) |}).
  set (nc1 := with_memory (memory nc ++ [rec]) nc).
  assert (Hrev : rev (memory nc1) = rec :: rev (memory nc)) by (simpl; apply rev_unit).
  pose proof (learn_raw_out_gap nc1 s' reward ns rec (rev (memory nc))
                (with_memory_well_shaped _ nc Hwf) Hrev) as Hgap.
  cbv zeta in Hgap. simpl features in Hgap.
  change (lr nc1) with (lr nc) in Hgap.
  change (raw_out nc1 (encode s)) with (raw_out nc (encode s)) in Hgap.
  pose proof (grad_out_negative (sigmoid (raw_out nc (encode s))) reward
                (sigmoid_range _) Hr) as Hg.
  assert (Hpos : 0 < lr nc * grad_out_of (sigmoid (raw_out nc (encode s))) reward) by nra.
  specialize (Hgap (Rlt_le _ _ Hpos)).
  assert (Hm := sigmoid_strict (raw_out (learn nc1 s' reward ns) (encode s))
                  (raw_out nc (encode s)) ltac:(lra)).
  lra.
Qed.

(** C8, as the specification states it, fails for a controller with a
    negative learning rate: with [lr = -1] a reward of 20 makes the next
    duration for the same state strictly smaller. *)
Lemma learn_negative_rate_counterexample :
  lr reversed_controller = -1
  /\ well_shaped reversed_controller
  /\ duration (fst (decide (learn (snd (decide reversed_controller quiet_state))
                                  quiet_state 20 quiet_state) quiet_state))
     < duration (fst (decide reversed_controller quiet_state))
  /\ ~ nudged_by_reward reversed_controller quiet_state quiet_state quiet_state 20.
Proof.
  assert (Hwf : well_shaped reversed_controller) by (apply init_well_shaped; lia).
  assert (Hlt := negative_rate_reverses reversed_controller quiet_state quiet_state
                   quiet_state 20 Hwf ltac:(simpl; lra) ltac:(lra)).
  split; [reflexivity|]. split; [exact Hwf|]. split; [exact Hlt|].
  unfold nudged_by_reward. cbv zeta. intros [Hup _].
  specialize (Hup ltac:(lra)). lra.
Qed.
End NeuralFacts.

(** * Further properties *)

(** ** Intersection.step: conservation, alternation, reward, service edges *)

(** The reward and the wait proxy the step returns. *)
Lemma step_reward {F} `{PyFloat F} (self : Intersection.t) (a : Arrivals) (d : Decision F) :
  let log := fst (fst (Intersection.step self a d)) in
  snd (fst (Intersection.step self a d))
  = (of_int (throughput log) - avg_wait_proxy log - lit 3 10 * of_int (stops log))%num
  /\ avg_wait_proxy log
     = (if log_queue_ns log + log_queue_ew log =? 0 then of_int 0
        else (of_int (log_queue_ns log + log_queue_ew log) / of_int 2)%num)
  /\ log_emergency log = a_emergency a
  /\ log_step log = a_step a
  /\ log_time_of_day log = a_time_of_day a
  /\ log_intersection log = Intersection.intersection_id self
  /\ Intersection.intersection_id (snd (Intersection.step self a d))
     = Intersection.intersection_id self.
Proof.
  step_cases a d; repeat split; reflexivity.
Qed.

(** The invariant of an intersection survives a step (the queues for any
    duration, the phase when the target phase is a phase). *)
Lemma step_keeps_inv {F} `{PyFloat F} (self : Intersection.t) (a : Arrivals) (d : Decision F) :
  Intersection.inv self -> 0 <= arrivals_ns a -> 0 <= arrivals_ew a ->
  (forall p, target_phase d = Some p -> Intersection.valid_phase p) ->
  Intersection.inv (snd (Intersection.step self a d)).
Proof.
  intros (Hns & Hew & Hph) Hans Haew Htp.
  destruct (step_service self a d) as (_ & _ & _ & _ & Hsrv). cbv zeta in Hsrv.
  assert (Hq : 0 <= Intersection.queue_ns (snd (Intersection.step self a d))
               /\ 0 <= Intersection.queue_ew (snd (Intersection.step self a d))).
  { destruct (_ =? "NS")%string; destruct Hsrv as (_ & _ & H1 & H2 & _);
      rewrite H1, H2; lia. }
  destruct Hq as [Hq1 Hq2]. clear Hsrv.
  unfold Intersection.inv. repeat split; try assumption.
  rewrite step_next_phase, step_phase_used.
  destruct (target_phase d) as [p|] eqn:Et, (a_emergency a).
  - destruct (_ >=? _); [left | right]; reflexivity.
  - apply Htp. reflexivity.
  - destruct (_ >=? _); [left | right]; reflexivity.
  - destruct (_ =? _)%string; [right | left]; reflexivity.
Qed.

(** X1.  A step neither creates nor loses vehicles: what waits afterwards
    plus the logged throughput is what waited before plus the arrivals; one
    of the two approaches is served nothing, and the identity and the
    service rate of the intersection are kept.  This holds for every
    decision, negative durations included. *)
Theorem step_conserves_vehicles {F} `{PyFloat F} (self : Intersection.t) (a : Arrivals)
    (d : Decision F) :
  let log := fst (fst (Intersection.step self a d)) in
  let self' := snd (Intersection.step self a d) in
  Intersection.queue_ns self' + Intersection.queue_ew self' + throughput log
  = Intersection.queue_ns self + Intersection.queue_ew self + arrivals_ns a + arrivals_ew a
  /\ Intersection.queue_ns self' = Intersection.queue_ns self + arrivals_ns a - served_ns log
  /\ Intersection.queue_ew self' = Intersection.queue_ew self + arrivals_ew a - served_ew log
  /\ (served_ns log = 0 \/ served_ew log = 0)
  /\ Intersection.service_rate self' = Intersection.service_rate self
  /\ Intersection.intersection_id self' = Intersection.intersection_id self.
Proof.
  cbv zeta.
  destruct (step_service self a d) as (Hrate & _ & _ & Hthr & Hsrv). cbv zeta in Hsrv.
  destruct (step_reward self a d) as (_ & _ & _ & _ & _ & _ & Hid).
  rewrite Hthr.
  destruct (_ =? "NS")%string; destruct Hsrv as (H1 & H2 & H3 & H4 & _);
    rewrite H1, H2, H3, H4; repeat split; try lia; try assumption; auto.
Qed.

(** X2.  Without an emergency and without a target phase the step serves
    the approach that has right of way and hands it to the other one: two
    such steps in a row serve the two approaches in turn and return the
    phase to where it was. *)
Theorem step_alternates_phase {F} `{PyFloat F} (self : Intersection.t) (a1 a2 : Arrivals)
    (d1 d2 : Decision F) :
  Intersection.valid_phase (Intersection.phase self) ->
  a_emergency a1 = false -> a_emergency a2 = false ->
  target_phase d1 = None -> target_phase d2 = None ->
  let r1 := Intersection.step self a1 d1 in
  let r2 := Intersection.step (snd r1) a2 d2 in
  phase_used (fst (fst r1)) = Intersection.phase self
  /\ Intersection.phase (snd r1) = other_phase (Intersection.phase self)
  /\ phase_used (fst (fst r2)) = other_phase (Intersection.phase self)
  /\ Intersection.phase (snd r2) = Intersection.phase self.
Proof.
  intros Hph He1 He2 Ht1 Ht2 r1 r2.
  assert (P1 : phase_used (fst (fst r1)) = Intersection.phase self).
  { subst r1. rewrite step_phase_used, He1, Ht1. reflexivity. }
  assert (N1 : Intersection.phase (snd r1) = other_phase (Intersection.phase self)).
  { subst r1. rewrite step_next_phase, He1, Ht1. reflexivity. }
  assert (P2 : phase_used (fst (fst r2)) = Intersection.phase (snd r1)).
  { subst r2. rewrite step_phase_used, He2, Ht2. reflexivity. }
  assert (N2 : Intersection.phase (snd r2) = other_phase (Intersection.phase (snd r1))).
  { subst r2. rewrite step_next_phase, He2, Ht2. reflexivity. }
  rewrite P1, N2, P2, N1. repeat split.
  destruct Hph as [-> | ->]; reflexivity.
Qed.

Lemma step_alternates_phase_witness :
  Intersection.phase
    (snd (Intersection.step (snd (Intersection.step (Intersection.init 0 1) calm_arrivals
                                    fixed_decision))
            calm_arrivals fixed_decision)) = "NS".
Proof.
  refine (proj2 (proj2 (proj2
    (step_alternates_phase (Intersection.init 0 1) calm_arrivals calm_arrivals
       fixed_decision fixed_decision _ eq_refl eq_refl eq_refl eq_refl)))).
  left. reflexivity.
Defined.

(** X3.  On an intersection with non-negative queues and non-negative
    arrivals, in exact arithmetic: the wait proxy is half the vehicles left
    waiting, the stops are the queue of the approach that was not served
    (between 0 and the vehicles left waiting), and the reward is
    [throughput - wait - 0.3 * stops], never more than the throughput. *)
Theorem step_reward_bounded (self : Intersection.t) (a : Arrivals) (d : Decision R) :
  Intersection.inv self -> 0 <= arrivals_ns a -> 0 <= arrivals_ew a ->
  let log := fst (fst (Intersection.step self a d)) in
  let reward := snd (fst (Intersection.step self a d)) in
  avg_wait_proxy log = (IZR (log_queue_ns log + log_queue_ew log) / 2)%R
  /\ 0 <= stops log <= log_queue_ns log + log_queue_ew log
  /\ reward = (IZR (throughput log) - IZR (log_queue_ns log + log_queue_ew log) / 2
               - 3 / 10 * IZR (stops log))%R
  /\ (reward <= IZR (throughput log))%R.
Proof.
  intros (Hns & Hew & _) Hans Haew log reward.
  destruct (step_reward self a d) as (Hrew & Havg & _). fold log in Hrew, Havg.
  fold reward in Hrew.
  destruct (step_service self a d) as (_ & Hlns & Hlew & _ & Hsrv).
  fold log in Hlns, Hlew, Hsrv. cbv zeta in Hsrv.
  assert (Hwait : avg_wait_proxy log = (IZR (log_queue_ns log + log_queue_ew log) / 2)%R).
  { rewrite Havg. destruct (_ =? 0) eqn:E; simpl; [|reflexivity].
    apply Z.eqb_eq in E. rewrite E. simpl. lra. }
  assert (Hstops : 0 <= stops log <= log_queue_ns log + log_queue_ew log).
  { rewrite Hlns, Hlew.
    destruct (_ =? "NS")%string; destruct Hsrv as (_ & _ & H1 & H2 & H3);
      rewrite H1, H2, H3; lia. }
  assert (Hform : reward = (IZR (throughput log)
                            - IZR (log_queue_ns log + log_queue_ew log) / 2
                            - 3 / 10 * IZR (stops log))%R).
  { rewrite Hrew, Hwait. unfold lit. simpl. reflexivity. }
  repeat split; try assumption; try lia.
  rewrite Hform.
  assert (0 <= IZR (stops log))%R by (apply IZR_le; lia).
  assert (0 <= IZR (log_queue_ns log + log_queue_ew log))%R by (apply IZR_le; lia).
  lra.
Qed.

Lemma step_reward_bounded_witness :
  (snd (fst (Intersection.step (Intersection.init 0 1) three_ns_arrivals fractional_decision))
   <= IZR (throughput (fst (fst (Intersection.step (Intersection.init 0 1) three_ns_arrivals
                                   fractional_decision)))))%R.
Proof.
  refine (proj2 (proj2 (proj2
    (step_reward_bounded (Intersection.init 0 1) three_ns_arrivals fractional_decision
       _ _ _)))).
  - repeat split; simpl; try lia. left; reflexivity.
  - simpl; lia.
  - simpl; lia.
Defined.

(** A number at or above an integer truncates to at least that integer. *)
Lemma Rtrunc_ge (x : R) (z : Z) : 0 <= z -> (IZR z <= x)%R -> z <= Rtrunc x.
Proof.
  intros Hz Hx.
  assert (H0 : (0 <= x)%R) by (apply IZR_le in Hz; simpl in Hz; lra).
  destruct (Rtrunc_nonneg x H0) as [_ [_ Hhi]].
  assert (z < Rtrunc x + 1); [|lia].
  apply lt_IZR. rewrite plus_IZR. simpl. lra.
Qed.

(** [int()] of a number in [0, 1) is 0, in exact arithmetic and in
    binary64. *)
Lemma Rtrunc_fraction (x : R) :
  (x <? of_int 0)%num = false -> (x <? of_int 1)%num = true -> to_int x = 0.
Proof.
  simpl. intros H0 H1. apply Rltb_false in H0. apply Rltb_true in H1.
  apply Rtrunc_nonneg_unique; simpl; lra.
Qed.

Lemma digits2_pos_bound (m : positive) : Z.pos m < 2 ^ Z.pos (digits2_pos m).
Proof.
  induction m as [m IH | m IH |]; simpl digits2_pos.
  - rewrite Pos2Z.inj_succ, Z.pow_succ_r by lia. lia.
  - rewrite Pos2Z.inj_succ, Z.pow_succ_r by lia. lia.
  - reflexivity.
Qed.

Lemma b64_to_int_fraction (x : float) :
  (x <? of_int 0)%num = false -> (x <? of_int 1)%num = true -> to_int x = 0.
Proof.
  simpl. intros H0 H1. rewrite ltb_spec in H0, H1.
  assert (E0 : Prim2SF (b64_of_int 0) = S754_zero false) by (vm_compute; reflexivity).
  assert (E1 : Prim2SF (b64_of_int 1) = S754_finite false 4503599627370496 (-52))
    by (vm_compute; reflexivity).
  rewrite E0 in H0. rewrite E1 in H1.
  pose proof (Prim2SF_valid x) as Hv.
  unfold b64_to_int. destruct (Prim2SF x) as [s | s | | s m e]; try reflexivity.
  destruct s; [discriminate H0|].
  unfold SFltb, SFcompare in H1.
  unfold valid_binary, bounded, canonical_mantissa, fexp, emin in Hv.
  apply andb_true_iff in Hv. destruct Hv as [Hc _]. apply Z.eqb_eq in Hc.
  assert (Hd : Z.pos (digits2_pos m) <= 53) by (unfold prec, emax in Hc; lia).
  pose proof (digits2_pos_bound m) as Hm.
  assert (Hm53 : Z.pos m < 2 ^ 53).
  { eapply Z.lt_le_trans; [exact Hm|]. apply Z.pow_le_mono_r; lia. }
  destruct (Z.compare_spec e (-52)) as [He | He | He]; try discriminate H1.
  - subst e. destruct (Pos.compare_cont Eq m 4503599627370496) eqn:Ecmp;
      try discriminate H1.
    assert (Hlt : (m < 4503599627370496)%positive) by exact Ecmp.
    apply Pos2Z.pos_lt_pos in Hlt.
    change (0 <=? -52) with false. cbv iota.
    apply Z.div_small. split; [apply Pos2Z.is_nonneg|].
    change (2 ^ (- -52)) with 4503599627370496. exact Hlt.
  - destruct (0 <=? e) eqn:Ee; [apply Z.leb_le in Ee; lia|].
    apply Z.div_small. split; [apply Pos2Z.is_nonneg|].
    eapply Z.lt_le_trans; [exact Hm53|]. apply Z.pow_le_mono_r; lia.
Qed.

(** X4.  The two edges of the service capacity, without an emergency and
    with non-negative queues after the arrivals, in any arithmetic in which
    [int()] of a number in [0, 1) is 0 (the exact one and binary64, by the
    two lemmas above).  When the product [service_rate * duration], as
    computed, is in [0, 1) (a duration of 0, or a fraction of a service
    interval) nothing is served and both queues are left as the arrivals
    made them; when its integer part covers the queue of the approach with
    right of way, that queue is served whole and ends empty. *)
Theorem step_service_edges {F} `{PyFloat F} (self : Intersection.t) (a : Arrivals)
    (d : Decision F) :
  (forall x : F, (x <? of_int 0)%num = false -> (x <? of_int 1)%num = true -> to_int x = 0) ->
  a_emergency a = false ->
  0 <= Intersection.queue_ns self + arrivals_ns a ->
  0 <= Intersection.queue_ew self + arrivals_ew a ->
  let log := fst (fst (Intersection.step self a d)) in
  let self' := snd (Intersection.step self a d) in
  let p := (of_int (Intersection.service_rate self) * duration d)%num in
  ((p <? of_int 0)%num = false -> (p <? of_int 1)%num = true ->
   throughput log = 0
   /\ Intersection.queue_ns self' = Intersection.queue_ns self + arrivals_ns a
   /\ Intersection.queue_ew self' = Intersection.queue_ew self + arrivals_ew a)
  /\ (Intersection.pre_service_queue self a log <= to_int p ->
      throughput log = Intersection.pre_service_queue self a log
      /\ (if (phase_used log =? "NS")%string
          then Intersection.queue_ns self' = 0
          else Intersection.queue_ew self' = 0)).
Proof.
  intros Hint Hem Hqns Hqew log self' p.
  destruct (step_service self a d) as (_ & _ & _ & Hthr & Hsrv).
  fold log in Hthr, Hsrv. fold self' in Hsrv. cbv zeta in Hsrv.
  assert (Hdur : log_duration log = duration d).
  { subst log. rewrite step_log_duration, Hem. reflexivity. }
  rewrite Hdur in Hsrv. fold p in Hsrv.
  unfold Intersection.pre_service_queue. split.
  - intros Hp0 Hp1. rewrite (Hint p Hp0 Hp1) in Hsrv. rewrite Hthr.
    destruct (phase_used log =? "NS")%string;
      destruct Hsrv as (H1 & H2 & H3 & H4 & _); rewrite H1, H2, H3, H4; lia.
  - destruct (phase_used log =? "NS")%string; intros Hx;
      destruct Hsrv as (H1 & H2 & H3 & H4 & _); rewrite Hthr, H1, H2, H3; lia.
Qed.

Lemma step_service_edges_witness :
  throughput (fst (fst (Intersection.step (Intersection.init 0 1) three_ns_arrivals
                          half_decision))) = 0
  /\ throughput (fst (fst (Intersection.step (Intersection.init 0 1) three_ns_arrivals
                             fractional_decision))) = 3.
Proof.
  split.
  - refine (proj1 (proj1
      (step_service_edges (Intersection.init 0 1) three_ns_arrivals half_decision
         b64_to_int_fraction eq_refl _ _) _ _)).
    + simpl; lia.
    + simpl; lia.
    + vm_compute. reflexivity.
    + vm_compute. reflexivity.
  - refine (proj1 (proj2
      (step_service_edges (Intersection.init 0 1) three_ns_arrivals fractional_decision
         Rtrunc_fraction eq_refl _ _) _)).
    + simpl; lia.
    + simpl; lia.
    + unfold Intersection.pre_service_queue. rewrite step_phase_used. simpl.
      replace (1 * (9 / 2))%R with (9 / 2)%R by lra.
      assert (Hk : Rtrunc (9 / 2) = 4) by (apply Rtrunc_nonneg_unique; simpl; lra).
      rewrite Hk. lia.
Defined.

(** X5.  Under an emergency override, with a service rate of at least 1 and
    non-negative queues after the arrivals, in exact arithmetic: the longer
    queue is the one served, at least [min(queue, 5)] of its vehicles leave
    whatever duration the controller asked for, and the forced phase is the
    phase the intersection keeps. *)
Theorem step_emergency_serves (self : Intersection.t) (a : Arrivals) (d : Decision R) :
  a_emergency a = true ->
  1 <= Intersection.service_rate self ->
  0 <= Intersection.queue_ns self + arrivals_ns a ->
  0 <= Intersection.queue_ew self + arrivals_ew a ->
  let log := fst (fst (Intersection.step self a d)) in
  let self' := snd (Intersection.step self a d) in
  let longer := Z.max (Intersection.queue_ns self + arrivals_ns a)
                      (Intersection.queue_ew self + arrivals_ew a) in
  Intersection.pre_service_queue self a log = longer
  /\ Z.min longer 5 <= throughput log <= longer
  /\ Intersection.phase self' = phase_used log.
Proof.
  intros Hem Hrate Hqns Hqew log self' longer.
  destruct (step_service self a d) as (_ & _ & _ & Hthr & Hsrv).
  fold log in Hthr, Hsrv. fold self' in Hsrv. cbv zeta in Hsrv.
  assert (Hdur : log_duration log = Rmax 5 (duration d)).
  { subst log. rewrite step_log_duration, Hem. apply pymax_Rmax. }
  assert (Hph : phase_used log
                = if Intersection.queue_ns self + arrivals_ns a
                     >=? Intersection.queue_ew self + arrivals_ew a
                  then "NS" else "EW").
  { subst log. rewrite step_phase_used, Hem. reflexivity. }
  assert (Hnext : Intersection.phase self' = phase_used log).
  { subst self' log. rewrite step_next_phase, Hem.
    destruct (target_phase d); reflexivity. }
  rewrite Hdur in Hsrv. simpl in Hsrv.
  set (k := Rtrunc (IZR (Intersection.service_rate self) * Rmax 5 (duration d))) in *.
  assert (Hk : 5 <= k).
  { apply Rtrunc_ge; [lia|].
    pose proof (Rmax_l 5 (duration d)). apply IZR_le in Hrate. simpl in Hrate. nra. }
  unfold Intersection.pre_service_queue. rewrite Hph in *. subst longer.
  destruct (_ >=? _) eqn:E.
  - apply Z.geb_le in E. simpl in *.
    destruct Hsrv as (H1 & H2 & _). rewrite Hthr, H1, H2.
    repeat split; try assumption; lia.
  - rewrite Z.geb_leb in E. apply Z.leb_gt in E. simpl in *.
    destruct Hsrv as (H1 & H2 & _). rewrite Hthr, H1, H2.
    repeat split; try assumption; lia.
Qed.

Lemma step_emergency_serves_witness :
  Z.min (Z.max 10 3) 5
  <= throughput (fst (fst (Intersection.step (Intersection.init 0 1) emergency_arrivals
                             short_ew_decision))).
Proof.
  refine (proj1 (proj1 (proj2
    (step_emergency_serves (Intersection.init 0 1) emergency_arrivals short_ew_decision
       eq_refl _ _ _)))); simpl; lia.
Defined.

(** ** The fixed plan on one intersection *)

Lemma other_phase_involutive (p : string) :
  Intersection.valid_phase p -> other_phase (other_phase p) = p.
Proof. intros [-> | ->]; reflexivity. Qed.

Lemma other_phase_valid (p : string) : Intersection.valid_phase (other_phase p).
Proof. unfold other_phase. destruct (_ =? _)%string; [right | left]; reflexivity. Qed.

Lemma plan_duration_values (time_of_day : string) :
  (time_of_day = "morning" /\ plan_duration time_of_day = 12)
  \/ (time_of_day = "afternoon" /\ plan_duration time_of_day = 10)
  \/ (time_of_day = "night" /\ plan_duration time_of_day = 6)
  \/ (time_of_day <> "morning" /\ time_of_day <> "afternoon" /\ time_of_day <> "night"
      /\ plan_duration time_of_day = 10).
Proof.
  unfold plan_duration, FixedTimeController.plans. simpl.
  destruct (String.eqb_spec time_of_day "morning") as [-> | H1]; [left; split; reflexivity|].
  destruct (String.eqb_spec time_of_day "afternoon") as [-> | H2];
    [right; left; split; reflexivity|].
  destruct (String.eqb_spec time_of_day "night") as [-> | H3];
    [right; right; left; split; reflexivity|].
  right; right; right. repeat split; assumption.
Qed.

(** One pass of the driver's loop under the fixed plan. *)
Lemma drive_unfold {F} `{PyFloat F} (logs : list (LogRecord F)) (it : Intersection.t)
    (a : Arrivals) :
  let d := FixedTimeController.decide
             (Intersection.observe_state it (a_time_of_day a) (a_emergency a)) in
  FixedTimeController.drive (logs, it) a
  = ((logs ++ [fst (fst (Intersection.step it a d))])%list, snd (Intersection.step it a d)).
Proof.
  unfold FixedTimeController.drive. cbv zeta.
  destruct (Intersection.step it a _) as [[log r] it']. reflexivity.
Qed.

Lemma drive_fold_spec {F} `{PyFloat F} (tod : string) (stream : list Arrivals) :
  Forall (fun a => a_emergency a = false /\ a_time_of_day a = tod) stream ->
  forall (logs0 : list (LogRecord F)) (it : Intersection.t),
    Intersection.valid_phase (Intersection.phase it) ->
    exists logs,
      fst (fold_left FixedTimeController.drive stream (logs0, it)) = (logs0 ++ logs)%list
      /\ List.length logs = List.length stream
      /\ forall i log, nth_error logs i = Some log ->
           log_duration log = of_int (plan_duration tod)
           /\ phase_used log = (if Nat.even i then Intersection.phase it
                                else other_phase (Intersection.phase it)).
Proof.
  induction 1 as [|a rest [Hem Htod] Hrest IH]; intros logs0 it Hph.
  - exists []. simpl. rewrite app_nil_r. split; [reflexivity|]. split; [reflexivity|].
    intros [|i] log Hn; discriminate Hn.
  - cbn [fold_left]. rewrite drive_unfold. cbv zeta.
    set (d := FixedTimeController.decide _).
    set (log0 := fst (fst (Intersection.step it a d))).
    set (it' := snd (Intersection.step it a d)).
    assert (Hnext : Intersection.phase it' = other_phase (Intersection.phase it)).
    { subst it'. rewrite step_next_phase, Hem. reflexivity. }
    destruct (IH (logs0 ++ [log0])%list it') as (logs & Hfst & Hlen & Hlogs).
    { rewrite Hnext. apply other_phase_valid. }
    exists (log0 :: logs). split; [|split].
    + rewrite Hfst, <- app_assoc. reflexivity.
    + simpl. rewrite Hlen. reflexivity.
    + intros [|i] log Hn.
      * injection Hn as <-. subst log0. rewrite step_log_duration, step_phase_used, Hem.
        subst d. simpl. rewrite Htod. split; reflexivity.
      * simpl in Hn. destruct (Hlogs i log Hn) as [Hd Hp]. split; [exact Hd|].
        rewrite Hp, Hnext, Nat.even_succ, <- Nat.negb_even.
        destruct (Nat.even i); simpl; [reflexivity|].
        apply other_phase_involutive. exact Hph.
Qed.

(** X6.  The fixed plan on one intersection, for a stream without
    emergencies and with one time of day: the driver logs one row per step,
    every row has the plan's duration for that time of day (12, 10 or 6, and
    10 for any other label), and the phases used alternate, beginning with
    the phase the intersection had. *)
Theorem fixed_plan_alternates {F} `{PyFloat F} (tod : string) (stream : list Arrivals)
    (it : Intersection.t) :
  Forall (fun a => a_emergency a = false /\ a_time_of_day a = tod) stream ->
  Intersection.valid_phase (Intersection.phase it) ->
  let logs := fst (fold_left FixedTimeController.drive stream ([], it)) in
  List.length logs = List.length stream
  /\ (forall i log, nth_error logs i = Some log ->
        log_duration log = of_int (plan_duration tod)
        /\ phase_used log = (if Nat.even i then Intersection.phase it
                             else other_phase (Intersection.phase it)))
  /\ (plan_duration tod = 12 \/ plan_duration tod = 10 \/ plan_duration tod = 6)
  /\ (tod <> "morning" -> tod <> "afternoon" -> tod <> "night" -> plan_duration tod = 10).
Proof.
  intros Hstream Hph logs.
  destruct (drive_fold_spec tod stream Hstream [] it Hph) as (l & Hfst & Hlen & Hlogs).
  subst logs. rewrite Hfst. simpl.
  split; [exact Hlen|]. split; [exact Hlogs|].
  destruct (plan_duration_values tod) as [[T E] | [[T E] | [[T E] | (N1 & N2 & N3 & E)]]];
    rewrite E; (split; [tauto|]); intros; try reflexivity; contradiction.
Qed.

Lemma fixed_plan_alternates_witness :
  List.length (fst (fold_left (FixedTimeController.drive (F := float))
                              [calm_arrivals; calm_arrivals] ([], Intersection.init 0 1)))
  = 2%nat.
Proof.
  refine (proj1 (fixed_plan_alternates (F := float) "afternoon" [calm_arrivals; calm_arrivals]
                   (Intersection.init 0 1) _ _)).
  - repeat constructor.
  - left. reflexivity.
Defined.

(** ** MultiIntersectionNetwork.step: errors, shape, invariants *)

(** The first loop of [step] returns when there is an arrival record for
    every intersection. *)
Lemma apply_inflows_total {A : Type} (zeros : list A) (n : nat) (arrivals : list Arrivals) :
  (n <= List.length zeros)%nat -> (n <= List.length arrivals)%nat ->
  MultiIntersectionNetwork.apply_inflows n (map (fun _ => 0) zeros) arrivals = Some arrivals.
Proof.
  unfold MultiIntersectionNetwork.apply_inflows.
  induction n as [|n IH]; intros Hz Ha; [reflexivity|].
  rewrite seq_S, fold_left_app, IH by lia. simpl. unfold bind.
  destruct (nth_error arrivals n) as [a|] eqn:Ea;
    [|apply nth_error_None in Ea; lia].
  destruct (nth_error (map (fun _ => 0) zeros) n) as [k|] eqn:Ek;
    [|apply nth_error_None in Ek; rewrite length_map in Ek; lia].
  apply nth_error_In, in_map_iff in Ek. destruct Ek as (_ & <- & _).
  f_equal. apply list_set_nth_error_id. rewrite Ea. f_equal.
  destruct a. unfold MultiIntersectionNetwork.add_arrivals_ns. simpl. f_equal. lia.
Qed.

(** The second loop of [step] returns when there are an arrival record and
    a decision for every intersection it visits. *)
Lemma service_loop_total {F} `{PyFloat F} (inters : list Intersection.t)
    (arrivals : list Arrivals) (decisions : list (Decision F)) (inflows : list Z) (k : nat) :
  List.length inflows = List.length inters ->
  (k <= List.length inters)%nat -> (k <= List.length arrivals)%nat ->
  (k <= List.length decisions)%nat ->
  exists st,
    fold_left (MultiIntersectionNetwork.service arrivals decisions) (seq 0 k)
      (Some {| MultiIntersectionNetwork.ls_intersections := inters;
               MultiIntersectionNetwork.ls_logs := [];
               MultiIntersectionNetwork.ls_rewards := [];
               MultiIntersectionNetwork.ls_inflows := inflows |}) = Some st.
Proof.
  intros Hinfl. induction k as [|k IH]; intros Hi Ha Hd.
  - eexists. reflexivity.
  - destruct IH as [stk Hk]; [lia | lia | lia |].
    rewrite seq_S, fold_left_app, Hk. simpl.
    destruct (service_loop_spec inters arrivals decisions inflows k stk Hinfl Hk)
      as (Li & Lf & _ & _ & Hrest & _).
    unfold MultiIntersectionNetwork.service, bind.
    rewrite Hrest by lia.
    destruct (nth_error inters k) as [it|] eqn:Eit; [|apply nth_error_None in Eit; lia].
    destruct (nth_error arrivals k) as [a|] eqn:Ea; [|apply nth_error_None in Ea; lia].
    destruct (nth_error decisions k) as [d|] eqn:Ed; [|apply nth_error_None in Ed; lia].
    destruct (Intersection.step it a d) as [[log reward] it'].
    destruct (k + 1 <? _)%nat eqn:Elt.
    + apply Nat.ltb_lt in Elt.
      destruct (nth_error (MultiIntersectionNetwork.ls_inflows stk) (k + 1)) eqn:Ei;
        [|apply nth_error_None in Ei; lia].
      eexists. reflexivity.
    + eexists. reflexivity.
Qed.

(** What [step] returns, by length and by index. *)
Lemma network_step_shape {F} `{PyFloat F} (self : MultiIntersectionNetwork.t)
    (arrivals arrivals' : list Arrivals) (decisions : list (Decision F))
    (logs : list (LogRecord F)) (rewards : list (nat * F))
    (self' : MultiIntersectionNetwork.t) :
  MultiIntersectionNetwork.step self arrivals decisions
  = Some ((logs, rewards), (self', arrivals')) ->
  let n := List.length (MultiIntersectionNetwork.intersections self) in
  arrivals' = arrivals
  /\ MultiIntersectionNetwork.controller_name self' = MultiIntersectionNetwork.controller_name self
  /\ List.length logs = n /\ List.length rewards = n
  /\ List.length (MultiIntersectionNetwork.intersections self') = n
  /\ (n <= List.length arrivals)%nat /\ (n <= List.length decisions)%nat
  /\ forall i, (i < n)%nat ->
       exists it a d,
         nth_error (MultiIntersectionNetwork.intersections self) i = Some it
         /\ nth_error arrivals i = Some a /\ nth_error decisions i = Some d
         /\ nth_error logs i = Some (fst (fst (Intersection.step it a d)))
         /\ nth_error rewards i = Some (i, snd (fst (Intersection.step it a d)))
         /\ nth_error (MultiIntersectionNetwork.intersections self') i
            = Some (snd (Intersection.step it a d)).
Proof.
  intros Hstep n. unfold MultiIntersectionNetwork.step, bind in Hstep.
  destruct (MultiIntersectionNetwork.apply_inflows _ _ arrivals) as [arr|] eqn:Earr;
    [|discriminate Hstep].
  apply apply_inflows_zero in Earr. subst arr.
  destruct (fold_left _ _ _) as [st|] eqn:Efold; [|discriminate Hstep].
  injection Hstep as <- <- <- <-.
  destruct (service_loop_spec _ arrivals decisions _ _ st
              ltac:(apply length_map) Efold) as (Li & _ & Ll & Lr & _ & Hdone).
  fold n in Li, Ll, Lr, Hdone. simpl.
  assert (Hla : (n <= List.length arrivals)%nat).
  { destruct (Nat.le_gt_cases n (List.length arrivals)) as [Hle | Hgt]; [exact Hle|].
    exfalso. destruct (Hdone (List.length arrivals) Hgt) as (_ & a & _ & _ & Ha & _).
    assert (Hn : nth_error arrivals (List.length arrivals) = None)
      by (apply nth_error_None; lia).
    congruence. }
  assert (Hld : (n <= List.length decisions)%nat).
  { destruct (Nat.le_gt_cases n (List.length decisions)) as [Hle | Hgt]; [exact Hle|].
    exfalso. destruct (Hdone (List.length decisions) Hgt) as (_ & _ & d & _ & _ & Hd & _).
    assert (Hn : nth_error decisions (List.length decisions) = None)
      by (apply nth_error_None; lia).
    congruence. }
  repeat split; try assumption; try reflexivity.
Qed.

(** [step] returns when there are an arrival record and a decision for
    every intersection. *)
Lemma network_step_total {F} `{PyFloat F} (self : MultiIntersectionNetwork.t)
    (arrivals : list Arrivals) (decisions : list (Decision F)) :
  (List.length (MultiIntersectionNetwork.intersections self) <= List.length arrivals)%nat ->
  (List.length (MultiIntersectionNetwork.intersections self) <= List.length decisions)%nat ->
  exists r, MultiIntersectionNetwork.step self arrivals decisions = Some r.
Proof.
  intros Ha Hd. unfold MultiIntersectionNetwork.step, bind.
  rewrite apply_inflows_total by lia.
  destruct (service_loop_total (MultiIntersectionNetwork.intersections self) arrivals
              decisions (map (fun _ => 0) (MultiIntersectionNetwork.intersections self))
              (List.length (MultiIntersectionNetwork.intersections self)))
    as [st Hst]; try lia; [apply length_map|].
  rewrite Hst. eexists. reflexivity.
Qed.

Lemma list_eq_by_index {A : Type} (l1 l2 : list A) :
  List.length l1 = List.length l2 ->
  (forall i a b, nth_error l1 i = Some a -> nth_error l2 i = Some b -> a = b) ->
  l1 = l2.
Proof.
  intros Hlen Hpt. apply nth_error_ext. intros i.
  destruct (nth_error l1 i) as [a|] eqn:E1, (nth_error l2 i) as [b|] eqn:E2.
  - f_equal. exact (Hpt i a b E1 E2).
  - apply nth_error_None in E2.
    assert (i < List.length l1)%nat by (apply nth_error_Some; rewrite E1; discriminate). lia.
  - apply nth_error_None in E1.
    assert (i < List.length l2)%nat by (apply nth_error_Some; rewrite E2; discriminate). lia.
  - reflexivity.
Qed.

(** X7.  [MultiIntersectionNetwork.step] cannot return when the arrivals or
    the decisions are fewer than the intersections: it raises.  When it
    returns, both lists are at least as long as the network and the entries
    beyond the number of intersections are ignored: the logs, the rewards
    and the network are those of the call on the truncated lists. *)
Theorem network_step_needs_full_lists {F} `{PyFloat F} (self : MultiIntersectionNetwork.t)
    (arrivals : list Arrivals) (decisions : list (Decision F)) :
  let n := List.length (MultiIntersectionNetwork.intersections self) in
  ((List.length arrivals < n \/ List.length decisions < n)%nat ->
   MultiIntersectionNetwork.step self arrivals decisions = None)
  /\ (forall logs rewards self' arrivals',
        MultiIntersectionNetwork.step self arrivals decisions
        = Some ((logs, rewards), (self', arrivals')) ->
        (n <= List.length arrivals)%nat /\ (n <= List.length decisions)%nat
        /\ MultiIntersectionNetwork.step self (firstn n arrivals) (firstn n decisions)
           = Some ((logs, rewards), (self', firstn n arrivals))).
Proof.
  intros n. split.
  - intros Hshort.
    destruct (MultiIntersectionNetwork.step self arrivals decisions)
      as [[[logs rewards] [self' arrivals']]|] eqn:Hstep; [|reflexivity].
    destruct (network_step_shape _ _ _ _ _ _ _ Hstep) as (_ & _ & _ & _ & _ & Ha & Hd & _).
    fold n in Ha, Hd. lia.
  - intros logs rewards self' arrivals' Hstep.
    destruct (network_step_shape _ _ _ _ _ _ _ Hstep)
      as (_ & Hname & Hll & Hrl & Hil & Ha & Hd & Hpt).
    fold n in Hll, Hrl, Hil, Ha, Hd, Hpt.
    split; [exact Ha|]. split; [exact Hd|].
    destruct (network_step_total self (firstn n arrivals) (firstn n decisions))
      as [r Hr]; [rewrite length_firstn; fold n; lia | rewrite length_firstn; fold n; lia |].
    destruct r as [[logs2 rewards2] [self2 arrivals2]].
    destruct (network_step_shape _ _ _ _ _ _ _ Hr)
      as (Earr2 & Hname2 & Hll2 & Hrl2 & Hil2 & _ & _ & Hpt2).
    fold n in Hll2, Hrl2, Hil2, Hpt2.
    assert (Hsame : forall i, (i < n)%nat ->
              nth_error logs2 i = nth_error logs i
              /\ nth_error rewards2 i = nth_error rewards i
              /\ nth_error (MultiIntersectionNetwork.intersections self2) i
                 = nth_error (MultiIntersectionNetwork.intersections self') i).
    { intros i Hi.
      destruct (Hpt i Hi) as (it & a0 & d0 & Hit & Ha0 & Hd0 & Hlog & Hrew & Hit').
      destruct (Hpt2 i Hi) as (it2 & a2 & d2 & Hit2 & Ha2 & Hd2 & Hlog2 & Hrew2 & Hit2').
      rewrite nth_error_firstn in Ha2, Hd2.
      destruct (Nat.ltb_spec i n); [|lia].
      rewrite Hit in Hit2. inversion Hit2; subst it2.
      rewrite Ha0 in Ha2. inversion Ha2; subst a2.
      rewrite Hd0 in Hd2. inversion Hd2; subst d2.
      rewrite Hlog, Hrew, Hit', Hlog2, Hrew2, Hit2'. repeat split; reflexivity. }
    assert (Elogs : logs2 = logs).
    { apply list_eq_by_index; [lia|]. intros i x y Hx Hy.
      assert (Hi : (i < n)%nat) by (rewrite <- Hll2; apply nth_error_Some; rewrite Hx; discriminate).
      destruct (Hsame i Hi) as (E & _). rewrite Hx, Hy in E. inversion E. reflexivity. }
    assert (Erew : rewards2 = rewards).
    { apply list_eq_by_index; [lia|]. intros i x y Hx Hy.
      assert (Hi : (i < n)%nat) by (rewrite <- Hrl2; apply nth_error_Some; rewrite Hx; discriminate).
      destruct (Hsame i Hi) as (_ & E & _). rewrite Hx, Hy in E. inversion E. reflexivity. }
    assert (Eint : MultiIntersectionNetwork.intersections self2
                   = MultiIntersectionNetwork.intersections self').
    { apply list_eq_by_index; [lia|]. intros i x y Hx Hy.
      assert (Hi : (i < n)%nat) by (rewrite <- Hil2; apply nth_error_Some; rewrite Hx; discriminate).
      destruct (Hsame i Hi) as (_ & _ & E). rewrite Hx, Hy in E. inversion E. reflexivity. }
    assert (Eself : self2 = self').
    { destruct self2 as [i2 n2], self' as [i1 n1]. simpl in *.
      rewrite Eint, Hname2, Hname. reflexivity. }
    rewrite Hr, Elogs, Erew, Eself, Earr2. reflexivity.
Qed.

(** X8.  When every intersection of the network has non-negative queues and
    a phase in {NS, EW}, the arrivals are non-negative and no decision asks
    for a phase outside {NS, EW}, every intersection is in such a state
    again after [step], and the network keeps its size and the identities
    and service rates of its intersections. *)
Theorem network_step_keeps_invariant {F} `{PyFloat F} (self : MultiIntersectionNetwork.t)
    (arrivals arrivals' : list Arrivals) (decisions : list (Decision F))
    (logs : list (LogRecord F)) (rewards : list (nat * F))
    (self' : MultiIntersectionNetwork.t) :
  MultiIntersectionNetwork.step self arrivals decisions
  = Some ((logs, rewards), (self', arrivals')) ->
  Forall Intersection.inv (MultiIntersectionNetwork.intersections self) ->
  Forall (fun a => 0 <= arrivals_ns a /\ 0 <= arrivals_ew a) arrivals ->
  Forall (fun d => forall p, target_phase d = Some p -> Intersection.valid_phase p) decisions ->
  Forall Intersection.inv (MultiIntersectionNetwork.intersections self')
  /\ map Intersection.intersection_id (MultiIntersectionNetwork.intersections self')
     = map Intersection.intersection_id (MultiIntersectionNetwork.intersections self)
  /\ map Intersection.service_rate (MultiIntersectionNetwork.intersections self')
     = map Intersection.service_rate (MultiIntersectionNetwork.intersections self).
Proof.
  intros Hstep Hinv Harr Hdec.
  destruct (network_step_shape _ _ _ _ _ _ _ Hstep)
    as (_ & _ & _ & _ & Li & _ & _ & Hidx). cbv zeta in Li, Hidx.
  rewrite Forall_forall in Hinv, Harr, Hdec.
  assert (Hpoint : forall i it', nth_error (MultiIntersectionNetwork.intersections self') i
                                 = Some it' ->
            exists it, nth_error (MultiIntersectionNetwork.intersections self) i = Some it
                       /\ Intersection.inv it'
                       /\ Intersection.intersection_id it' = Intersection.intersection_id it
                       /\ Intersection.service_rate it' = Intersection.service_rate it).
  { intros i it' Hi.
    assert (Hlt : (i < List.length (MultiIntersectionNetwork.intersections self))%nat).
    { rewrite <- Li. apply nth_error_Some. rewrite Hi. discriminate. }
    destruct (Hidx i Hlt) as (it & a & d & Hit & Ha & Hd & _ & _ & Hit').
    rewrite Hi in Hit'. injection Hit' as ->.
    exists it. split; [exact Hit|]. split.
    - apply step_keeps_inv.
      + apply Hinv. eapply nth_error_In. exact Hit.
      + apply (Harr a). eapply nth_error_In. exact Ha.
      + apply (Harr a). eapply nth_error_In. exact Ha.
      + apply (Hdec d). eapply nth_error_In. exact Hd.
    - destruct (step_service it a d) as (Hr & _).
      destruct (step_reward it a d) as (_ & _ & _ & _ & _ & _ & Hid).
      split; assumption. }
  split; [|split].
  - apply Forall_forall. intros it' Hin. apply In_nth_error in Hin.
    destruct Hin as [i Hi]. destruct (Hpoint i it' Hi) as (_ & _ & Hok & _). exact Hok.
  - apply nth_error_ext. intros i. rewrite !nth_error_map.
    destruct (nth_error (MultiIntersectionNetwork.intersections self') i) as [it'|] eqn:Hi.
    + destruct (Hpoint i it' Hi) as (it & -> & _ & Hid & _). simpl. f_equal. exact Hid.
    + apply nth_error_None in Hi. rewrite Li in Hi.
      apply nth_error_None in Hi. rewrite Hi. reflexivity.
  - apply nth_error_ext. intros i. rewrite !nth_error_map.
    destruct (nth_error (MultiIntersectionNetwork.intersections self') i) as [it'|] eqn:Hi.
    + destruct (Hpoint i it' Hi) as (it & -> & _ & _ & Hr). simpl. f_equal. exact Hr.
    + apply nth_error_None in Hi. rewrite Li in Hi.
      apply nth_error_None in Hi. rewrite Hi. reflexivity.
Qed.

Lemma network_step_keeps_invariant_witness :
  exists logs rewards net' arrivals',
    MultiIntersectionNetwork.step (MultiIntersectionNetwork.init 2 "fixed" 1)
      [upstream_arrivals; no_arrivals] [fixed_decision; fixed_decision]
    = Some ((logs, rewards), (net', arrivals'))
    /\ Forall Intersection.inv (MultiIntersectionNetwork.intersections net').
Proof.
  destruct (MultiIntersectionNetwork.step (MultiIntersectionNetwork.init 2 "fixed" 1)
              [upstream_arrivals; no_arrivals] [fixed_decision; fixed_decision])
    as [[[logs rewards] [net' arrivals']]|] eqn:Hstep.
  - exists logs, rewards, net', arrivals'. split; [reflexivity|].
    refine (proj1 (network_step_keeps_invariant _ _ _ _ _ _ _ Hstep _ _ _)).
    + simpl. repeat (apply Forall_cons; [apply init_invariant|]). apply Forall_nil.
    + repeat (apply Forall_cons; [simpl; lia|]). apply Forall_nil.
    + repeat (apply Forall_cons; [intros p Hp; discriminate Hp|]). apply Forall_nil.
  - exfalso.
    destruct (network_step_total (MultiIntersectionNetwork.init 2 "fixed" 1)
                [upstream_arrivals; no_arrivals] [fixed_decision; fixed_decision])
      as [r Hr]; [simpl; lia | simpl; lia |].
    rewrite Hr in Hstep. discriminate Hstep.
Defined.

Lemma map_eq_by_index {A B C : Type} (f : A -> C) (g : B -> C) (l1 : list A) (l2 : list B) :
  List.length l1 = List.length l2 ->
  (forall i a b, nth_error l1 i = Some a -> nth_error l2 i = Some b -> f a = g b) ->
  map f l1 = map g l2.
Proof.
  intros Hlen Hpt. apply nth_error_ext. intros i. rewrite !nth_error_map.
  destruct (nth_error l1 i) as [a|] eqn:E1, (nth_error l2 i) as [b|] eqn:E2; simpl.
  - f_equal. exact (Hpt i a b E1 E2).
  - apply nth_error_None in E2.
    assert (i < List.length l1)%nat by (apply nth_error_Some; rewrite E1; discriminate). lia.
  - apply nth_error_None in E1.
    assert (i < List.length l2)%nat by (apply nth_error_Some; rewrite E2; discriminate). lia.
  - reflexivity.
Qed.

(** X9.  When [step] returns, the logs come in the order of the
    intersections, each carrying the identity of its intersection and the
    step number and time of day of the arrival record of its index; the
    rewards are keyed 0, 1, ..., n-1 in this order; and the caller's arrival
    records are handed back as they were passed. *)
Theorem network_step_indexed {F} `{PyFloat F} (self : MultiIntersectionNetwork.t)
    (arrivals arrivals' : list Arrivals) (decisions : list (Decision F))
    (logs : list (LogRecord F)) (rewards : list (nat * F))
    (self' : MultiIntersectionNetwork.t) :
  MultiIntersectionNetwork.step self arrivals decisions
  = Some ((logs, rewards), (self', arrivals')) ->
  let n := List.length (MultiIntersectionNetwork.intersections self) in
  map log_intersection logs
  = map Intersection.intersection_id (MultiIntersectionNetwork.intersections self)
  /\ map log_step logs = map a_step (firstn n arrivals)
  /\ map log_time_of_day logs = map a_time_of_day (firstn n arrivals)
  /\ map fst rewards = seq 0 n
  /\ arrivals' = arrivals.
Proof.
  intros Hstep n.
  destruct (network_step_shape _ _ _ _ _ _ _ Hstep)
    as (Harr & _ & Ll & Lr & _ & Hla & _ & Hidx). fold n in Ll, Lr, Hla, Hidx.
  assert (Hlt : forall (A : Type) (l : list A) i (x : A),
            List.length l = n -> nth_error l i = Some x -> (i < n)%nat).
  { intros A l i x Hl Hx. rewrite <- Hl. apply nth_error_Some. rewrite Hx. discriminate. }
  assert (Lf : List.length (firstn n arrivals) = n) by (rewrite length_firstn; lia).
  split; [|split; [|split; [|split]]].
  - apply map_eq_by_index; [fold n; lia|]. intros i log it Hlog Hit.
    destruct (Hidx i (Hlt _ _ _ _ Ll Hlog)) as (it0 & a & d & Hit0 & _ & _ & Hlog0 & _).
    rewrite Hit in Hit0. injection Hit0 as <-. rewrite Hlog in Hlog0. injection Hlog0 as ->.
    apply (step_reward it a d).
  - apply map_eq_by_index; [lia|]. intros i log a Hlog Ha.
    pose proof (Hlt _ _ _ _ Ll Hlog) as Hi.
    rewrite nth_error_firstn in Ha.
    replace (i <? n)%nat with true in Ha by (symmetry; apply Nat.ltb_lt; exact Hi).
    destruct (Hidx i Hi) as (it & a0 & d & _ & Ha0 & _ & Hlog0 & _).
    rewrite Ha in Ha0. injection Ha0 as <-. rewrite Hlog in Hlog0. injection Hlog0 as ->.
    apply (step_reward it a d).
  - apply map_eq_by_index; [lia|]. intros i log a Hlog Ha.
    pose proof (Hlt _ _ _ _ Ll Hlog) as Hi.
    rewrite nth_error_firstn in Ha.
    replace (i <? n)%nat with true in Ha by (symmetry; apply Nat.ltb_lt; exact Hi).
    destruct (Hidx i Hi) as (it & a0 & d & _ & Ha0 & _ & Hlog0 & _).
    rewrite Ha in Ha0. injection Ha0 as <-. rewrite Hlog in Hlog0. injection Hlog0 as ->.
    apply (step_reward it a d).
  - rewrite <- (map_id (seq 0 n)). apply map_eq_by_index; [rewrite length_seq; lia|].
    intros i kr k Hkr Hk. pose proof (Hlt _ _ _ _ Lr Hkr) as Hi.
    rewrite nth_error_seq in Hk.
    replace (i <? n)%nat with true in Hk by (symmetry; apply Nat.ltb_lt; exact Hi).
    injection Hk as <-.
    destruct (Hidx i Hi) as (it & a & d & _ & _ & _ & _ & Hrew & _).
    rewrite Hkr in Hrew. injection Hrew as ->. reflexivity.
  - exact Harr.
Qed.

Lemma network_step_indexed_witness :
  exists logs rewards net' arrivals',
    MultiIntersectionNetwork.step (MultiIntersectionNetwork.init 2 "fixed" 1)
      [upstream_arrivals; no_arrivals] [fixed_decision; fixed_decision]
    = Some ((logs, rewards), (net', arrivals'))
    /\ map fst rewards = seq 0 2.
Proof.
  destruct (MultiIntersectionNetwork.step (MultiIntersectionNetwork.init 2 "fixed" 1)
              [upstream_arrivals; no_arrivals] [fixed_decision; fixed_decision])
    as [[[logs rewards] [net' arrivals']]|] eqn:Hstep.
  - exists logs, rewards, net', arrivals'. split; [reflexivity|].
    exact (proj1 (proj2 (proj2 (proj2 (network_step_indexed _ _ _ _ _ _ _ Hstep))))).
  - exfalso.
    destruct (network_step_total (MultiIntersectionNetwork.init 2 "fixed" 1)
                [upstream_arrivals; no_arrivals] [fixed_decision; fixed_decision])
      as [r Hr]; [simpl; lia | simpl; lia |].
    rewrite Hr in Hstep. discriminate Hstep.
Defined.

(** ** The Q-learning controller: tables and decisions *)

Section DictKeys.
Context {K V : Type} (eqb : K -> K -> bool).
Hypothesis eqb_eq : forall a b, eqb a b = true <-> a = b.

(** An entry of a dictionary after a write is the entry written or an
    entry it had. *)
Lemma dict_set_In (k a : K) (x v : V) (d : list (K * V)) :
  In (a, v) (dict_set eqb k x d) -> (a = k /\ v = x) \/ In (a, v) d.
Proof.
  induction d as [|[k' v'] d IH]; simpl.
  - intros [E | []]. inversion E. left. split; reflexivity.
  - destruct (eqb k k') eqn:E; simpl.
    + apply eqb_eq in E. subst k'. intros [E' | Hin].
      * inversion E'. left. split; reflexivity.
      * right. right. exact Hin.
    + intros [E' | Hin]; [right; left; exact E'|].
      destruct (IH Hin) as [Hl | Hr]; [left; exact Hl | right; right; exact Hr].
Qed.

Lemma dict_mem_set (k k' : K) (v : V) (d : list (K * V)) :
  dict_mem eqb k d = true -> dict_mem eqb k (dict_set eqb k' v d) = true.
Proof.
  unfold dict_mem. intros Hk.
  pose proof (dict_get_set_defined eqb eqb_eq k k' v d) as Hd.
  destruct (dict_get eqb k d); [|discriminate].
  destruct (dict_get eqb k (dict_set eqb k' v d)); [reflexivity|].
  exfalso. apply Hd; [discriminate | reflexivity].
Qed.
End DictKeys.

Lemma fresh_fold_get {F} `{PyFloat F} (l : list Z) (d : list (Z * F)) (a : Z) :
  dict_get Z.eqb a
    (fold_left (fun d a => dict_set Z.eqb a (if a =? 12 then of_int 5 else of_int 2) d) l d)
  = if existsb (Z.eqb a) l then Some (initial_value a) else dict_get Z.eqb a d.
Proof.
  revert d. induction l as [|x l IH]; intros d; simpl; [reflexivity|].
  rewrite IH. destruct (existsb (Z.eqb a) l).
  - rewrite orb_true_r. reflexivity.
  - rewrite orb_false_r. destruct (a =? x) eqn:E.
    + apply Z.eqb_eq in E. subst x.
      rewrite (dict_get_set_same _ Z.eqb_eq). reflexivity.
    + apply (dict_get_set_other _ Z.eqb_eq). intros ->. rewrite Z.eqb_refl in E. discriminate.
Qed.

Lemma fresh_row_get {F} `{PyFloat F} (actions : list Z) (a : Z) :
  dict_get Z.eqb a (QLearningController.fresh_row (F := F) actions)
  = if existsb (Z.eqb a) actions then Some (initial_value a) else None.
Proof. unfold QLearningController.fresh_row. rewrite fresh_fold_get. reflexivity. Qed.

Lemma fresh_fold_In {F} `{PyFloat F} (l : list Z) (d : list (Z * F)) (a : Z) (v : F) :
  In (a, v)
    (fold_left (fun d a => dict_set Z.eqb a (if a =? 12 then of_int 5 else of_int 2) d) l d)
  -> In a l \/ In (a, v) d.
Proof.
  revert d. induction l as [|x l IH]; intros d; simpl; [tauto|].
  intros Hin. destruct (IH _ Hin) as [Hl | Hd]; [left; right; exact Hl|].
  destruct (dict_set_In _ Z.eqb_eq _ _ _ _ _ Hd) as [[-> _] | Hd'];
    [left; left; reflexivity | right; exact Hd'].
Qed.

Lemma fresh_row_keys {F} `{PyFloat F} (actions : list Z) (a : Z) (v : F) :
  In (a, v) (QLearningController.fresh_row actions) -> In a actions.
Proof.
  unfold QLearningController.fresh_row. intros Hin.
  destruct (fresh_fold_In _ _ _ _ Hin) as [Hl | []]. exact Hl.
Qed.

Lemma ensure_state_schedule {F} `{PyFloat F} (c : QLearningController.t F)
    (k : QLearningController.Key) :
  QLearningController.epsilon (QLearningController.ensure_state c k)
  = QLearningController.epsilon c
  /\ QLearningController.epsilon_min (QLearningController.ensure_state c k)
     = QLearningController.epsilon_min c
  /\ QLearningController.epsilon_decay (QLearningController.ensure_state c k)
     = QLearningController.epsilon_decay c
  /\ QLearningController.step_count (QLearningController.ensure_state c k)
     = QLearningController.step_count c.
Proof.
  unfold QLearningController.ensure_state.
  destruct (dict_mem _ _ _); simpl; tauto.
Qed.

Lemma ensure_state_mem {F} `{PyFloat F} (c : QLearningController.t F)
    (k k' : QLearningController.Key) :
  dict_mem QLearningController.key_eqb k (QLearningController.q c) = true ->
  dict_mem QLearningController.key_eqb k
    (QLearningController.q (QLearningController.ensure_state c k')) = true.
Proof.
  intros Hk. unfold QLearningController.ensure_state.
  destruct (dict_mem QLearningController.key_eqb k' (QLearningController.q c)); [exact Hk|].
  simpl. apply (dict_mem_set _ key_eqb_eq). exact Hk.
Qed.

Lemma ensure_state_closed {F} `{PyFloat F} (c : QLearningController.t F)
    (k : QLearningController.Key) :
  q_closed c -> q_closed (QLearningController.ensure_state c k).
Proof.
  intros [Hrows Hlast].
  destruct (ensure_state_fields c k) as (Ea & _ & _ & El & _).
  unfold q_closed. rewrite Ea, El. split; [|exact Hlast].
  intros k0 row a v Hget Hin.
  unfold QLearningController.ensure_state in Hget.
  destruct (dict_mem QLearningController.key_eqb k (QLearningController.q c));
    [exact (Hrows k0 row a v Hget Hin)|].
  simpl in Hget. destruct (QLearningController.key_eqb k0 k) eqn:E.
  - apply key_eqb_eq in E. subst k0.
    rewrite (dict_get_set_same _ key_eqb_eq) in Hget. inversion Hget; subst row.
    exact (fresh_row_keys _ _ _ Hin).
  - rewrite (dict_get_set_other _ key_eqb_eq) in Hget.
    + exact (Hrows k0 row a v Hget Hin).
    + intros ->. rewrite (eqb_refl' _ key_eqb_eq) in E. discriminate.
Qed.

Lemma init_closed {F} (actions : list Z) (al ga ep em ed : F) :
  q_closed (QLearningController.init actions al ga ep em ed).
Proof.
  split; simpl.
  - intros k row a v Hget. discriminate Hget.
  - intros k a Hl. discriminate Hl.
Qed.

(** What [decide] returns and leaves behind, read off its body. *)
Lemma decide_spec {F} `{PyFloat F} (c : QLearningController.t F) (s : State) (u : F)
    (pick : nat) (d : Decision F) (c' : QLearningController.t F) :
  QLearningController.decide c s u pick = Some (d, c') ->
  exists row action,
    dict_get QLearningController.key_eqb (QLearningController.state_key c s)
      (QLearningController.q c') = Some row
    /\ QLearningController.q c'
       = QLearningController.q
           (QLearningController.ensure_state c (QLearningController.state_key c s))
    /\ (if (u <? QLearningController.epsilon c)%num
        then nth_error (QLearningController.actions c) pick = Some action
        else QLearningController.argmax row = Some action)
    /\ duration d = of_int action /\ target_phase d = None
    /\ QLearningController.last c' = Some (QLearningController.state_key c s, action)
    /\ QLearningController.last_queues c' = (st_queue_ns s, st_queue_ew s)
    /\ QLearningController.actions c' = QLearningController.actions c
    /\ QLearningController.step_count c' = QLearningController.step_count c + 1
    /\ QLearningController.epsilon c'
       = (if (QLearningController.step_count c + 1) mod 10 =? 0
          then pymax (QLearningController.epsilon_min c)
                 (QLearningController.epsilon c * QLearningController.epsilon_decay c)%num
          else QLearningController.epsilon c)
    /\ QLearningController.epsilon_min c' = QLearningController.epsilon_min c
    /\ QLearningController.epsilon_decay c' = QLearningController.epsilon_decay c.
Proof.
  intros Hdec. unfold QLearningController.decide in Hdec.
  set (key := QLearningController.state_key c s) in *.
  destruct (ensure_state_fields c key) as (Ea & _ & _ & _ & _).
  destruct (ensure_state_schedule c key) as (Ee & Em & Ed & Es).
  set (c1 := QLearningController.ensure_state c key) in *.
  unfold bind in Hdec.
  destruct (dict_get QLearningController.key_eqb key (QLearningController.q c1))
    as [row|] eqn:Erow; [|discriminate].
  destruct (if (u <? QLearningController.epsilon c1)%num
            then nth_error (QLearningController.actions c1) pick
            else QLearningController.argmax row) as [action|] eqn:Eact; [|discriminate].
  exists row, action.
  assert (Hpick : if (u <? QLearningController.epsilon c)%num
                  then nth_error (QLearningController.actions c) pick = Some action
                  else QLearningController.argmax row = Some action).
  { rewrite <- Ee, <- Ea. destruct (u <? QLearningController.epsilon c1)%num; exact Eact. }
  cbn [QLearningController.step_count] in Hdec.
  rewrite Es in Hdec.
  destruct ((QLearningController.step_count c + 1) mod 10 =? 0) eqn:Emod;
    inversion Hdec; subst d c'; cbn -[pymax];
    rewrite ?Ee, ?Em, ?Ed, ?Es, ?Ea;
    repeat (split; [first [exact Erow | exact Hpick | reflexivity]|]); reflexivity.
Qed.

Lemma decide_closed {F} `{PyFloat F} (c : QLearningController.t F) (s : State) (u : F)
    (pick : nat) (d : Decision F) (c' : QLearningController.t F) :
  q_closed c -> QLearningController.decide c s u pick = Some (d, c') ->
  q_closed c'
  /\ exists action, In action (QLearningController.actions c)
       /\ duration d = of_int action
       /\ QLearningController.last c' = Some (QLearningController.state_key c s, action).
Proof.
  intros Hcl Hdec.
  destruct (decide_spec c s u pick d c' Hdec)
    as (row & action & Hrow & Hq & Hpick & Hdur & _ & Hlast & _ & Ha & _).
  pose proof (ensure_state_closed c (QLearningController.state_key c s) Hcl) as [Hrows1 _].
  destruct (ensure_state_fields c (QLearningController.state_key c s)) as (Ea1 & _).
  rewrite <- Hq, Ea1 in Hrows1.
  assert (Hin : In action (QLearningController.actions c)).
  { destruct (u <? QLearningController.epsilon c)%num.
    - eapply nth_error_In. exact Hpick.
    - unfold QLearningController.argmax in Hpick. destruct row as [|item r]; [discriminate|].
      injection Hpick as Hpick.
      apply (Hrows1 _ _ action (snd (QLearningController.argmax_from item r)) Hrow).
      rewrite <- Hpick, <- surjective_pairing. apply argmax_from_In. }
  split.
  - unfold q_closed. rewrite Ha, Hlast. split; [exact Hrows1|].
    intros k a E. inversion E; subst. exact Hin.
  - exists action. repeat split; assumption.
Qed.

(** The attributes a [learn] does not touch. *)
Lemma learn_fields {F} `{PyFloat F} (c : QLearningController.t F) (s : State) (r : F)
    (ns : State) (c' : QLearningController.t F) :
  QLearningController.learn c s r ns = Some c' ->
  QLearningController.actions c' = QLearningController.actions c
  /\ QLearningController.alpha c' = QLearningController.alpha c
  /\ QLearningController.gamma c' = QLearningController.gamma c
  /\ QLearningController.epsilon c' = QLearningController.epsilon c
  /\ QLearningController.epsilon_min c' = QLearningController.epsilon_min c
  /\ QLearningController.epsilon_decay c' = QLearningController.epsilon_decay c
  /\ QLearningController.step_count c' = QLearningController.step_count c
  /\ QLearningController.last c' = QLearningController.last c
  /\ QLearningController.last_queues c' = QLearningController.last_queues c.
Proof.
  unfold QLearningController.learn. intros Hl.
  destruct (QLearningController.last c) as [[key action]|] eqn:El.
  - set (nk := QLearningController.state_key c ns) in *.
    destruct (ensure_state_fields c nk) as (Ea & Eal & Ega & Ela & Elq).
    destruct (ensure_state_schedule c nk) as (Ee & Em & Ed & Es).
    unfold bind in Hl.
    destruct (dict_get QLearningController.key_eqb key _) as [row|]; [|discriminate].
    destruct (dict_get Z.eqb action row); [|discriminate].
    destruct (dict_get QLearningController.key_eqb nk _) as [nrow|]; [|discriminate].
    destruct (QLearningController.max_list _); [|discriminate].
    inversion Hl; subst c'. simpl.
    rewrite Ea, Eal, Ega, Ee, Em, Ed, Es, Ela, Elq, El. tauto.
  - inversion Hl; subst c'. rewrite El. tauto.
Qed.

Lemma learn_closed {F} `{PyFloat F} (c : QLearningController.t F) (s : State) (r : F)
    (ns : State) (c' : QLearningController.t F) :
  q_closed c -> QLearningController.learn c s r ns = Some c' -> q_closed c'.
Proof.
  intros Hcl Hl.
  destruct (learn_fields c s r ns c' Hl) as (Ea & _ & _ & _ & _ & _ & _ & Ela & _).
  unfold QLearningController.learn in Hl.
  destruct (QLearningController.last c) as [[key action]|] eqn:El;
    [|inversion Hl; subst c'; exact Hcl].
  set (nk := QLearningController.state_key c ns) in *.
  pose proof (ensure_state_closed c nk Hcl) as [Hrows1 _].
  destruct (ensure_state_fields c nk) as (Ea1 & _).
  rewrite Ea1 in Hrows1.
  destruct Hcl as [_ Hlast]. clear Ea Ela.
  unfold bind in Hl.
  destruct (dict_get QLearningController.key_eqb key _) as [row|] eqn:Erow; [|discriminate].
  destruct (dict_get Z.eqb action row); [|discriminate].
  destruct (dict_get QLearningController.key_eqb nk _) as [nrow|]; [|discriminate].
  destruct (QLearningController.max_list _); [|discriminate].
  injection Hl as Hc'. subst c'. unfold q_closed. simpl.
  destruct (ensure_state_fields c nk) as (_ & _ & _ & El1 & _).
  fold nk in Ea1. rewrite Ea1, El1.
  split; [|exact Hlast].
  intros k row0 a v Hget Hin.
  destruct (QLearningController.key_eqb k key) eqn:E.
  - apply key_eqb_eq in E. subst k.
    rewrite (dict_get_set_same _ key_eqb_eq) in Hget. inversion Hget; subst row0.
    destruct (dict_set_In _ Z.eqb_eq _ _ _ _ _ Hin) as [[-> _] | Hin'].
    + exact (Hlast key action El).
    + exact (Hrows1 key row a v Erow Hin').
  - rewrite (dict_get_set_other _ key_eqb_eq) in Hget.
    + exact (Hrows1 k row0 a v Hget Hin).
    + intros ->. rewrite (eqb_refl' _ key_eqb_eq) in E. discriminate.
Qed.

Lemma qrun_raised {F} `{PyFloat F} (calls : list (qcall F)) :
  fold_left (fun acc call => c <- acc ;; qrun_call c call) calls None = None.
Proof. induction calls as [|call calls IH]; simpl; [reflexivity | exact IH]. Qed.

Lemma qrun_cons {F} `{PyFloat F} (c : QLearningController.t F) (call : qcall F)
    (calls : list (qcall F)) :
  qrun c (call :: calls) = (c1 <- qrun_call c call ;; qrun c1 calls).
Proof.
  unfold qrun. simpl. destruct (qrun_call c call); simpl; [reflexivity | apply qrun_raised].
Qed.

(** One call keeps the invariants and what the constructor fixed. *)
Lemma qrun_call_ok {F} `{PyFloat F} (c : QLearningController.t F) (call : qcall F) :
  q_wf c -> q_closed c -> pick_in_range (List.length (QLearningController.actions c)) call ->
  exists c', qrun_call c call = Some c' /\ q_wf c' /\ q_closed c'
             /\ QLearningController.actions c' = QLearningController.actions c
             /\ QLearningController.alpha c' = QLearningController.alpha c
             /\ QLearningController.gamma c' = QLearningController.gamma c.
Proof.
  intros Hwf Hcl Hpick. destruct call as [s u pick | s r ns]; simpl in *.
  - destruct (decide_total c s u pick Hwf Hpick) as (d & c' & Hdec).
    exists c'. rewrite Hdec. split; [reflexivity|].
    destruct (decide_wf c s u pick d c' Hwf Hdec) as [Hwf' _].
    destruct (decide_closed c s u pick d c' Hcl Hdec) as [Hcl' _].
    destruct (decide_constants c s u pick d c' Hdec) as [Eal Ega].
    destruct (decide_spec c s u pick d c' Hdec)
      as (row & action & _ & _ & _ & _ & _ & _ & _ & Ea & _).
    split; [exact Hwf'|]. split; [exact Hcl'|]. repeat split; assumption.
  - destruct (learn_wf c s r ns Hwf) as (c' & Hl & Hwf' & _).
    exists c'. split; [exact Hl|].
    destruct (learn_fields c s r ns c' Hl) as (Ea & Eal & Ega & _).
    pose proof (learn_closed c s r ns c' Hcl Hl) as Hcl'.
    split; [exact Hwf'|]. split; [exact Hcl'|]. repeat split; assumption.
Qed.

(** X10. Whatever [decide] returns, exploring or exploiting, the green
    duration is one of the controller's actions, no phase is requested, and
    that action is recorded with the state's key for the next [learn]. *)
Theorem decide_picks_listed_action {F} `{PyFloat F} (c : QLearningController.t F)
    (s : State) (u : F) (pick : nat) (d : Decision F) (c' : QLearningController.t F) :
  q_closed c -> QLearningController.decide c s u pick = Some (d, c') ->
  exists action,
    In action (QLearningController.actions c)
    /\ duration d = of_int action
    /\ target_phase d = None
    /\ QLearningController.last c' = Some (QLearningController.state_key c s, action)
    /\ ((u <? QLearningController.epsilon c)%num = true ->
        nth_error (QLearningController.actions c) pick = Some action).
Proof.
  intros Hcl Hdec.
  destruct (decide_closed c s u pick d c' Hcl Hdec) as [_ (action & Hin & Hdur & Hlast)].
  destruct (decide_spec c s u pick d c' Hdec)
    as (row & action' & _ & _ & Hpick & _ & Htp & Hlast' & _).
  rewrite Hlast in Hlast'. inversion Hlast'; subst action'.
  exists action. split; [exact Hin|]. split; [exact Hdur|]. split; [exact Htp|].
  split; [exact Hlast|].
  intros Hu. rewrite Hu in Hpick. exact Hpick.
Qed.

Lemma decide_picks_listed_action_witness :
  exists d c',
    QLearningController.decide (F := float) QLearningController.default quiet_state (lit 1 2) 0
    = Some (d, c')
    /\ exists action,
         In action (QLearningController.actions (F := float) QLearningController.default)
         /\ duration d = of_int action
         /\ target_phase d = None
         /\ QLearningController.last c'
            = Some (QLearningController.state_key (F := float) QLearningController.default
                      quiet_state, action)
         /\ ((lit 1 2 <? QLearningController.epsilon (F := float) QLearningController.default)%num
             = true ->
             nth_error (QLearningController.actions (F := float) QLearningController.default) 0
             = Some action).
Proof.
  destruct (decide_total (F := float) QLearningController.default quiet_state (lit 1 2) 0
              default_wf ltac:(simpl; lia)) as (d & c' & Hdec).
  exists d, c'. split; [exact Hdec|].
  apply (decide_picks_listed_action _ quiet_state (lit 1 2) 0 d c'); [|exact Hdec].
  apply init_closed.
Defined.

(** X11. After a [decide] on a state, the trend flags of every later key
    compare the queues with the queues of that state: a queue is "growing"
    exactly when it is longer than it was at the last decision, so the state
    just decided on now has the key with both flags "stable" whatever key it
    was decided under. *)
Theorem decide_sets_trend_reference {F} `{PyFloat F} (c : QLearningController.t F)
    (s : State) (u : F) (pick : nat) (d : Decision F) (c' : QLearningController.t F) :
  QLearningController.decide c s u pick = Some (d, c') ->
  (forall t : State,
      QLearningController.state_key c' t
      = (QLearningController.bucket (st_queue_ns t), QLearningController.bucket (st_queue_ew t),
         (if st_queue_ns t >? st_queue_ns s then "ns_growing" else "ns_stable")%string,
         (if st_queue_ew t >? st_queue_ew s then "ew_growing" else "ew_stable")%string,
         st_phase t, st_time_of_day t, st_emergency t))
  /\ QLearningController.state_key c' s
     = (QLearningController.bucket (st_queue_ns s), QLearningController.bucket (st_queue_ew s),
        "ns_stable"%string, "ew_stable"%string,
        st_phase s, st_time_of_day s, st_emergency s).
Proof.
  intros Hdec.
  destruct (decide_spec c s u pick d c' Hdec)
    as (row & action & _ & _ & _ & _ & _ & _ & Hlq & _).
  assert (Hgt : forall a b : Z, (a - b >? 0) = (a >? b)).
  { intros a b. unfold Z.gtb. rewrite <- Z.compare_sub. reflexivity. }
  assert (Hkey : forall t : State,
      QLearningController.state_key c' t
      = (QLearningController.bucket (st_queue_ns t), QLearningController.bucket (st_queue_ew t),
         (if st_queue_ns t >? st_queue_ns s then "ns_growing" else "ns_stable")%string,
         (if st_queue_ew t >? st_queue_ew s then "ew_growing" else "ew_stable")%string,
         st_phase t, st_time_of_day t, st_emergency t)).
  { intros t. unfold QLearningController.state_key. rewrite Hlq. simpl.
    rewrite !Hgt. reflexivity. }
  split; [exact Hkey|].
  rewrite Hkey. unfold Z.gtb. rewrite !Z.compare_refl. reflexivity.
Qed.

Lemma decide_sets_trend_reference_witness :
  exists d c',
    QLearningController.decide (F := float) QLearningController.default quiet_state (lit 1 2) 0
    = Some (d, c')
    /\ QLearningController.state_key c' quiet_state
       = (QLearningController.bucket (st_queue_ns quiet_state),
          QLearningController.bucket (st_queue_ew quiet_state),
          "ns_stable"%string, "ew_stable"%string,
          st_phase quiet_state, st_time_of_day quiet_state, st_emergency quiet_state).
Proof.
  destruct (decide_total (F := float) QLearningController.default quiet_state (lit 1 2) 0
              default_wf ltac:(simpl; lia)) as (d & c' & Hdec).
  exists d, c'. split; [exact Hdec|].
  exact (proj2 (decide_sets_trend_reference _ quiet_state (lit 1 2) 0 d c' Hdec)).
Defined.

(** X12. The first time a key is seen, [_ensure_state] gives it a row
    with exactly the controller's actions, valued 5.0 for the action 12 and
    2.0 for every other one; the rows of the other keys are untouched, and a
    second call for the same key changes nothing. *)
Theorem ensure_state_optimistic {F} `{PyFloat F} (c : QLearningController.t F)
    (key : QLearningController.Key) :
  dict_mem QLearningController.key_eqb key (QLearningController.q c) = false ->
  let c' := QLearningController.ensure_state c key in
  (forall a, QLearningController.q_value c' key a
             = if existsb (Z.eqb a) (QLearningController.actions c)
               then Some (initial_value a) else None)
  /\ (forall k, k <> key ->
        dict_get QLearningController.key_eqb k (QLearningController.q c')
        = dict_get QLearningController.key_eqb k (QLearningController.q c))
  /\ QLearningController.ensure_state c' key = c'.
Proof.
  intros Hnew c'.
  assert (E : c' = QLearningController.set_q
                     (dict_set QLearningController.key_eqb key
                        (QLearningController.fresh_row (QLearningController.actions c))
                        (QLearningController.q c)) c).
  { subst c'. unfold QLearningController.ensure_state. rewrite Hnew. reflexivity. }
  rewrite E. clear E c'. split; [|split].
  - intros a. unfold QLearningController.q_value, bind. simpl.
    rewrite (dict_get_set_same _ key_eqb_eq). apply fresh_row_get.
  - intros k Hk. simpl. apply (dict_get_set_other _ key_eqb_eq). exact Hk.
  - unfold QLearningController.ensure_state, dict_mem. simpl.
    rewrite (dict_get_set_same _ key_eqb_eq). reflexivity.
Qed.

Lemma ensure_state_optimistic_witness :
  QLearningController.q_value
    (QLearningController.ensure_state (F := float) QLearningController.default quiet_key)
    quiet_key 12 = Some (of_int 5)
  /\ QLearningController.q_value
       (QLearningController.ensure_state (F := float) QLearningController.default quiet_key)
       quiet_key 10 = Some (of_int 2)
  /\ QLearningController.q_value
       (QLearningController.ensure_state (F := float) QLearningController.default quiet_key)
       quiet_key 11 = None.
Proof.
  pose proof (ensure_state_optimistic (F := float) QLearningController.default quiet_key
                eq_refl) as [Hval _].
  split; [exact (Hval 12) | split; [exact (Hval 10) | exact (Hval 11)]].
Defined.

(** [max(d, key=d.get)] in exact arithmetic: the entry returned splits the
    row into strictly smaller entries before it and entries that do not
    exceed it after it. *)
Lemma argmax_from_first_best (rest : list (Z * R)) (best : Z * R) :
  exists l1 l2,
    (best :: rest = l1 ++ QLearningController.argmax_from best rest :: l2)%list
    /\ (forall x, In x l1 -> (snd x < snd (QLearningController.argmax_from best rest))%R)
    /\ (forall x, In x l2 -> (snd x <= snd (QLearningController.argmax_from best rest))%R).
Proof.
  revert best. induction rest as [|item r IH]; intros best; simpl.
  - exists [], []. split; [reflexivity|]. split; intros x [].
  - destruct (Rltb (snd best) (snd item)) eqn:E.
    + apply Rltb_true in E.
      destruct (IH item) as (l1 & l2 & Hsplit & Hlt & Hle).
      set (m := QLearningController.argmax_from item r) in *.
      assert (Hitem : (snd item <= snd m)%R).
      { assert (Hin : In item (l1 ++ m :: l2)%list) by (rewrite <- Hsplit; left; reflexivity).
        apply in_app_or in Hin. destruct Hin as [Hin | [Hin | Hin]].
        - apply Rlt_le. apply Hlt. exact Hin.
        - rewrite Hin. apply Rle_refl.
        - apply Hle. exact Hin. }
      exists (best :: l1), l2. split; [simpl; rewrite Hsplit; reflexivity|].
      split; [|exact Hle].
      intros x [Hx | Hx]; [subst x; lra | apply Hlt; exact Hx].
    + apply Rltb_false in E.
      destruct (IH best) as (l1 & l2 & Hsplit & Hlt & Hle).
      set (m := QLearningController.argmax_from best r) in *.
      destruct l1 as [|b l1]; simpl in Hsplit.
      * inversion Hsplit as [[Hb Hr]]. exists [], (item :: l2). simpl.
        split; [rewrite <- Hb; reflexivity|]. split; [intros x []|].
        intros x [Hx | Hx]; [subst x; rewrite <- Hb; exact E | apply Hle; exact Hx].
      * inversion Hsplit as [[Hb Hr]]. subst b.
        exists (best :: item :: l1), l2. simpl. split; [reflexivity|].
        assert (Hbest : (snd best < snd m)%R) by (apply Hlt; left; reflexivity).
        split; [|exact Hle].
        intros x [Hx | [Hx | Hx]];
          [subst x; exact Hbest | subst x; lra | apply Hlt; right; exact Hx].
Qed.

(** X13. A [decide] that exploits returns, in exact arithmetic, the first
    action of the state's row whose value is maximal: every action before it
    in the row has a strictly smaller value, and none after it a larger one. *)
Theorem exploit_picks_first_best (c : QLearningController.t R) (s : State) (u : R)
    (pick : nat) (d : Decision R) (c' : QLearningController.t R) :
  QLearningController.decide c s u pick = Some (d, c') ->
  (QLearningController.epsilon c <= u)%R ->
  exists l1 action v l2,
    dict_get QLearningController.key_eqb (QLearningController.state_key c s)
      (QLearningController.q c') = Some (l1 ++ (action, v) :: l2)%list
    /\ duration d = IZR action
    /\ QLearningController.last c' = Some (QLearningController.state_key c s, action)
    /\ (forall x, In x l1 -> (snd x < v)%R)
    /\ (forall x, In x l2 -> (snd x <= v)%R).
Proof.
  intros Hdec Hu.
  destruct (decide_spec c s u pick d c' Hdec)
    as (row & action & Hrow & _ & Hpick & Hdur & _ & Hlast & _).
  assert (E : (u <? QLearningController.epsilon c)%num = false)
    by (apply Rltb_false; exact Hu).
  rewrite E in Hpick. unfold QLearningController.argmax in Hpick.
  destruct row as [|item r]; [discriminate|]. injection Hpick as Hpick.
  destruct (argmax_from_first_best r item) as (l1 & l2 & Hsplit & Hlt & Hle).
  exists l1, action, (snd (QLearningController.argmax_from item r)), l2.
  split; [|split; [exact Hdur | split; [exact Hlast | split; assumption]]].
  rewrite Hrow, Hsplit, <- Hpick, <- surjective_pairing. reflexivity.
Qed.

Lemma exploit_picks_first_best_witness :
  exists d c',
    QLearningController.decide (F := R) QLearningController.default quiet_state (lit 1 2) 0
    = Some (d, c')
    /\ exists l1 action v l2,
         dict_get QLearningController.key_eqb
           (QLearningController.state_key (F := R) QLearningController.default quiet_state)
           (QLearningController.q c') = Some (l1 ++ (action, v) :: l2)%list
         /\ duration d = IZR action
         /\ QLearningController.last c'
            = Some (QLearningController.state_key (F := R) QLearningController.default
                      quiet_state, action)
         /\ (forall x, In x l1 -> (snd x < v)%R)
         /\ (forall x, In x l2 -> (snd x <= v)%R).
Proof.
  destruct (decide_total (F := R) QLearningController.default quiet_state (lit 1 2) 0
              default_wf ltac:(simpl; lia)) as (d & c' & Hdec).
  exists d, c'. split; [exact Hdec|].
  apply (exploit_picks_first_best _ quiet_state (lit 1 2) 0 d c' Hdec).
  simpl. unfold lit. simpl. lra.
Defined.

(** What one call does to the exploration schedule. *)
Lemma qrun_call_epsilon (c : QLearningController.t R) (call : qcall R)
    (c' : QLearningController.t R) :
  qrun_call c call = Some c' ->
  (QLearningController.epsilon_min c <= QLearningController.epsilon c)%R ->
  (0 <= QLearningController.epsilon c)%R ->
  (0 <= QLearningController.epsilon_decay c <= 1)%R ->
  QLearningController.epsilon_min c' = QLearningController.epsilon_min c
  /\ QLearningController.epsilon_decay c' = QLearningController.epsilon_decay c
  /\ (QLearningController.epsilon_min c <= QLearningController.epsilon c'
      <= QLearningController.epsilon c)%R
  /\ (0 <= QLearningController.epsilon c')%R
  /\ QLearningController.step_count c'
     = QLearningController.step_count c + (if is_qlearn call then 0 else 1)
  /\ ((if is_qlearn call then True
       else (QLearningController.step_count c + 1) mod 10 <> 0) ->
      QLearningController.epsilon c' = QLearningController.epsilon c).
Proof.
  intros Hcall Hmin H0 Hdecay. destruct call as [s u pick | s r ns]; simpl in *.
  - destruct (QLearningController.decide c s u pick) as [[d c1]|] eqn:Hdec; [|discriminate].
    simpl in Hcall. inversion Hcall; subst c1.
    destruct (decide_spec c s u pick d c' Hdec)
      as (row & action & _ & _ & _ & _ & _ & _ & _ & _ & Hs & He & Hm & Hd).
    rewrite Hm, Hd, Hs. split; [reflexivity|]. split; [reflexivity|].
    rewrite He. destruct ((QLearningController.step_count c + 1) mod 10 =? 0) eqn:E.
    + rewrite pymax_Rmax.
      assert (Hprod : (0 <= QLearningController.epsilon c * QLearningController.epsilon_decay c
                       <= QLearningController.epsilon c)%R) by nra.
      unfold Rmax. destruct (Rle_dec _ _).
      * apply Z.eqb_eq in E. simpl in *. repeat split; try lra; try tauto.
      * apply Z.eqb_eq in E. simpl in *. repeat split; try lra; try tauto.
    + repeat split; try lra.
  - destruct (learn_fields c s r ns c' Hcall) as (_ & _ & _ & He & Hm & Hd & Hs & _).
    rewrite He, Hm, Hd, Hs. repeat split; try lra. lia.
Qed.

(** X14. In exact arithmetic, along any sequence of [decide] and [learn]
    calls the exploration rate never rises and never falls below
    [epsilon_min], provided it starts at or above it and the decay factor
    lies in [0, 1]; the step counter counts the [decide] calls, and
    [epsilon_min] and [epsilon_decay] stay. *)
Theorem epsilon_stays_in_range (calls : list (qcall R)) (c c' : QLearningController.t R) :
  qrun c calls = Some c' ->
  (QLearningController.epsilon_min c <= QLearningController.epsilon c)%R ->
  (0 <= QLearningController.epsilon c)%R ->
  (0 <= QLearningController.epsilon_decay c <= 1)%R ->
  (QLearningController.epsilon_min c <= QLearningController.epsilon c'
   <= QLearningController.epsilon c)%R
  /\ QLearningController.step_count c'
     = QLearningController.step_count c
       + Z.of_nat (List.length (filter (fun call => negb (is_qlearn call)) calls))
  /\ QLearningController.epsilon_min c' = QLearningController.epsilon_min c
  /\ QLearningController.epsilon_decay c' = QLearningController.epsilon_decay c.
Proof.
  revert c. induction calls as [|call calls IH]; intros c Hrun Hmin H0 Hdecay.
  - inversion Hrun; subst c'. simpl. repeat split; try lra. lia.
  - rewrite qrun_cons in Hrun. unfold bind in Hrun.
    destruct (qrun_call c call) as [c1|] eqn:Hcall; [|discriminate].
    destruct (qrun_call_epsilon c call c1 Hcall Hmin H0 Hdecay)
      as (Em & Ed & Hrange & H0' & Hs & _).
    destruct (IH c1 Hrun) as (Hr & Hs' & Em' & Ed').
    + rewrite Em. lra.
    + exact H0'.
    + rewrite Ed. exact Hdecay.
    + rewrite Em in Hr. rewrite Em', Ed', Em, Ed, Hs', Hs.
      split; [lra|]. split; [|split; reflexivity].
      simpl. destruct (is_qlearn call); simpl; lia.
Qed.

Lemma epsilon_stays_in_range_witness :
  exists c',
    qrun (F := R) QLearningController.default
      [QDecide quiet_state (lit 1 2) 0; QLearn quiet_state 1%R quiet_state] = Some c'
    /\ (lit 1 100 <= QLearningController.epsilon c' <= lit 3 100)%R
    /\ QLearningController.step_count c' = 1.
Proof.
  destruct (qrun_call_ok (F := R) QLearningController.default
              (QDecide quiet_state (lit 1 2) 0) default_wf (init_closed _ _ _ _ _ _)
              ltac:(simpl; lia)) as (c1 & Hc1 & Hwf1 & Hcl1 & _).
  destruct (qrun_call_ok c1 (QLearn quiet_state 1%R quiet_state) Hwf1 Hcl1 I)
    as (c' & Hc' & _).
  assert (Hrun : qrun (F := R) QLearningController.default
                   [QDecide quiet_state (lit 1 2) 0; QLearn quiet_state 1%R quiet_state]
                 = Some c').
  { rewrite qrun_cons, Hc1. unfold bind. rewrite qrun_cons, Hc'. reflexivity. }
  exists c'. split; [exact Hrun|].
  destruct (epsilon_stays_in_range _ _ c' Hrun) as (Hr & Hs & _).
  - simpl. unfold lit. simpl. lra.
  - simpl. unfold lit. simpl. lra.
  - simpl. unfold lit. simpl. lra.
  - split; [exact Hr | exact Hs].
Defined.

(** One [learn] after a recorded decision: the other entries of the keys
    the table had keep their values, and the table loses no key. *)
Lemma learn_frame {F} `{PyFloat F} (c : QLearningController.t F) (s : State) (r : F)
    (ns : State) (key : QLearningController.Key) (action : Z)
    (c' : QLearningController.t F) :
  q_wf c -> QLearningController.last c = Some (key, action) ->
  QLearningController.learn c s r ns = Some c' ->
  (forall k, dict_mem QLearningController.key_eqb k (QLearningController.q c) = true ->
             dict_mem QLearningController.key_eqb k (QLearningController.q c') = true)
  /\ (forall k a, (k, a) <> (key, action) ->
        dict_mem QLearningController.key_eqb k (QLearningController.q c) = true ->
        QLearningController.q_value c' k a = QLearningController.q_value c k a).
Proof.
  intros Hwf Hlast Hl.
  destruct (learn_recorded c s r ns key action Hwf Hlast)
    as (row & old & nb & Hrow & Hold & _ & Hlearn).
  cbv zeta in Hrow, Hlearn. rewrite Hlearn in Hl. injection Hl as Hc'. subst c'.
  set (nk := QLearningController.state_key c ns) in *.
  split.
  - intros k Hk. simpl. apply (dict_mem_set _ key_eqb_eq). apply ensure_state_mem. exact Hk.
  - intros k a Hne Hk. unfold QLearningController.q_value, bind. simpl.
    unfold dict_mem in Hk.
    destruct (dict_get QLearningController.key_eqb k (QLearningController.q c))
      as [krow|] eqn:Ek; [|discriminate].
    pose proof (ensure_state_get c k nk krow Ek) as Ek1.
    destruct (QLearningController.key_eqb k key) eqn:E.
    + apply key_eqb_eq in E. subst k.
      rewrite (dict_get_set_same _ key_eqb_eq).
      rewrite Hrow in Ek1. inversion Ek1; subst krow.
      apply (dict_get_set_other _ Z.eqb_eq). intros ->. apply Hne. reflexivity.
    + rewrite (dict_get_set_other _ key_eqb_eq).
      * rewrite Ek1. reflexivity.
      * intros ->. rewrite (eqb_refl' _ key_eqb_eq) in E. discriminate.
Qed.

(** X15. However many [learn] calls follow a decision, none raises, the
    recorded decision stays, and only the table entry of that decision is
    written: every other entry of the keys the table had keeps its value.
    So the rewards of all the intersections of a network step are credited
    to the one decision taken last. *)
Theorem learns_touch_one_entry {F} `{PyFloat F} (calls : list (qcall F))
    (c : QLearningController.t F) (key : QLearningController.Key) (action : Z) :
  q_wf c -> QLearningController.last c = Some (key, action) ->
  forallb is_qlearn calls = true ->
  exists c',
    qrun c calls = Some c'
    /\ QLearningController.last c' = Some (key, action)
    /\ QLearningController.q_value c' key action <> None
    /\ (forall k a, (k, a) <> (key, action) ->
          dict_mem QLearningController.key_eqb k (QLearningController.q c) = true ->
          QLearningController.q_value c' k a = QLearningController.q_value c k a).
Proof.
  revert c. induction calls as [|call calls IH]; intros c Hwf Hlast Hall.
  - exists c. split; [reflexivity|]. split; [exact Hlast|]. split.
    + destruct Hwf as (_ & _ & Hrec). exact (Hrec key action Hlast).
    + intros k a _ _. reflexivity.
  - simpl in Hall. apply andb_true_iff in Hall. destruct Hall as [Hcall Hall].
    destruct call as [s u pick | s r ns]; [discriminate|].
    destruct (learn_wf c s r ns Hwf) as (c1 & Hl & Hwf1 & Hlast1).
    rewrite Hlast in Hlast1.
    destruct (learn_frame c s r ns key action c1 Hwf Hlast Hl) as [Hmem Hframe].
    destruct (IH c1 Hwf1 Hlast1 Hall) as (c' & Hrun & Hlast' & Hdef & Hrest).
    exists c'. rewrite qrun_cons. simpl. rewrite Hl. simpl.
    split; [exact Hrun|]. split; [exact Hlast'|]. split; [exact Hdef|].
    intros k a Hne Hk. rewrite (Hrest k a Hne (Hmem k Hk)). apply Hframe; assumption.
Qed.

Lemma learns_touch_one_entry_witness :
  exists c',
    qrun (F := float) decided
      [QLearn quiet_state (of_int 1) quiet_state; QLearn quiet_state (of_int 3) quiet_state]
    = Some c'
    /\ QLearningController.last c' = Some (quiet_key, 12)
    /\ QLearningController.q_value c' quiet_key 10
       = QLearningController.q_value (F := float) decided quiet_key 10.
Proof.
  assert (Hwf : q_wf (F := float) decided).
  { unfold decided.
    destruct (QLearningController.decide (F := float) QLearningController.default
                quiet_state (lit 1 2) 0) as [[d c]|] eqn:Hdec; [|exact default_wf].
    exact (proj1 (decide_wf _ _ _ _ _ _ default_wf Hdec)). }
  destruct (learns_touch_one_entry (F := float)
              [QLearn quiet_state (of_int 1) quiet_state;
               QLearn quiet_state (of_int 3) quiet_state]
              decided quiet_key 12 Hwf eq_refl eq_refl)
    as (c' & Hrun & Hlast & _ & Hrest).
  exists c'. split; [exact Hrun|]. split; [exact Hlast|].
  apply Hrest; [intros E; inversion E | reflexivity].
Defined.

(** X16. No call of a controller built by the constructor raises: any
    sequence of [decide] and [learn] calls runs to the end, whatever the
    states, rewards and random draws, and leaves a table that has a value for
    every action under every key it holds and mentions no other action; the
    action list, the learning rate and the discount stay as constructed. *)
Theorem qrun_never_raises {F} `{PyFloat F} (calls : list (qcall F))
    (c : QLearningController.t F) :
  q_wf c -> q_closed c ->
  Forall (pick_in_range (List.length (QLearningController.actions c))) calls ->
  exists c',
    qrun c calls = Some c' /\ q_wf c' /\ q_closed c'
    /\ QLearningController.actions c' = QLearningController.actions c
    /\ QLearningController.alpha c' = QLearningController.alpha c
    /\ QLearningController.gamma c' = QLearningController.gamma c.
Proof.
  revert c. induction calls as [|call calls IH]; intros c Hwf Hcl Hall.
  - exists c. split; [reflexivity|]. split; [exact Hwf|]. split; [exact Hcl|].
    repeat split; reflexivity.
  - inversion Hall as [|? ? Hcall Hrest]; subst.
    destruct (qrun_call_ok c call Hwf Hcl Hcall) as (c1 & Hc1 & Hwf1 & Hcl1 & Ea & Eal & Ega).
    rewrite <- Ea in Hrest.
    destruct (IH c1 Hwf1 Hcl1 Hrest) as (c' & Hrun & Hwf' & Hcl' & Ea' & Eal' & Ega').
    exists c'. rewrite qrun_cons, Hc1. simpl.
    split; [exact Hrun|]. split; [exact Hwf'|]. split; [exact Hcl'|].
    rewrite Ea', Eal', Ega'. repeat split; assumption.
Qed.

Lemma qrun_never_raises_witness :
  exists c',
    qrun (F := float) QLearningController.default
      [QDecide quiet_state (lit 1 100) 2; QLearn quiet_state (of_int 1) quiet_state;
       QDecide quiet_state (lit 1 2) 0] = Some c'
    /\ q_wf c' /\ q_closed c'
    /\ QLearningController.actions c' = [10; 12; 14].
Proof.
  destruct (qrun_never_raises (F := float)
              [QDecide quiet_state (lit 1 100) 2; QLearn quiet_state (of_int 1) quiet_state;
               QDecide quiet_state (lit 1 2) 0]
              QLearningController.default default_wf (init_closed _ _ _ _ _ _))
    as (c' & Hrun & Hwf & Hcl & Ea & _).
  - repeat constructor.
  - exists c'. split; [exact Hrun|]. split; [exact Hwf|]. split; [exact Hcl|]. exact Ea.
Defined.

(** ** The neural controller: decisions, features and learning *)

Section NeuralMore.
Import NeuralController.
Local Open Scope R_scope.

Lemma learn_sizes (nc : t) (s : State) (r : R) (ns : State) :
  input_size (learn nc s r ns) = input_size nc
  /\ hidden_size (learn nc s r ns) = hidden_size nc
  /\ lr (learn nc s r ns) = lr nc.
Proof.
  unfold learn. destruct (rev (memory nc)); [tauto|].
  rewrite forward_eq. destruct (fold_left _ _ _) as [[w1' b1'] w2']. simpl. tauto.
Qed.

Lemma Rmin_unit (x : R) : 0 <= x -> 0 <= Rmin 1 x <= 1.
Proof. intros Hx. unfold Rmin. destruct (Rle_dec 1 x); lra. Qed.

(** X17. For a controller with the shapes the constructor gives, the
    green duration [decide] returns lies between 4 and 16 seconds, the
    bounds included; it requests no phase, and it is a function of the
    encoded features alone. *)
Theorem neural_duration_in_range (nc : t) (s : State) :
  well_shaped nc ->
  4 <= duration (fst (decide nc s)) <= 16
  /\ target_phase (fst (decide nc s)) = None
  /\ forall s', encode s' = encode s ->
       duration (fst (decide nc s')) = duration (fst (decide nc s)).
Proof.
  intros _. rewrite decide_duration.
  pose proof (sigmoid_range (raw_out nc (encode s))) as [H0 H1].
  split; [lra|]. split; [reflexivity|].
  intros s' He. rewrite decide_duration, He. reflexivity.
Qed.

Lemma neural_duration_in_range_witness :
  4 <= duration (fst (decide (default (fun _ => 0)) quiet_state)) <= 16.
Proof.
  refine (proj1 (neural_duration_in_range (default (fun _ => 0)) quiet_state _)).
  apply init_well_shaped. lia.
Defined.

(** X18. [_encode] produces five features; with non-negative queues each
    lies in [0, 1]; an unknown time of day is encoded as the afternoon is,
    and any phase other than "NS" as 0. *)
Theorem encode_in_unit_interval (s : State) :
  (0 <= st_queue_ns s)%Z -> (0 <= st_queue_ew s)%Z ->
  List.length (encode s) = 5%nat
  /\ Forall (fun x => 0 <= x <= 1) (encode s)
  /\ (st_time_of_day s <> "morning"%string -> st_time_of_day s <> "night"%string ->
      get (encode s) 3 = 5 / 10)
  /\ (st_phase s <> "NS"%string -> get (encode s) 2 = 0).
Proof.
  intros Hns Hew. unfold encode. cbv zeta.
  assert (Hq : forall q, (0 <= q)%Z -> 0 <= Rmin 1 (IZR q / 30) <= 1).
  { intros q Hq. apply Rmin_unit. apply IZR_le in Hq. simpl in Hq. lra. }
  split; [reflexivity|]. split; [|split].
  - apply Forall_cons; [apply Hq; exact Hns|].
    apply Forall_cons; [apply Hq; exact Hew|].
    apply Forall_cons; [destruct (st_phase s =? "NS")%string; lra|].
    apply Forall_cons.
    { destruct (st_time_of_day s =? "morning")%string; [lra|].
      destruct (st_time_of_day s =? "afternoon")%string; [lra|].
      destruct (st_time_of_day s =? "night")%string; lra. }
    apply Forall_cons; [destruct (st_emergency s); lra|].
    apply Forall_nil.
  - intros Hm Hn. unfold get. simpl.
    apply String.eqb_neq in Hm. apply String.eqb_neq in Hn. rewrite Hm, Hn.
    destruct (st_time_of_day s =? "afternoon")%string; reflexivity.
  - intros Hp. unfold get. simpl. apply String.eqb_neq in Hp. rewrite Hp. reflexivity.
Qed.

Lemma encode_in_unit_interval_witness :
  List.length (encode quiet_state) = 5%nat
  /\ Forall (fun x => 0 <= x <= 1) (encode quiet_state).
Proof.
  destruct (encode_in_unit_interval quiet_state) as (Hl & Hall & _).
  - simpl. lia.
  - simpl. lia.
  - split; [exact Hl | exact Hall].
Defined.

(** X19. The queue features saturate at 30 vehicles: two states that
    agree on phase, time of day and emergency, and whose queues are equal or
    both at least 30 on each approach, get the same features and the same
    duration from [decide]. *)
Theorem decide_saturates_queues (nc : t) (s s' : State) :
  st_phase s = st_phase s' -> st_time_of_day s = st_time_of_day s' ->
  st_emergency s = st_emergency s' ->
  (st_queue_ns s = st_queue_ns s' \/ (30 <= st_queue_ns s /\ 30 <= st_queue_ns s'))%Z ->
  (st_queue_ew s = st_queue_ew s' \/ (30 <= st_queue_ew s /\ 30 <= st_queue_ew s'))%Z ->
  encode s = encode s'
  /\ duration (fst (decide nc s)) = duration (fst (decide nc s')).
Proof.
  intros Hp Ht He Hns Hew.
  assert (Hsat : forall q q' : Z,
             (q = q' \/ (30 <= q /\ 30 <= q'))%Z ->
             Rmin 1 (IZR q / 30) = Rmin 1 (IZR q' / 30)).
  { intros q q' [-> | [Hq Hq']]; [reflexivity|].
    apply IZR_le in Hq, Hq'. simpl in Hq, Hq'.
    rewrite !Rmin_left by lra. reflexivity. }
  assert (Henc : encode s = encode s').
  { unfold encode. cbv zeta. rewrite Hp, Ht, He, (Hsat _ _ Hns), (Hsat _ _ Hew). reflexivity. }
  split; [exact Henc|]. rewrite !decide_duration, Henc. reflexivity.
Qed.

Lemma decide_saturates_queues_witness :
  duration (fst (decide (default (fun _ => 0))
                   {| st_intersection := 0; st_queue_ns := 30; st_queue_ew := 2;
                      st_phase := "NS"; st_time_of_day := "morning"; st_emergency := false |}))
  = duration (fst (decide (default (fun _ => 0))
                     {| st_intersection := 0; st_queue_ns := 75; st_queue_ew := 2;
                        st_phase := "NS"; st_time_of_day := "morning";
                        st_emergency := false |})).
Proof.
  refine (proj2 (decide_saturates_queues (default (fun _ => 0)) _ _ _ _ _ _ _)).
  - reflexivity.
  - reflexivity.
  - reflexivity.
  - right. simpl. lia.
  - left. reflexivity.
Defined.

(** X20. Along any sequence of [decide] and [learn] calls the weights
    keep the shapes the constructor gave them, and the sizes and the learning
    rate stay: every index [_forward] and [learn] use stays in range. *)
Theorem neural_run_keeps_shape (calls : list call) (nc : t) :
  well_shaped nc ->
  well_shaped (run nc calls)
  /\ input_size (run nc calls) = input_size nc
  /\ hidden_size (run nc calls) = hidden_size nc
  /\ lr (run nc calls) = lr nc.
Proof.
  unfold run. revert nc. induction calls as [|c calls IH]; intros nc Hwf.
  - simpl. tauto.
  - change (fold_left run_call (c :: calls) nc)
      with (fold_left run_call calls (run_call nc c)).
    assert (Hstep : well_shaped (run_call nc c)
                    /\ input_size (run_call nc c) = input_size nc
                    /\ hidden_size (run_call nc c) = hidden_size nc
                    /\ lr (run_call nc c) = lr nc).
    { destruct c as [s | s r ns]; simpl.
      - split; [apply decide_well_shaped; exact Hwf | tauto].
      - split; [apply learn_well_shaped; exact Hwf | apply learn_sizes]. }
    destruct Hstep as (Hwf1 & Ei & Eh & El).
    destruct (IH _ Hwf1) as (Hwf' & Ei' & Eh' & El').
    rewrite Ei', Eh', El', Ei, Eh, El. tauto.
Qed.

Lemma neural_run_keeps_shape_witness :
  well_shaped (run (default (fun _ => 0))
                 [Decide quiet_state; Learn quiet_state 1 quiet_state; Decide quiet_state]).
Proof.
  refine (proj1 (neural_run_keeps_shape _ (default (fun _ => 0)) _)).
  apply init_well_shaped. lia.
Defined.

Lemma grad_out_saturates (p r : R) :
  (20 <= r -> grad_out_of p r = grad_out_of p 20)
  /\ (r <= -20 -> grad_out_of p r = grad_out_of p (-20)).
Proof.
  unfold grad_out_of. cbv zeta. split; intros Hr.
  - replace (Rmin 1 (r / 20)) with 1 by (rewrite Rmin_left; lra).
    replace (Rmin 1 (20 / 20)) with 1 by (rewrite Rmin_left; lra). reflexivity.
  - replace (Rmax (-1) (Rmin 1 (r / 20))) with (-1).
    + replace (Rmax (-1) (Rmin 1 (-20 / 20))) with (-1); [reflexivity|].
      rewrite Rmin_right by lra. rewrite Rmax_left by lra. reflexivity.
    + rewrite Rmin_right by lra. rewrite Rmax_left by lra. reflexivity.
Qed.

(** X21. [learn] clips the reward at 20 in absolute value: a reward of 20
    or more has exactly the effect of 20, and one of -20 or less the effect
    of -20, whatever the controller holds; with nothing remembered [learn]
    changes nothing. *)
Theorem learn_reward_saturates (nc : t) (s ns : State) (reward : R) :
  (20 <= reward -> learn nc s reward ns = learn nc s 20 ns)
  /\ (reward <= -20 -> learn nc s reward ns = learn nc s (-20) ns)
  /\ (memory nc = [] -> learn nc s reward ns = nc).
Proof.
  split; [|split].
  - intros Hr. unfold learn. destruct (rev (memory nc)) as [|last rest]; [reflexivity|].
    rewrite forward_eq. rewrite (proj1 (grad_out_saturates _ reward) Hr). reflexivity.
  - intros Hr. unfold learn. destruct (rev (memory nc)) as [|last rest]; [reflexivity|].
    rewrite forward_eq. rewrite (proj2 (grad_out_saturates _ reward) Hr). reflexivity.
  - intros Hm. unfold learn. rewrite Hm. reflexivity.
Qed.
End NeuralMore.

(** ** The traffic generator *)

Section GeneratorShape.
Import TrafficGenerator.
Context {F : Type} `{PyFloat F} {Rng : Type}.
Variable randint : Rng -> Z -> Z -> Z * Rng.
Variable random : Rng -> F * Rng.

(** The index into [time_periods] is always in range. *)
Lemma current_profile_at_none (varied_time : bool) (period_length : Z) (profile : string)
    (step : Z) :
  current_profile_at varied_time period_length profile step = None
  <-> varied_time = true /\ period_length = 0.
Proof.
  unfold current_profile_at. destruct varied_time.
  - destruct (period_length =? 0) eqn:E.
    + apply Z.eqb_eq in E. tauto.
    + apply Z.eqb_neq in E. split; [|tauto].
      intros Hnone. apply nth_error_None in Hnone. simpl in Hnone.
      pose proof (Z.mod_pos_bound (step / period_length) 3 ltac:(lia)). lia.
  - split; [discriminate | intros [Hv _]; discriminate].
Qed.

Lemma stream_from_none (n : nat) (step intersections : Z) (profile : string)
    (emergency_rate : F) (varied_time : bool) (period_length : Z) (rng : Rng) :
  stream_from randint random n step intersections profile emergency_rate varied_time
    period_length rng = None
  <-> n <> O /\ varied_time = true /\ period_length = 0.
Proof.
  revert step rng. induction n as [|n IH]; intros step rng; simpl.
  - split; [discriminate | intros [Hn _]; contradiction].
  - unfold bind.
    destruct (current_profile_at varied_time period_length profile step) as [p|] eqn:Ep.
    + destruct (step_arrivals randint random (Z.to_nat intersections) step p (profile_cfg p)
                  emergency_rate rng) as [row rng'].
      assert (Hok : ~ (varied_time = true /\ period_length = 0)).
      { intros Hbad. apply current_profile_at_none with (profile := profile) (step := step)
          in Hbad. rewrite Hbad in Ep. discriminate. }
      destruct (stream_from randint random n (step + 1) intersections profile emergency_rate
                  varied_time period_length rng') as [rest|] eqn:Erest.
      * split; [discriminate | intros [_ Hbad]; contradiction].
      * apply IH in Erest. destruct Erest as [_ Hbad]. contradiction.
    + apply current_profile_at_none in Ep. split; [intros _|reflexivity].
      split; [discriminate | exact Ep].
Qed.

Lemma step_arrivals_spec (n : nat) (step : Z) (p : string) (cfg : (Z * Z) * (Z * Z))
    (emergency_rate : F) (rng : Rng) :
  let row := fst (step_arrivals randint random n step p cfg emergency_rate rng) in
  List.length row = n
  /\ forall a, In a row -> a_step a = step /\ a_time_of_day a = p.
Proof.
  revert rng. induction n as [|n IH]; intros rng; simpl.
  - split; [reflexivity | intros a []].
  - destruct (draw_rate randint rng (fst cfg)) as [ns rng1].
    destruct (draw_rate randint rng1 (snd cfg)) as [ew rng2].
    destruct (random rng2) as [u rng3].
    specialize (IH rng3). cbv zeta in IH.
    destruct (step_arrivals randint random n step p cfg emergency_rate rng3) as [rest rng4].
    simpl in *. destruct IH as [Hlen Hall]. split; [rewrite Hlen; reflexivity|].
    intros a [<- | Hin]; [split; reflexivity | apply Hall; exact Hin].
Qed.

Lemma stream_from_spec (n : nat) (step intersections : Z) (profile : string)
    (emergency_rate : F) (varied_time : bool) (period_length : Z) (rng : Rng)
    (stream : list (list Arrivals)) :
  stream_from randint random n step intersections profile emergency_rate varied_time
    period_length rng = Some stream ->
  List.length stream = n
  /\ forall t row, nth_error stream t = Some row ->
       List.length row = Z.to_nat intersections
       /\ forall a, In a row ->
            a_step a = step + Z.of_nat t
            /\ current_profile_at varied_time period_length profile (step + Z.of_nat t)
               = Some (a_time_of_day a).
Proof.
  revert step rng stream. induction n as [|n IH]; intros step rng stream; simpl.
  - intros Hs. inversion Hs; subst stream. split; [reflexivity|].
    intros t row Hrow. destruct t; discriminate.
  - unfold bind.
    destruct (current_profile_at varied_time period_length profile step) as [p|] eqn:Ep;
      [|discriminate].
    pose proof (step_arrivals_spec (Z.to_nat intersections) step p (profile_cfg p)
                  emergency_rate rng) as Hrow0.
    destruct (step_arrivals randint random (Z.to_nat intersections) step p (profile_cfg p)
                emergency_rate rng) as [row0 rng'].
    cbv zeta in Hrow0. simpl in Hrow0. destruct Hrow0 as [Hlen0 Hall0].
    destruct (stream_from randint random n (step + 1) intersections profile emergency_rate
                varied_time period_length rng') as [rest|] eqn:Erest; [|discriminate].
    intros Hs. inversion Hs; subst stream.
    destruct (IH _ _ _ Erest) as [Hlen Hall]. split; [simpl; rewrite Hlen; reflexivity|].
    intros t row Hrow. destruct t as [|t]; simpl in Hrow.
    + inversion Hrow; subst row. split; [exact Hlen0|].
      intros a Hin. destruct (Hall0 a Hin) as [Hs0 Hp0].
      rewrite Z.add_0_r, Hs0, Hp0. split; [reflexivity | exact Ep].
    + destruct (Hall t row Hrow) as [Hl Ha]. split; [exact Hl|].
      intros a Hin. destruct (Ha a Hin) as [Hs1 Hp1].
      replace (step + Z.of_nat (S t)) with (step + 1 + Z.of_nat t) by lia.
      split; assumption.
Qed.

(** X22. [generate_stream] raises, the [ZeroDivisionError] of
    [step // period_length], exactly when [varied_time] is set and [steps] is
    1 or 2; for every other input, zero and negative [steps] and
    [intersections] included, it yields its lists to the end. *)
Theorem generate_stream_raises_iff (steps intersections : Z) (profile : string)
    (emergency_rate : F) (varied_time : bool) (rng : Rng) :
  generate_stream randint random steps intersections profile emergency_rate varied_time rng
  = None
  <-> varied_time = true /\ (steps = 1 \/ steps = 2).
Proof.
  unfold generate_stream. rewrite stream_from_none. split.
  - intros (Hn & Hv & Hp). split; [exact Hv|]. rewrite Hv in Hp.
    assert (0 < steps) by lia.
    pose proof (Z.div_mod steps 3 ltac:(lia)) as Hdm.
    pose proof (Z.mod_pos_bound steps 3 ltac:(lia)). lia.
  - intros [Hv Hs]. rewrite Hv. split; [lia|]. split; [reflexivity|].
    destruct Hs as [-> | ->]; reflexivity.
Qed.

(** X23. When [generate_stream] does not raise it yields [steps] lists
    (none for negative [steps]); the list of step [t] has one record per
    intersection, each carrying the step index [t] and one common time of
    day, which without [varied_time] is the requested profile, unknown names
    included. *)
Theorem generate_stream_shape (steps intersections : Z) (profile : string)
    (emergency_rate : F) (varied_time : bool) (rng : Rng) (stream : list (list Arrivals)) :
  generate_stream randint random steps intersections profile emergency_rate varied_time rng
  = Some stream ->
  List.length stream = Z.to_nat steps
  /\ forall t row, nth_error stream t = Some row ->
       List.length row = Z.to_nat intersections
       /\ (forall a, In a row -> a_step a = Z.of_nat t)
       /\ (forall a b, In a row -> In b row -> a_time_of_day a = a_time_of_day b)
       /\ (varied_time = false -> forall a, In a row -> a_time_of_day a = profile).
Proof.
  unfold generate_stream. intros Hs.
  destruct (stream_from_spec _ _ _ _ _ _ _ _ _ Hs) as [Hlen Hall].
  split; [exact Hlen|]. intros t row Hrow.
  destruct (Hall t row Hrow) as [Hl Ha]. split; [exact Hl|]. split; [|split].
  - intros a Hin. destruct (Ha a Hin) as [Hstep _]. rewrite Hstep. lia.
  - intros a b Hin Hin'. destruct (Ha a Hin) as [_ Hpa]. destruct (Ha b Hin') as [_ Hpb].
    rewrite Hpa in Hpb. inversion Hpb. reflexivity.
  - intros Hv a Hin. destruct (Ha a Hin) as [_ Hpa]. rewrite Hv in Hpa.
    simpl in Hpa. inversion Hpa. reflexivity.
Qed.

(** X24. With [varied_time] and at least six steps, the run is cut into
    periods of [steps // 3] steps labelled morning, afternoon and night in
    that order, and the one or two steps left over when [steps] is not a
    multiple of three are labelled morning again. *)
Theorem varied_time_periods (steps intersections : Z) (profile : string)
    (emergency_rate : F) (rng : Rng) (stream : list (list Arrivals)) :
  6 <= steps ->
  generate_stream randint random steps intersections profile emergency_rate true rng
  = Some stream ->
  forall t row a, nth_error stream t = Some row -> In a row ->
    let p := steps / 3 in
    let t := Z.of_nat t in
    (t < p -> a_time_of_day a = "morning"%string)
    /\ (p <= t < 2 * p -> a_time_of_day a = "afternoon"%string)
    /\ (2 * p <= t < 3 * p -> a_time_of_day a = "night"%string)
    /\ (3 * p <= t -> a_time_of_day a = "morning"%string).
Proof.
  intros Hsteps Hs t row a Hrow Hin p t'.
  unfold generate_stream in Hs.
  destruct (stream_from_spec _ _ _ _ _ _ _ _ _ Hs) as [Hlen Hall].
  destruct (Hall t row Hrow) as [_ Ha]. destruct (Ha a Hin) as [_ Hp].
  assert (Ht : (t < List.length stream)%nat) by (apply nth_error_Some; rewrite Hrow; discriminate).
  rewrite Hlen in Ht. fold p in Hp. change (0 + Z.of_nat t) with t' in Hp.
  assert (Hp2 : 2 <= p).
  { subst p. pose proof (Z.div_mod steps 3 ltac:(lia)).
    pose proof (Z.mod_pos_bound steps 3 ltac:(lia)). lia. }
  assert (Hbound : 0 <= t' < 3 * p + 2).
  { subst p t'. pose proof (Z.div_mod steps 3 ltac:(lia)).
    pose proof (Z.mod_pos_bound steps 3 ltac:(lia)). lia. }
  unfold current_profile_at in Hp.
  destruct (p =? 0) eqn:E; [apply Z.eqb_eq in E; lia|].
  assert (Hdiv : forall k, k * p <= t' < (k + 1) * p -> t' / p = k).
  { intros k Hk. symmetry. apply (Z.div_unique t' p k (t' - k * p)); lia. }
  repeat split; intros Hcase.
  - rewrite (Hdiv 0) in Hp by lia. simpl in Hp. inversion Hp. reflexivity.
  - rewrite (Hdiv 1) in Hp by lia. simpl in Hp. inversion Hp. reflexivity.
  - rewrite (Hdiv 2) in Hp by lia. simpl in Hp. inversion Hp. reflexivity.
  - rewrite (Hdiv 3) in Hp by lia. simpl in Hp. inversion Hp. reflexivity.
Qed.
End GeneratorShape.

Section GeneratorRanges.
Import TrafficGenerator.
Context {F : Type} `{PyFloat F} {Rng : Type}.
Variable randint : Rng -> Z -> Z -> Z * Rng.
Variable random : Rng -> F * Rng.

Lemma profile_cfg_ordered (p : string) :
  fst (fst (profile_cfg p)) <= snd (fst (profile_cfg p))
  /\ fst (snd (profile_cfg p)) <= snd (snd (profile_cfg p))
  /\ 1 <= fst (fst (profile_cfg p)) /\ snd (fst (profile_cfg p)) <= 6
  /\ 0 <= fst (snd (profile_cfg p)) /\ snd (snd (profile_cfg p)) <= 4.
Proof.
  unfold profile_cfg, TIME_PROFILES. simpl.
  destruct (p =? "morning")%string; [simpl; lia|].
  destruct (p =? "afternoon")%string; [simpl; lia|].
  destruct (p =? "night")%string; simpl; lia.
Qed.

Lemma step_arrivals_ranges (n : nat) (step : Z) (p : string) (cfg : (Z * Z) * (Z * Z))
    (emergency_rate : F) (rng : Rng) :
  (forall g a b, a <= b -> a <= fst (randint g a b) <= b) ->
  fst (fst cfg) <= snd (fst cfg) -> fst (snd cfg) <= snd (snd cfg) ->
  forall a, In a (fst (step_arrivals randint random n step p cfg emergency_rate rng)) ->
    fst (fst cfg) <= arrivals_ns a <= snd (fst cfg)
    /\ fst (snd cfg) <= arrivals_ew a <= snd (snd cfg).
Proof.
  intros Hrand Hns Hew. revert rng. induction n as [|n IH]; intros rng; simpl.
  - intros a [].
  - pose proof (Hrand rng _ _ Hns) as Hd1. unfold draw_rate.
    destruct (randint rng (fst (fst cfg)) (snd (fst cfg))) as [ns rng1]. simpl in Hd1.
    pose proof (Hrand rng1 _ _ Hew) as Hd2.
    destruct (randint rng1 (fst (snd cfg)) (snd (snd cfg))) as [ew rng2]. simpl in Hd2.
    destruct (random rng2) as [u rng3].
    specialize (IH rng3).
    destruct (step_arrivals randint random n step p cfg emergency_rate rng3) as [rest rng4].
    simpl in *. intros a [<- | Hin]; [simpl; split; assumption | apply IH; exact Hin].
Qed.

Lemma stream_from_ranges (n : nat) (step intersections : Z) (profile : string)
    (emergency_rate : F) (varied_time : bool) (period_length : Z) (rng : Rng)
    (stream : list (list Arrivals)) :
  (forall g a b, a <= b -> a <= fst (randint g a b) <= b) ->
  stream_from randint random n step intersections profile emergency_rate varied_time
    period_length rng = Some stream ->
  forall row a, In row stream -> In a row ->
    let cfg := profile_cfg (a_time_of_day a) in
    fst (fst cfg) <= arrivals_ns a <= snd (fst cfg)
    /\ fst (snd cfg) <= arrivals_ew a <= snd (snd cfg).
Proof.
  intros Hrand. revert step rng stream.
  induction n as [|n IH]; intros step rng stream; simpl.
  - intros Hs. inversion Hs; subst stream. intros row a [].
  - unfold bind.
    destruct (current_profile_at varied_time period_length profile step) as [p|] eqn:Ep;
      [|discriminate].
    destruct (profile_cfg_ordered p) as (Hns & Hew & _).
    pose proof (step_arrivals_ranges (Z.to_nat intersections) step p (profile_cfg p)
                  emergency_rate rng Hrand Hns Hew) as Hrange0.
    pose proof (step_arrivals_spec randint random (Z.to_nat intersections) step p
                  (profile_cfg p) emergency_rate rng) as Hrow0.
    destruct (step_arrivals randint random (Z.to_nat intersections) step p (profile_cfg p)
                emergency_rate rng) as [row0 rng'].
    cbv zeta in Hrow0. simpl in Hrow0, Hrange0. destruct Hrow0 as [_ Hall0].
    destruct (stream_from randint random n (step + 1) intersections profile emergency_rate
                varied_time period_length rng') as [rest|] eqn:Erest; [|discriminate].
    intros Hs. inversion Hs; subst stream.
    intros row a [<- | Hin] Ha.
    + destruct (Hall0 a Ha) as [_ Hp]. cbv zeta. rewrite Hp. apply Hrange0. exact Ha.
    + exact (IH _ _ _ Erest row a Hin Ha).
Qed.

(** X25. If [rng.randint(a, b)] returns a number between [a] and [b],
    every record of the stream has arrivals inside the ranges of the profile
    its time of day names (the afternoon's for an unknown name): at least one
    and at most six vehicles from north-south, at most four and never a
    negative number from east-west. *)
Theorem generate_stream_arrivals_in_range (steps intersections : Z) (profile : string)
    (emergency_rate : F) (varied_time : bool) (rng : Rng) (stream : list (list Arrivals)) :
  (forall g a b, a <= b -> a <= fst (randint g a b) <= b) ->
  generate_stream randint random steps intersections profile emergency_rate varied_time rng
  = Some stream ->
  forall row a, In row stream -> In a row ->
    let cfg := profile_cfg (a_time_of_day a) in
    (fst (fst cfg) <= arrivals_ns a <= snd (fst cfg)
     /\ fst (snd cfg) <= arrivals_ew a <= snd (snd cfg))
    /\ 1 <= arrivals_ns a <= 6 /\ 0 <= arrivals_ew a <= 4.
Proof.
  intros Hrand Hs row a Hrow Ha cfg. unfold generate_stream in Hs.
  pose proof (stream_from_ranges _ _ _ _ _ _ _ _ _ Hrand Hs row a Hrow Ha) as Hr.
  cbv zeta in Hr. fold cfg in Hr. split; [exact Hr|].
  destruct (profile_cfg_ordered (a_time_of_day a)) as (_ & _ & H1 & H2 & H3 & H4).
  fold cfg in H1, H2, H3, H4. lia.
Qed.
End GeneratorRanges.

Lemma counter_randint_range (g : nat) (a b : Z) :
  a <= b -> a <= fst (TrafficGenerator.counter_randint g a b) <= b.
Proof.
  intros Hab. unfold TrafficGenerator.counter_randint. simpl.
  pose proof (Z.mod_pos_bound (Z.of_nat g) (b - a + 1) ltac:(lia)). lia.
Qed.

Lemma generate_stream_shape_witness :
  exists stream,
    TrafficGenerator.generate_stream (F := float) TrafficGenerator.counter_randint
      TrafficGenerator.counter_random 3 2 "rush" (lit 2 100) false 0%nat = Some stream
    /\ List.length stream = 3%nat
    /\ forall t row, nth_error stream t = Some row ->
         List.length row = 2%nat /\ forall a, In a row -> a_time_of_day a = "rush"%string.
Proof.
  destruct (TrafficGenerator.generate_stream (F := float) TrafficGenerator.counter_randint
              TrafficGenerator.counter_random 3 2 "rush" (lit 2 100) false 0%nat)
    as [stream|] eqn:Hs; [|vm_compute in Hs; discriminate].
  exists stream. split; [reflexivity|].
  destruct (generate_stream_shape _ _ _ _ _ _ _ _ _ Hs) as [Hlen Hall].
  split; [exact Hlen|]. intros t row Hrow.
  destruct (Hall t row Hrow) as (Hl & _ & _ & Hp).
  split; [exact Hl | exact (Hp eq_refl)].
Defined.

Lemma varied_time_periods_witness :
  exists stream,
    TrafficGenerator.generate_stream (F := float) TrafficGenerator.counter_randint
      TrafficGenerator.counter_random 7 1 "night" (lit 2 100) true 0%nat = Some stream
    /\ forall row a, nth_error stream 6 = Some row -> In a row ->
         a_time_of_day a = "morning"%string.
Proof.
  destruct (TrafficGenerator.generate_stream (F := float) TrafficGenerator.counter_randint
              TrafficGenerator.counter_random 7 1 "night" (lit 2 100) true 0%nat)
    as [stream|] eqn:Hs; [|vm_compute in Hs; discriminate].
  exists stream. split; [reflexivity|]. intros row a Hrow Hin.
  pose proof (varied_time_periods _ _ 7 1 "night"%string (lit 2 100) 0%nat stream
                ltac:(lia) Hs 6%nat row a Hrow Hin) as Hper.
  cbv zeta in Hper. destruct Hper as (_ & _ & _ & Hleft).
  apply Hleft. vm_compute. discriminate.
Defined.

Lemma generate_stream_arrivals_in_range_witness :
  exists stream,
    TrafficGenerator.generate_stream (F := float) TrafficGenerator.counter_randint
      TrafficGenerator.counter_random 2 2 "night" (lit 2 100) false 0%nat = Some stream
    /\ forall row a, In row stream -> In a row ->
         1 <= arrivals_ns a <= 6 /\ 0 <= arrivals_ew a <= 4.
Proof.
  destruct (TrafficGenerator.generate_stream (F := float) TrafficGenerator.counter_randint
              TrafficGenerator.counter_random 2 2 "night" (lit 2 100) false 0%nat)
    as [stream|] eqn:Hs; [|vm_compute in Hs; discriminate].
  exists stream. split; [reflexivity|]. intros row a Hrow Hin.
  exact (proj2 (generate_stream_arrivals_in_range _ _ _ _ _ _ _ _ _
                  counter_randint_range Hs row a Hrow Hin)).
Defined.

(** ** Vehicles are conserved *)

Lemma step_conserves {F} `{PyFloat F} (self : Intersection.t) (a : Arrivals) (d : Decision F) :
  Intersection.queue_ns (snd (Intersection.step self a d))
  + Intersection.queue_ew (snd (Intersection.step self a d))
  + throughput (fst (fst (Intersection.step self a d)))
  = Intersection.queue_ns self + Intersection.queue_ew self + (arrivals_ns a + arrivals_ew a).
Proof.
  destruct (step_service self a d) as (_ & _ & _ & Hthr & Hsrv). cbv zeta in Hsrv.
  rewrite Hthr.
  destruct (_ =? "NS")%string; destruct Hsrv as (H1 & H2 & H3 & H4 & _);
    rewrite H1, H2, H3, H4; lia.
Qed.

Lemma zsum_pointwise {A B C D : Type} (fa : A -> Z) (fb : B -> Z) (fc : C -> Z) (fd : D -> Z)
    (la : list A) :
  forall (lb : list B) (lc : list C) (ld : list D),
    List.length lb = List.length la -> List.length lc = List.length la ->
    List.length ld = List.length la ->
    (forall i a b c d, nth_error la i = Some a -> nth_error lb i = Some b ->
                       nth_error lc i = Some c -> nth_error ld i = Some d ->
                       fa a + fb b = fc c + fd d) ->
    zsum (map fa la) + zsum (map fb lb) = zsum (map fc lc) + zsum (map fd ld).
Proof.
  induction la as [|a la IH]; intros [|b lb] [|c lc] [|d ld] Hb Hc Hd Hpt;
    try discriminate; [reflexivity|].
  simpl in *.
  pose proof (Hpt 0%nat a b c d eq_refl eq_refl eq_refl eq_refl) as H0.
  assert (Hrest : zsum (map fa la) + zsum (map fb lb) = zsum (map fc lc) + zsum (map fd ld)).
  { apply IH; try lia. intros i a' b' c' d' Ha' Hb' Hc' Hd'.
    exact (Hpt (S i) a' b' c' d' Ha' Hb' Hc' Hd'). }
  lia.
Qed.

(** A step of the network neither creates nor loses vehicles, whatever the
    decisions. *)
Lemma network_step_conservation {F} `{PyFloat F} (self : MultiIntersectionNetwork.t)
    (arrivals arrivals' : list Arrivals) (decisions : list (Decision F))
    (logs : list (LogRecord F)) (rewards : list (nat * F))
    (self' : MultiIntersectionNetwork.t) :
  MultiIntersectionNetwork.step self arrivals decisions
  = Some ((logs, rewards), (self', arrivals')) ->
  vehicles_waiting self' + vehicles_served logs
  = vehicles_waiting self
    + vehicles_arrived
        (firstn (List.length (MultiIntersectionNetwork.intersections self)) arrivals).
Proof.
  intros Hstep.
  pose proof (network_step_shape self arrivals arrivals' decisions logs rewards self' Hstep)
    as Hshape.
  cbv zeta in Hshape.
  destruct Hshape as (_ & _ & Hll & _ & Hil & Han & _ & Hpt).
  unfold vehicles_waiting, vehicles_served, vehicles_arrived.
  apply zsum_pointwise.
  - rewrite Hll, Hil. reflexivity.
  - rewrite Hil. reflexivity.
  - rewrite length_firstn, Hil. lia.
  - intros i it' log it a Hit' Hlog Hit Ha.
    assert (Hlt : (i < List.length (MultiIntersectionNetwork.intersections self))%nat)
      by (apply nth_error_Some; rewrite Hit; discriminate).
    rewrite nth_error_firstn in Ha.
    destruct (Nat.ltb_spec i (List.length (MultiIntersectionNetwork.intersections self)));
      [|lia].
    destruct (Hpt i Hlt) as (it0 & a0 & d0 & Hit0 & Ha0 & _ & Hlog0 & _ & Hit0').
    rewrite Hit in Hit0. inversion Hit0; subst it0.
    rewrite Ha in Ha0. inversion Ha0; subst a0.
    rewrite Hlog in Hlog0. inversion Hlog0; subst log.
    rewrite Hit' in Hit0'. inversion Hit0'; subst it'.
    apply step_conserves.
Qed.

(** X28. A step of the network conserves vehicles: the vehicles waiting
    afterwards plus the logged throughput are the vehicles waiting before
    plus the arrivals of the records that have an intersection; nothing is
    passed from one intersection to the next. *)
Theorem network_step_conserves_vehicles {F} `{PyFloat F} (self : MultiIntersectionNetwork.t)
    (arrivals arrivals' : list Arrivals) (decisions : list (Decision F))
    (logs : list (LogRecord F)) (rewards : list (nat * F))
    (self' : MultiIntersectionNetwork.t) :
  MultiIntersectionNetwork.step self arrivals decisions
  = Some ((logs, rewards), (self', arrivals')) ->
  vehicles_waiting self' + vehicles_served logs
  = vehicles_waiting self
    + vehicles_arrived
        (firstn (List.length (MultiIntersectionNetwork.intersections self)) arrivals)
  /\ (List.length arrivals = List.length (MultiIntersectionNetwork.intersections self) ->
      vehicles_waiting self' + vehicles_served logs
      = vehicles_waiting self + vehicles_arrived arrivals').
Proof.
  intros Hstep.
  pose proof (network_step_conservation self arrivals arrivals' decisions logs rewards self'
                Hstep) as Hcons.
  split; [exact Hcons|]. intros Hlen.
  destruct (network_step_shape self arrivals arrivals' decisions logs rewards self' Hstep)
    as (Earr & _).
  rewrite Hcons, Earr, <- Hlen, firstn_all. reflexivity.
Qed.

(** ** [run_once] with the fixed-plan controller *)

Lemma decide_loop_step {F} `{PyFloat F} (network : MultiIntersectionNetwork.t) (tod : string)
    (decisions : list (Decision F)) (ls : list (nat * State)) (i : nat) (a : Arrivals)
    (inter : Intersection.t) :
  nth_error (MultiIntersectionNetwork.intersections network) i = Some inter ->
  Main.decide_loop network tod (Some (decisions, ls)) (i, a)
  = Some ((decisions
           ++ [FixedTimeController.decide
                 (Intersection.observe_state inter tod (a_emergency a))])%list,
          dict_set Nat.eqb i (Intersection.observe_state inter tod (a_emergency a)) ls).
Proof.
  intros Hi. unfold Main.decide_loop, MultiIntersectionNetwork.observe_state, bind. simpl.
  rewrite Hi. reflexivity.
Qed.

(** The decision loop of one step: one decision per arrival record, taken
    on the state of the intersection of the same index. *)
Lemma decide_fold_spec {F} `{PyFloat F} (network : MultiIntersectionNetwork.t) (tod : string)
    (l : list Arrivals) :
  forall (s : nat) (decisions : list (Decision F)) (ls : list (nat * State)),
    (s + List.length l <= List.length (MultiIntersectionNetwork.intersections network))%nat ->
    exists ds ls',
      fold_left (Main.decide_loop network tod) (combine (seq s (List.length l)) l)
        (Some (decisions, ls)) = Some ((decisions ++ ds)%list, ls')
      /\ List.length ds = List.length l
      /\ (forall i a, nth_error l i = Some a ->
            exists inter,
              nth_error (MultiIntersectionNetwork.intersections network) (s + i) = Some inter
              /\ nth_error ds i
                 = Some (FixedTimeController.decide
                           (Intersection.observe_state inter tod (a_emergency a))))
      /\ (forall k, dict_get Nat.eqb k ls <> None \/ (s <= k < s + List.length l)%nat ->
            dict_get Nat.eqb k ls' <> None).
Proof.
  induction l as [|a l IH]; intros s decisions ls Hlen.
  - exists [], ls. simpl. rewrite app_nil_r. split; [reflexivity|]. split; [reflexivity|].
    split.
    + intros i a Hn. destruct i; discriminate Hn.
    + intros k [Hk | Hk]; [exact Hk | lia].
  - cbn [List.length seq combine fold_left].
    destruct (nth_error (MultiIntersectionNetwork.intersections network) s) as [inter|] eqn:Ei;
      [|apply nth_error_None in Ei; simpl in Hlen; lia].
    rewrite (decide_loop_step network tod decisions ls s a inter Ei).
    set (st := Intersection.observe_state inter tod (a_emergency a)).
    destruct (IH (S s) (decisions ++ [FixedTimeController.decide st])%list
                 (dict_set Nat.eqb s st ls)) as (ds & ls' & Hfold & Hl & Hnth & Hkeys).
    { simpl in Hlen. lia. }
    exists (FixedTimeController.decide st :: ds), ls'.
    rewrite Hfold, <- app_assoc. split; [reflexivity|]. split; [simpl; rewrite Hl; reflexivity|].
    split.
    + intros i a0 Hn. destruct i as [|i]; simpl in Hn.
      * inversion Hn; subst a0. exists inter. rewrite Nat.add_0_r. split; [exact Ei | reflexivity].
      * destruct (Hnth i a0 Hn) as (inter0 & Hi0 & Hd0). exists inter0.
        replace (s + S i)%nat with (S s + i)%nat by lia. split; [exact Hi0 | exact Hd0].
    + intros k Hk. apply Hkeys. destruct Hk as [Hk | Hk].
      * left. apply (dict_get_set_defined _ Nat.eqb_eq). exact Hk.
      * destruct (Nat.eq_dec k s) as [-> | Hne].
        -- left. rewrite (dict_get_set_same _ Nat.eqb_eq). discriminate.
        -- right. simpl in Hk. lia.
Qed.

(** The loop over the rewards finds all it looks up. *)
Lemma learn_fold_total {F} `{PyFloat F} (network : MultiIntersectionNetwork.t) (tod : string)
    (step_arrivals : list Arrivals) (ls : list (nat * State)) (rewards : list (nat * F)) :
  (forall item, In item rewards ->
     dict_get Nat.eqb (fst item) ls <> None
     /\ nth_error step_arrivals (fst item) <> None
     /\ nth_error (MultiIntersectionNetwork.intersections network) (fst item) <> None) ->
  fold_left (Main.learn_loop network tod step_arrivals ls) rewards (Some tt) = Some tt.
Proof.
  induction rewards as [|item rewards IH]; intros Hall; [reflexivity|].
  cbn [fold_left].
  destruct (Hall item (or_introl eq_refl)) as (H1 & H2 & H3).
  assert (Hstep : Main.learn_loop network tod step_arrivals ls (Some tt) item = Some tt).
  { unfold Main.learn_loop, MultiIntersectionNetwork.observe_state, bind.
    destruct (dict_get Nat.eqb (fst item) ls); [|contradiction].
    destruct (nth_error step_arrivals (fst item)); [|contradiction].
    destruct (nth_error (MultiIntersectionNetwork.intersections network) (fst item));
      [reflexivity | contradiction]. }
  rewrite Hstep. apply IH. intros it Hin. apply Hall. right. exact Hin.
Qed.

Lemma fixed_decide_duration {F} `{PyFloat F} (state : State) :
  duration (FixedTimeController.decide (F := F) state)
  = of_int (plan_duration (st_time_of_day state)).
Proof. reflexivity. Qed.

(** One pass of the loop of [run_once] on a step with one arrival record
    per intersection, all of one time of day. *)
Lemma run_step_spec {F} `{PyFloat F} (m : nat) (rows : list (LogRecord F))
    (network : MultiIntersectionNetwork.t) (ls : list (nat * State))
    (step_arrivals : list Arrivals) :
  (1 <= m)%nat ->
  List.length (MultiIntersectionNetwork.intersections network) = m ->
  List.length step_arrivals = m ->
  (forall a b, In a step_arrivals -> In b step_arrivals ->
               a_time_of_day a = a_time_of_day b) ->
  exists logs network' ls',
    Main.run_step (Some (rows, network, ls)) step_arrivals
    = Some ((rows ++ logs)%list, network', ls')
    /\ List.length logs = m
    /\ List.length (MultiIntersectionNetwork.intersections network') = m
    /\ Forall Main.fixed_plan_row logs
    /\ vehicles_waiting network' + vehicles_served logs
       = vehicles_waiting network + vehicles_arrived step_arrivals
    /\ (Forall Intersection.inv (MultiIntersectionNetwork.intersections network) ->
        Forall (fun a => 0 <= arrivals_ns a /\ 0 <= arrivals_ew a) step_arrivals ->
        Forall Intersection.inv (MultiIntersectionNetwork.intersections network')).
Proof.
  intros Hm Hn Hlen Htod.
  destruct step_arrivals as [|first rest] eqn:Esa; [simpl in Hlen; lia|].
  rewrite <- Esa in *.
  assert (Hfirst : nth_error step_arrivals 0 = Some first) by (rewrite Esa; reflexivity).
  set (tod := a_time_of_day first).
  destruct (decide_fold_spec network tod step_arrivals 0 [] ls) as
    (ds & ls1 & Hdec & Hdl & Hdn & Hkeys); [simpl; lia|].
  simpl in Hdec.
  destruct (network_step_total network step_arrivals ds) as [r Hstep]; [lia | lia |].
  destruct r as [[logs rewards] [network' arrivals']].
  pose proof (network_step_shape network step_arrivals arrivals' ds logs rewards network' Hstep)
    as Hshape.
  cbv zeta in Hshape. rewrite Hn in Hshape.
  destruct Hshape as (Earr & _ & Hll & Hrl & Hil & _ & _ & Hpt). subst arrivals'.
  assert (Hlearn : fold_left (Main.learn_loop network' tod step_arrivals ls1) rewards (Some tt)
                   = Some tt).
  { apply learn_fold_total. intros item Hin.
    apply In_nth_error in Hin. destruct Hin as [i Hi].
    assert (Hlt : (i < m)%nat) by (rewrite <- Hrl; apply nth_error_Some; rewrite Hi; discriminate).
    destruct (Hpt i Hlt) as (it & a & d & _ & _ & _ & _ & Hr & _).
    rewrite Hi in Hr. inversion Hr; subst item. simpl.
    split; [apply Hkeys; right; lia|]. split; apply nth_error_Some; lia. }
  exists logs, network', ls1. split.
  - unfold Main.run_step, bind. rewrite Hfirst. fold tod. unfold Main.enumerate.
    rewrite Hdec, Hstep, Hlearn. reflexivity.
  - split; [exact Hll|]. split; [exact Hil|]. split; [|split].
    + apply Forall_forall. intros log Hin.
      apply In_nth_error in Hin. destruct Hin as [i Hi].
      assert (Hlt : (i < m)%nat)
        by (rewrite <- Hll; apply nth_error_Some; rewrite Hi; discriminate).
      destruct (Hpt i Hlt) as (it & a & d & Hit & Ha & Hd & Hlog & _).
      destruct (Hdn i a Ha) as (inter & Hinter & Hdi). simpl in Hinter.
      rewrite Hit in Hinter. inversion Hinter; subst inter.
      rewrite Hd in Hdi. inversion Hdi; subst d.
      rewrite Hi in Hlog. inversion Hlog; subst log.
      unfold Main.fixed_plan_row.
      destruct (step_reward it a
                  (FixedTimeController.decide
                     (Intersection.observe_state it tod (a_emergency a))))
        as (_ & _ & Hem & _ & Htd & _).
      cbv zeta in Hem, Htd. rewrite Hem, Htd, step_log_duration, fixed_decide_duration. simpl.
      assert (Ea : a_time_of_day a = tod).
      { subst tod. apply Htod; eapply nth_error_In; eassumption. }
      rewrite Ea. reflexivity.
    + pose proof (network_step_conservation _ _ _ _ _ _ _ Hstep) as Hc.
      rewrite Hn in Hc. rewrite <- Hlen in Hc at 1. rewrite firstn_all in Hc. exact Hc.
    + intros Hinv Hnonneg. rewrite Forall_forall in Hinv, Hnonneg.
      apply Forall_forall. intros it' Hin.
      apply In_nth_error in Hin. destruct Hin as [i Hi].
      assert (Hlt : (i < m)%nat)
        by (rewrite <- Hil; apply nth_error_Some; rewrite Hi; discriminate).
      destruct (Hpt i Hlt) as (it & a & d & Hit & Ha & Hd & _ & _ & Hit').
      destruct (Hdn i a Ha) as (inter & _ & Hdi).
      rewrite Hd in Hdi. inversion Hdi as [Ed].
      rewrite Hi in Hit'. inversion Hit'; subst it'.
      apply step_keeps_inv.
      * apply Hinv. eapply nth_error_In. exact Hit.
      * apply (Hnonneg a). eapply nth_error_In. exact Ha.
      * apply (Hnonneg a). eapply nth_error_In. exact Ha.
      * intros p Hp. rewrite Ed in Hp. discriminate Hp.
Qed.

Lemma zsum_app (l1 l2 : list Z) : zsum (l1 ++ l2) = zsum l1 + zsum l2.
Proof. induction l1 as [|x l1 IH]; simpl; [reflexivity | rewrite IH; lia]. Qed.

Lemma zsum_nonneg (l : list Z) : Forall (fun x => 0 <= x) l -> 0 <= zsum l.
Proof. induction 1 as [|x l Hx Hl IH]; simpl; lia. Qed.

Lemma vehicles_served_app {F : Type} (l1 l2 : list (LogRecord F)) :
  vehicles_served (l1 ++ l2) = vehicles_served l1 + vehicles_served l2.
Proof. unfold vehicles_served. rewrite map_app. apply zsum_app. Qed.

Lemma run_step_raised {F} `{PyFloat F} (stream : list (list Arrivals)) :
  fold_left (Main.run_step (F := F)) stream None = None.
Proof. induction stream as [|row stream IH]; simpl; [reflexivity | exact IH]. Qed.

Lemma run_fold_spec {F} `{PyFloat F} (m : nat) (stream : list (list Arrivals)) :
  (1 <= m)%nat ->
  Forall (fun row => List.length row = m
                     /\ forall a b, In a row -> In b row ->
                                    a_time_of_day a = a_time_of_day b) stream ->
  forall (rows : list (LogRecord F)) (network : MultiIntersectionNetwork.t)
         (ls : list (nat * State)),
    List.length (MultiIntersectionNetwork.intersections network) = m ->
    exists rows' network' ls',
      fold_left Main.run_step stream (Some (rows, network, ls))
      = Some ((rows ++ rows')%list, network', ls')
      /\ List.length rows' = (List.length stream * m)%nat
      /\ List.length (MultiIntersectionNetwork.intersections network') = m
      /\ Forall Main.fixed_plan_row rows'
      /\ vehicles_waiting network' + vehicles_served rows'
         = vehicles_waiting network + zsum (map vehicles_arrived stream)
      /\ (Forall Intersection.inv (MultiIntersectionNetwork.intersections network) ->
          Forall (Forall (fun a => 0 <= arrivals_ns a /\ 0 <= arrivals_ew a)) stream ->
          Forall Intersection.inv (MultiIntersectionNetwork.intersections network')).
Proof.
  intros Hm. induction 1 as [|row stream [Hlen Htod] Hrest IH]; intros rows network ls Hn.
  - exists [], network, ls. simpl. rewrite app_nil_r.
    split; [reflexivity|]. split; [reflexivity|]. split; [exact Hn|].
    split; [constructor|]. split; [unfold vehicles_served; simpl; lia|].
    intros Hinv _. exact Hinv.
  - destruct (run_step_spec m rows network ls row Hm Hn Hlen Htod)
      as (logs & network1 & ls1 & Hstep & Hll & Hn1 & Hrows & Hcons & Hinv1).
    destruct (IH (rows ++ logs)%list network1 ls1 Hn1)
      as (rows' & network' & ls' & Hfold & Hl' & Hn' & Hrows' & Hcons' & Hinv').
    exists (logs ++ rows')%list, network', ls'.
    cbn [fold_left]. rewrite Hstep, Hfold, app_assoc.
    split; [reflexivity|]. split; [rewrite length_app, Hll, Hl'; simpl; lia|].
    split; [exact Hn'|]. split; [apply Forall_app; split; assumption|].
    split.
    + rewrite vehicles_served_app. simpl. lia.
    + intros Hinv Hnonneg. inversion Hnonneg as [|? ? Hrow Hstream]; subst.
      apply Hinv'; [apply Hinv1; assumption | exact Hstream].
Qed.

Section RunOnceFacts.
Context {F : Type} `{PyFloat F} {Rng : Type}.
Variable randint : Rng -> Z -> Z -> Z * Rng.
Variable random : Rng -> F * Rng.

(** The stream [generate_stream] yields, as [run_once] needs it. *)
Lemma generate_stream_uniform (steps intersections : Z) (profile : string)
    (emergency_rate : F) (varied_time : bool) (rng : Rng) (stream : list (list Arrivals)) :
  TrafficGenerator.generate_stream randint random steps intersections profile emergency_rate
    varied_time rng = Some stream ->
  List.length stream = Z.to_nat steps
  /\ Forall (fun row => List.length row = Z.to_nat intersections
                        /\ forall a b, In a row -> In b row ->
                                       a_time_of_day a = a_time_of_day b) stream.
Proof.
  unfold TrafficGenerator.generate_stream. intros Hs.
  destruct (stream_from_spec _ _ _ _ _ _ _ _ _ _ _ Hs) as [Hlen Hall].
  split; [exact Hlen|]. apply Forall_forall. intros row Hin.
  apply In_nth_error in Hin. destruct Hin as [t Ht].
  destruct (Hall t row Ht) as [Hl Ha]. split; [exact Hl|].
  intros a b Hina Hinb. destruct (Ha a Hina) as [_ Hpa]. destruct (Ha b Hinb) as [_ Hpb].
  rewrite Hpa in Hpb. inversion Hpb. reflexivity.
Qed.


(** X27. When [run_once] with the fixed-plan controller returns, it has
    logged one row per step and intersection, the network still has its
    intersections, and the duration of every row is the plan of the row's
    time of day (12, 10 or 6 seconds), raised to at least 5 seconds in the
    rows with an emergency. *)
Theorem run_once_fixed_rows (steps intersections service_rate : Z) (profile : string)
    (emergency_rate : F) (varied_time : bool) (rng : Rng) (rows : list (LogRecord F))
    (network : MultiIntersectionNetwork.t) (last_states : list (nat * State)) :
  Main.run_once randint random steps intersections service_rate profile emergency_rate
    varied_time rng = Some (rows, network, last_states) ->
  List.length rows = (Z.to_nat steps * Z.to_nat intersections)%nat
  /\ List.length (MultiIntersectionNetwork.intersections network) = Z.to_nat intersections
  /\ Forall Main.fixed_plan_row rows.
Proof.
  unfold Main.run_once, bind.
  destruct (TrafficGenerator.generate_stream randint random steps intersections profile
              emergency_rate varied_time rng) as [stream|] eqn:Hs; [|discriminate].
  destruct (generate_stream_uniform _ _ _ _ _ _ _ Hs) as [Hlen Hall].
  assert (Hinit : List.length (MultiIntersectionNetwork.intersections
                                 (MultiIntersectionNetwork.init (Z.to_nat intersections)
                                    "fixed" service_rate)) = Z.to_nat intersections).
  { unfold MultiIntersectionNetwork.init. simpl. rewrite length_map, length_seq. reflexivity. }
  destruct (Nat.eq_dec (Z.to_nat intersections) 0) as [Hz | Hnz].
  - destruct stream as [|row rest].
    + simpl. intros Hr. inversion Hr; subst. simpl in Hlen. rewrite <- Hlen.
      split; [reflexivity|]. split; [exact Hinit | constructor].
    + inversion Hall as [|? ? [Hrow _] _]; subst. rewrite Hz in Hrow.
      destruct row; [|discriminate]. cbn [fold_left].
      replace (Main.run_step _ []) with (@None (list (LogRecord F) * MultiIntersectionNetwork.t
                                                * list (nat * State))) by reflexivity.
      rewrite run_step_raised. discriminate.
  - destruct (run_fold_spec (Z.to_nat intersections) stream ltac:(lia) Hall []
                (MultiIntersectionNetwork.init (Z.to_nat intersections) "fixed" service_rate)
                [] Hinit) as (rows' & network' & ls' & Hfold & Hl & Hn & Hrows & _).
    rewrite Hfold. simpl. intros Hr. inversion Hr; subst.
    rewrite Hl, Hlen. split; [reflexivity|]. split; [exact Hn | exact Hrows].
Qed.
End RunOnceFacts.

Lemma run_once_fixed_rows_witness :
  exists rows network last_states,
    Main.run_once (F := float) TrafficGenerator.counter_randint TrafficGenerator.counter_random
      3 2 1 "night" (lit 2 100) false 0%nat = Some (rows, network, last_states)
    /\ List.length rows = 6%nat
    /\ Forall Main.fixed_plan_row rows.
Proof.
  destruct (Main.run_once (F := float) TrafficGenerator.counter_randint
              TrafficGenerator.counter_random 3 2 1 "night" (lit 2 100) false 0%nat)
    as [[[rows network] last_states]|] eqn:Hr; [|vm_compute in Hr; discriminate].
  exists rows, network, last_states. split; [reflexivity|].
  destruct (run_once_fixed_rows _ _ _ _ _ _ _ _ _ _ _ _ Hr) as (Hl & _ & Hrows).
  split; [exact Hl | exact Hrows].
Defined.

Lemma network_step_conserves_vehicles_witness :
  exists logs rewards net' arrivals',
    MultiIntersectionNetwork.step (MultiIntersectionNetwork.init 2 "fixed" 1)
      [upstream_arrivals; no_arrivals] [fixed_decision; fixed_decision]
    = Some ((logs, rewards), (net', arrivals'))
    /\ vehicles_waiting net' + vehicles_served logs = 5.
Proof.
  destruct (MultiIntersectionNetwork.step (MultiIntersectionNetwork.init 2 "fixed" 1)
              [upstream_arrivals; no_arrivals] [fixed_decision; fixed_decision])
    as [[[logs rewards] [net' arrivals']]|] eqn:Hstep.
  - exists logs, rewards, net', arrivals'. split; [reflexivity|].
    exact (proj1 (network_step_conserves_vehicles _ _ _ _ _ _ _ Hstep)).
  - exfalso.
    destruct (network_step_total (MultiIntersectionNetwork.init 2 "fixed" 1)
                [upstream_arrivals; no_arrivals] [fixed_decision; fixed_decision])
      as [r Hr]; [simpl; lia | simpl; lia |].
    rewrite Hr in Hstep. discriminate Hstep.
Defined.

Lemma init_network_empty (n : nat) (name : string) (rate : Z) :
  vehicles_waiting (MultiIntersectionNetwork.init n name rate) = 0
  /\ Forall Intersection.inv
       (MultiIntersectionNetwork.intersections (MultiIntersectionNetwork.init n name rate)).
Proof.
  unfold vehicles_waiting, MultiIntersectionNetwork.init. simpl. split.
  - rewrite map_map. simpl. induction (seq 0 n) as [|i l IH]; simpl; [reflexivity | exact IH].
  - apply Forall_forall. intros it Hin. apply in_map_iff in Hin.
    destruct Hin as (i & <- & _). apply init_invariant.
Qed.

Section RunOnceConservation.
Context {F : Type} `{PyFloat F} {Rng : Type}.
Variable randint : Rng -> Z -> Z -> Z * Rng.
Variable random : Rng -> F * Rng.

(** X29. Over a whole run with the fixed-plan controller no vehicle is
    created or lost: the vehicles still waiting at the end plus the
    throughput of all the log rows are the arrivals the generator produced.
    With a generator whose [randint] stays in its range the queues end
    non-negative, so the logged throughput never exceeds the demand. *)
Theorem run_once_fixed_conserves (steps intersections service_rate : Z) (profile : string)
    (emergency_rate : F) (varied_time : bool) (rng : Rng) (rows : list (LogRecord F))
    (network : MultiIntersectionNetwork.t) (last_states : list (nat * State)) :
  (forall g a b, a <= b -> a <= fst (randint g a b) <= b) ->
  Main.run_once randint random steps intersections service_rate profile emergency_rate
    varied_time rng = Some (rows, network, last_states) ->
  exists stream,
    TrafficGenerator.generate_stream randint random steps intersections profile emergency_rate
      varied_time rng = Some stream
    /\ vehicles_waiting network + vehicles_served rows = zsum (map vehicles_arrived stream)
    /\ Forall Intersection.inv (MultiIntersectionNetwork.intersections network)
    /\ vehicles_served rows <= zsum (map vehicles_arrived stream).
Proof.
  intros Hrand. unfold Main.run_once, bind.
  destruct (TrafficGenerator.generate_stream randint random steps intersections profile
              emergency_rate varied_time rng) as [stream|] eqn:Hs; [|discriminate].
  intros Hr. exists stream. split; [reflexivity|].
  destruct (generate_stream_uniform _ _ _ _ _ _ _ _ _ Hs) as [Hlen Hall].
  assert (Hnonneg : Forall (Forall (fun a => 0 <= arrivals_ns a /\ 0 <= arrivals_ew a)) stream).
  { apply Forall_forall. intros row Hrow. apply Forall_forall. intros a Ha.
    unfold TrafficGenerator.generate_stream in Hs.
    pose proof (stream_from_ranges _ _ _ _ _ _ _ _ _ _ _ Hrand Hs row a Hrow Ha) as Hrange.
    cbv zeta in Hrange.
    destruct (profile_cfg_ordered (a_time_of_day a)) as (_ & _ & H1 & _ & H3 & _). lia. }
  destruct (init_network_empty (Z.to_nat intersections) "fixed" service_rate) as [Hw0 Hinv0].
  assert (Hgoal : vehicles_waiting network + vehicles_served rows
                  = zsum (map vehicles_arrived stream)
                  /\ Forall Intersection.inv (MultiIntersectionNetwork.intersections network)).
  { destruct (Nat.eq_dec (Z.to_nat intersections) 0) as [Hz | Hnz].
    - destruct stream as [|row rest].
      + simpl in Hr. inversion Hr; subst. rewrite Hw0. split; [reflexivity | exact Hinv0].
      + exfalso. inversion Hall as [|? ? [Hrow _] _]; subst. rewrite Hz in Hrow.
        destruct row; [|discriminate]. cbn [fold_left] in Hr.
        replace (Main.run_step _ []) with (@None (list (LogRecord F) * MultiIntersectionNetwork.t
                                                  * list (nat * State))) in Hr by reflexivity.
        rewrite run_step_raised in Hr. discriminate.
    - destruct (run_fold_spec (Z.to_nat intersections) stream ltac:(lia) Hall []
                  (MultiIntersectionNetwork.init (Z.to_nat intersections) "fixed" service_rate)
                  []) as (rows' & network' & ls' & Hfold & _ & _ & _ & Hcons & Hinv).
      { unfold MultiIntersectionNetwork.init. simpl. rewrite length_map, length_seq.
        reflexivity. }
      rewrite Hfold in Hr. simpl in Hr. inversion Hr; subst.
      rewrite Hw0 in Hcons. split; [exact Hcons | exact (Hinv Hinv0 Hnonneg)]. }
  destruct Hgoal as [Hcons Hinv]. split; [exact Hcons|]. split; [exact Hinv|].
  assert (0 <= vehicles_waiting network).
  { unfold vehicles_waiting. apply zsum_nonneg. apply Forall_forall. intros x Hx.
    apply in_map_iff in Hx. destruct Hx as (it & <- & Hit).
    rewrite Forall_forall in Hinv. destruct (Hinv it Hit) as (H1 & H2 & _). lia. }
  lia.
Qed.
End RunOnceConservation.

Lemma run_once_fixed_conserves_witness :
  exists rows network last_states stream,
    Main.run_once (F := float) TrafficGenerator.counter_randint TrafficGenerator.counter_random
      3 2 1 "night" (lit 2 100) false 0%nat = Some (rows, network, last_states)
    /\ TrafficGenerator.generate_stream (F := float) TrafficGenerator.counter_randint
         TrafficGenerator.counter_random 3 2 "night" (lit 2 100) false 0%nat = Some stream
    /\ vehicles_served rows <= zsum (map vehicles_arrived stream).
Proof.
  destruct (Main.run_once (F := float) TrafficGenerator.counter_randint
              TrafficGenerator.counter_random 3 2 1 "night" (lit 2 100) false 0%nat)
    as [[[rows network] last_states]|] eqn:Hr; [|vm_compute in Hr; discriminate].
  destruct (run_once_fixed_conserves _ _ _ _ _ _ _ _ _ _ _ _ counter_randint_range Hr)
    as (stream & Hs & _ & _ & Hle).
  exists rows, network, last_states, stream.
  split; [reflexivity|]. split; [exact Hs | exact Hle].
Defined.
